(** * CuriousEditor: the content bridge of the rich-text editor

    A shallow embedding of the parts of the repository that convert,
    count, synchronise and persist a document body:

    - [Js]: the JavaScript string operations the code calls
      ([trim], [replace] with a regular expression, [split]);
    - [Codec]: [convertHTMLToMarkdown] and [convertMarkdownToHTML]
      of [src/components/RichTextEditor.tsx];
    - [Projector]: the word and character counters of
      [handleContentChange] in [src/app/(drawer)/editor.tsx];
    - [Controller]: the state of the [RichTextEditor] component and
      its handlers; [EarlierCopy]: the message handler of the earlier
      copy of the component;
    - [Host]: the script of the page the component loads into its
      WebView, the value of the template literals it is sent, and the
      markup its [insertImage], [createLink] and [insertTable] build;
    - [Insertion]: [insertImage], [createLink] and [insertCode] of the
      component, and the value of the string literals they write;
    - [Date], [Storage]: time stamps, the key-value storage and the
      document service of [src/unnamed/part_000];
    - [Screen], [Library], [App]: the editor screen ([handleContentChange],
      [handleSave], [loadDocument], [handleNewDocument], the link and
      image dialogs), the operations on the stored documents, and the
      screen together with its editor and the page.

    The properties follow the definitions; each is stated on these
    definitions. *)

From Stdlib Require Import List NArith ZArith String Ascii Bool Arith Lia.
From Stdlib Require Import DecimalString Permutation Sorted.
Import ListNotations.

Set Implicit Arguments.

(* ================================================================== *)
(** ** JavaScript strings and regular expressions *)
(* ================================================================== *)

Module Js.

(** A JavaScript string is a sequence of UTF-16 code units. *)
Definition char := N.
Definition str := list char.

Definition ch (a : ascii) : char := N_of_ascii a.

(** A source-code string literal (ASCII only). *)
Definition js (s : string) : str := map ch (list_ascii_of_string s).

Definition LF : char := 10%N.
Definition DQ : char := 34%N.

Open Scope N_scope.

(** ECMAScript [LineTerminator]. *)
Definition isLineTerminator (c : char) : bool :=
  (c =? 10) || (c =? 13) || (c =? 0x2028) || (c =? 0x2029).

(** ECMAScript [WhiteSpace] or [LineTerminator]: the class [\s], which is
    also the set of code units that [String.prototype.trim] removes. *)
Definition isWhiteSpace (c : char) : bool :=
  (c =? 9) || (c =? 10) || (c =? 11) || (c =? 12) || (c =? 13) || (c =? 32)
  || (c =? 160) || (c =? 0x1680) || ((0x2000 <=? c) && (c <=? 0x200A))
  || (c =? 0x2028) || (c =? 0x2029) || (c =? 0x202F) || (c =? 0x205F)
  || (c =? 0x3000) || (c =? 0xFEFF).

Close Scope N_scope.

Fixpoint trimStart (s : str) : str :=
  match s with
  | c :: s' => if isWhiteSpace c then trimStart s' else s
  | [] => []
  end.

Definition trimEnd (s : str) : str := rev (trimStart (rev s)).

(** [String.prototype.trim]. *)
Definition trim (s : str) : str := trimEnd (trimStart s).

(** [s.startsWith(w)] *)
Fixpoint startsWith (w s : str) : bool :=
  match w, s with
  | [], _ => true
  | x :: w', c :: s' => N.eqb c x && startsWith w' s'
  | _ :: _, [] => false
  end.

(** [s.indexOf(w)], [None] for -1. *)
Fixpoint indexOf (w s : str) : option nat :=
  if startsWith w s then Some 0
  else match s with
       | [] => None
       | _ :: s' => option_map S (indexOf w s')
       end.

(** A string used as a condition: the empty string is the only falsy one. *)
Definition truthy (s : str) : bool :=
  match s with [] => false | _ :: _ => true end.

(** [a || b] on strings. *)
Definition orElse (a b : str) : str := if truthy a then a else b.

(** *** Regular expressions

    The patterns of the repository are sequences of literal characters,
    single-character classes, starred or optional classes, capture groups
    and the anchors [^] and [$] under the [m] flag.  [exec] is the
    backtracking matcher of ECMAScript for that fragment: alternatives are
    tried in priority order (greedy: longest first, lazy: shortest first)
    and the first one whose continuation succeeds wins.

    The [i] flag of the Markdown patterns never matters: they hold no
    letter, and no code unit other than the punctuation itself
    canonicalises to it. *)

Inductive cclass : Type :=
| CChar (c : char)      (* a literal character *)
| CDot                  (* [.]   without the [s] flag *)
| CAny                  (* [.]   with the [s] flag *)
| CNot (c : char)       (* [[^c]] *)
| CSpace.               (* [\s] *)

Definition cmatch (k : cclass) (c : char) : bool :=
  match k with
  | CChar d => N.eqb c d
  | CDot => negb (isLineTerminator c)
  | CAny => true
  | CNot d => negb (N.eqb c d)
  | CSpace => isWhiteSpace c
  end.

Inductive atom : Type :=
| One (k : cclass)                   (* one character of the class *)
| Opt (k : cclass)                   (* [k?] *)
| Many (greedy : bool) (k : cclass)  (* [k*] or [k*?] *)
| GOpen (n : nat)                    (* opening parenthesis of group n *)
| GClose (n : nat)                   (* closing parenthesis of group n *)
| Bol                                (* [^] under the [m] flag *)
| Eol.                               (* [$] under the [m] flag *)

Definition regex := list atom.

(** The pattern that matches the characters of [w] literally. *)
Definition litS (w : str) : regex := map (fun c => One (CChar c)) w.

Definition lit (s : string) : regex := litS (js s).

(** Captures: group number to (start, end), offsets from the start of the
    match; the most recent entry of a group is the valid one. *)
Definition caps := list (nat * (nat * nat)).

Fixpoint capture (n : nat) (cs : caps) : option (nat * nat) :=
  match cs with
  | [] => None
  | (m, be) :: cs' => if Nat.eqb m n then Some be else capture n cs'
  end.

Definition atBol (prev : option char) : bool :=
  match prev with None => true | Some c => isLineTerminator c end.

Definition atEol (s : str) : bool :=
  match s with [] => true | c :: _ => isLineTerminator c end.

(** [exec p prev s pos cs]: match [p] against [s], whose first character is
    at offset [pos] of the attempt and is preceded by [prev]; the result is
    the offset where the match ends and the captures. *)
Fixpoint exec (p : regex) (prev : option char) (s : str) (pos : nat)
         (cs : caps) {struct p} : option (nat * caps) :=
  match p with
  | [] => Some (pos, cs)
  | One k :: p' =>
      match s with
      | c :: s' => if cmatch k c then exec p' (Some c) s' (S pos) cs else None
      | [] => None
      end
  | Opt k :: p' =>
      match s with
      | c :: s' =>
          if cmatch k c then
            match exec p' (Some c) s' (S pos) cs with
            | Some r => Some r
            | None => exec p' prev s pos cs
            end
          else exec p' prev s pos cs
      | [] => exec p' prev s pos cs
      end
  | Many greedy k :: p' =>
      (fix many (prev : option char) (s : str) (pos : nat) {struct s}
         : option (nat * caps) :=
         match s with
         | c :: s' =>
             if cmatch k c then
               if greedy then
                 match many (Some c) s' (S pos) with
                 | Some r => Some r
                 | None => exec p' prev s pos cs
                 end
               else
                 match exec p' prev s pos cs with
                 | Some r => Some r
                 | None => many (Some c) s' (S pos)
                 end
             else exec p' prev s pos cs
         | [] => exec p' prev s pos cs
         end) prev s pos
  | GOpen n :: p' => exec p' prev s pos ((n, (pos, pos)) :: cs)
  | GClose n :: p' =>
      let b := match capture n cs with Some (b, _) => b | None => pos end in
      exec p' prev s pos ((n, (b, pos)) :: cs)
  | Bol :: p' => if atBol prev then exec p' prev s pos cs else None
  | Eol :: p' => if atEol s then exec p' prev s pos cs else None
  end.

(** A replacement string, parsed: literal text and [$n] references. *)
Inductive piece : Type :=
| Txt (s : string)
| Grp (n : nat).

Definition template := list piece.

(** The text of group [n] in a match that starts at the head of [s]; a
    group that did not take part yields the empty string. *)
Definition group (s : str) (cs : caps) (n : nat) : str :=
  match capture n cs with
  | Some (b, e) => firstn (e - b) (skipn b s)
  | None => []
  end.

Fixpoint subst (t : template) (s : str) (cs : caps) : str :=
  match t with
  | [] => []
  | Txt w :: t' => js w ++ subst t' s cs
  | Grp n :: t' => group s cs n ++ subst t' s cs
  end.

(** [s.replace(/p/, t)]: the leftmost match only. *)
Fixpoint replaceFirstFrom (p : regex) (t : template) (prev : option char)
         (s : str) : str :=
  match exec p prev s 0 [] with
  | Some (e, cs) => subst t s cs ++ skipn e s
  | None =>
      match s with
      | c :: s' => c :: replaceFirstFrom p t (Some c) s'
      | [] => []
      end
  end.

Definition replaceFirst (p : regex) (t : template) (s : str) : str :=
  replaceFirstFrom p t None s.

(** [s.replace(/p/g, t)]: every match, left to right; the search resumes
    where the previous match ended, one character further after an empty
    match.  [skip] counts the characters of the current match still to be
    dropped. *)
Fixpoint replaceAllFrom (p : regex) (t : template) (skip : nat)
         (prev : option char) (s : str) : str :=
  match skip with
  | S k =>
      match s with
      | c :: s' => replaceAllFrom p t k (Some c) s'
      | [] => []
      end
  | O =>
      match exec p prev s 0 [] with
      | Some (e, cs) =>
          subst t s cs ++
          match s with
          | c :: s' =>
              match e with
              | O => c :: replaceAllFrom p t 0 (Some c) s'
              | S k => replaceAllFrom p t k (Some c) s'
              end
          | [] => []
          end
      | None =>
          match s with
          | c :: s' => c :: replaceAllFrom p t 0 (Some c) s'
          | [] => []
          end
      end
  end.

Definition replaceAll (p : regex) (t : template) (s : str) : str :=
  replaceAllFrom p t 0 None s.

(** [s.split(/p/)] for a pattern without groups: the pattern is tried at
    each position [q] in turn; a match that ends where the current piece
    starts is skipped, any other closes the piece.  [piece] is the current
    piece, reversed. *)
Fixpoint splitFrom (p : regex) (skip : nat) (piece : str)
         (prev : option char) (s : str) : list str :=
  match s with
  | [] => [rev piece]
  | c :: s' =>
      match skip with
      | S k => splitFrom p k piece (Some c) s'
      | O =>
          match exec p prev s 0 [] with
          | Some (S k, _) => rev piece :: splitFrom p k [] (Some c) s'
          | Some (O, _) =>
              match piece with
              | [] => splitFrom p 0 [c] (Some c) s'
              | _ :: _ => rev piece :: splitFrom p 0 [c] (Some c) s'
              end
          | None => splitFrom p 0 (c :: piece) (Some c) s'
          end
      end
  end.

Definition split (p : regex) (s : str) : list str :=
  match s with
  | [] => match exec p None [] 0 [] with Some _ => [] | None => [[]] end
  | _ :: _ => splitFrom p 0 [] None s
  end.

(** *** Notions for the statements about the matcher *)

(** The character before the position reached after reading [w]. *)
Definition prevAfter (prev : option char) (w : str) : option char :=
  match rev w with
  | [] => prev
  | c :: _ => Some c
  end.

(** The length of the whitespace at the head of a string. *)
Fixpoint lead (s : str) : nat :=
  match s with
  | c :: s' => if isWhiteSpace c then S (lead s') else 0
  | [] => 0
  end.

(** No character of [s] is [x]. *)
Definition lacks (x : char) (s : str) : bool :=
  forallb (fun c => negb (N.eqb c x)) s.

(** No line terminator in [s]. *)
Definition oneLine (s : str) : bool :=
  forallb (fun c => negb (isLineTerminator c)) s.

(** The literal characters a pattern starts with. *)
Fixpoint litPrefix (p : regex) : str :=
  match p with
  | One (CChar c) :: p' => c :: litPrefix p'
  | _ => []
  end.

(** How often [x] occurs in [s]. *)
Fixpoint occurrences (x : char) (s : str) : nat :=
  match s with
  | c :: s' => (if N.eqb c x then 1 else 0) + occurrences x s'
  | [] => 0
  end.

(** How often a pattern asks for the literal character [x]. *)
Fixpoint needs (x : char) (p : regex) : nat :=
  match p with
  | One (CChar c) :: p' => (if N.eqb c x then 1 else 0) + needs x p'
  | _ :: p' => needs x p'
  | [] => 0
  end.

(** No line of [s] starts with [x]; [prev] is the character before
    [s]. *)
Fixpoint noLineStart (x : char) (prev : option char) (s : str) : bool :=
  match s with
  | c :: s' => negb (atBol prev && N.eqb c x) && noLineStart x (Some c) s'
  | [] => true
  end.

(** Every [x] of [s] is followed by a character of [ok]. *)
Fixpoint followed (x : char) (ok : char -> bool) (s : str) : bool :=
  match s with
  | c :: s' =>
      (if N.eqb c x
       then match s' with d :: _ => ok d | [] => false end
       else true)
      && followed x ok s'
  | [] => true
  end.

End Js.

Import Js.

(* ================================================================== *)
(** ** The Markdown codec ([src/components/RichTextEditor.tsx]) *)
(* ================================================================== *)

Module Codec.

(** The one-character strings a string literal cannot hold. *)
Definition NL : string := String (ascii_of_N LF) EmptyString.
Definition QUOTE : string := String (ascii_of_N DQ) EmptyString.

Definition chr (s : string) : char :=
  match s with
  | String a _ => ch a
  | EmptyString => 0%N
  end.

(** The placeholder element of the host page: a [div] of class
    [placeholder], a lazy one-line text and the closing tag. *)
Definition rePlaceholder : regex :=
  lit "<div class=" ++ [One (CChar DQ)] ++ lit "placeholder"
  ++ [One (CChar DQ)] ++ lit ">" ++ [Many false CDot] ++ lit "</div>".

(** [html.replace(placeholder, '')]: the pattern has no [g] flag, so
    the leftmost match only is removed. *)
Definition stripPlaceholder (html : str) : str :=
  replaceFirst rePlaceholder [] html.

(** [/<tag[^>]*>(.*?)<\/tag>/g] *)
Definition reElement (tag : string) : regex :=
  lit "<" ++ lit tag ++ [Many true (CNot (chr ">"))] ++ lit ">"
  ++ [GOpen 1; Many false CDot; GClose 1] ++ lit "</" ++ lit tag ++ lit ">".

(** [/<tag>(.*?)<\/tag>/g], and with the [s] flag when [dotAll]. *)
Definition reBare (dotAll : bool) (tag : string) : regex :=
  lit "<" ++ lit tag ++ lit ">"
  ++ [GOpen 1; Many false (if dotAll then CAny else CDot); GClose 1]
  ++ lit "</" ++ lit tag ++ lit ">".

(** The anchor pattern: [<a href=], a quoted target without quote
    (group 1), the rest of the opening tag, a lazy text (group 2) and
    the closing tag; flag [g]. *)
Definition reAnchor : regex :=
  lit "<a href=" ++ [One (CChar DQ); GOpen 1; Many true (CNot DQ); GClose 1;
                     One (CChar DQ); Many true (CNot (chr ">"))]
  ++ lit ">" ++ [GOpen 2; Many false CDot; GClose 2] ++ lit "</a>".

(** [/<br\s*\/?>/g] *)
Definition reBr : regex :=
  lit "<br" ++ [Many true CSpace; Opt (CChar (chr "/"))] ++ lit ">".

(** [/<[^>]*>/g] *)
Definition reTag : regex :=
  lit "<" ++ [Many true (CNot (chr ">"))] ++ lit ">".

(** [text.replace(/<[^>]*>/g, '')] *)
Definition stripTags (s : str) : str := replaceAll reTag [] s.

(** The substitutions of [convertHTMLToMarkdown], in their order. *)
Definition toMarkdownSubstitutions (s : str) : str :=
  let s := replaceAll (reElement "h1") [Txt "# "; Grp 1; Txt NL] s in
  let s := replaceAll (reElement "h2") [Txt "## "; Grp 1; Txt NL] s in
  let s := replaceAll (reElement "h3") [Txt "### "; Grp 1; Txt NL] s in
  let s := replaceAll (reElement "strong") [Txt "**"; Grp 1; Txt "**"] s in
  let s := replaceAll (reElement "b") [Txt "**"; Grp 1; Txt "**"] s in
  let s := replaceAll (reElement "em") [Txt "*"; Grp 1; Txt "*"] s in
  let s := replaceAll (reElement "i") [Txt "*"; Grp 1; Txt "*"] s in
  let s := replaceAll reAnchor [Txt "["; Grp 2; Txt "]("; Grp 1; Txt ")"] s in
  let s := replaceAll (reBare true "ul") [Grp 1] s in
  let s := replaceAll (reBare true "ol") [Grp 1] s in
  let s := replaceAll (reBare false "li") [Txt "- "; Grp 1; Txt NL] s in
  let s := replaceAll (reBare false "p") [Grp 1; Txt NL] s in
  let s := replaceAll reBr [Txt NL] s in
  let s := replaceAll reTag [] s in
  let s := replaceAll (lit "&nbsp;") [Txt " "] s in
  let s := replaceAll (lit "&amp;") [Txt "&"] s in
  let s := replaceAll (lit "&lt;") [Txt "<"] s in
  replaceAll (lit "&gt;") [Txt ">"] s.

Definition convertHTMLToMarkdown (html : str) : str :=
  let cleanHtml := stripPlaceholder html in
  trim (toMarkdownSubstitutions cleanHtml).

(** [/^<marker> (.*$)/gim] *)
Definition reHeading (marker : string) : regex :=
  [Bol] ++ lit marker ++ lit " " ++ [GOpen 1; Many true CDot; Eol; GClose 1].

(** The bold and italic patterns of the Markdown side: the marker
    [stars], a greedy group [( .* )], the marker again (flags [gim]). *)
Definition reStars (stars : string) : regex :=
  lit stars ++ [GOpen 1; Many true CDot; GClose 1] ++ lit stars.

(** [/\[(.*?)\]\((.*?)\)/gim] *)
Definition reLink : regex :=
  lit "[" ++ [GOpen 1; Many false CDot; GClose 1] ++ lit "]("
  ++ [GOpen 2; Many false CDot; GClose 2] ++ lit ")".

Definition convertMarkdownToHTML (markdown : str) : str :=
  if negb (truthy (trim markdown)) then []
  else
    let s := replaceAll (reHeading "#") [Txt "<h1>"; Grp 1; Txt "</h1>"] markdown in
    let s := replaceAll (reHeading "##") [Txt "<h2>"; Grp 1; Txt "</h2>"] s in
    let s := replaceAll (reHeading "###") [Txt "<h3>"; Grp 1; Txt "</h3>"] s in
    let s := replaceAll (reStars "**") [Txt "<strong>"; Grp 1; Txt "</strong>"] s in
    let s := replaceAll (reStars "*") [Txt "<em>"; Grp 1; Txt "</em>"] s in
    let s := replaceAll reLink [Txt "<a href="; Txt QUOTE; Grp 2;
                                Txt QUOTE; Txt ">"; Grp 1; Txt "</a>"] s in
    let s := replaceAll (reHeading "-") [Txt "<ul><li>"; Grp 1; Txt "</li></ul>"] s in
    let s := replaceAll ([One (CChar LF)] ++ lit "<ul>") [Txt "</li><li>"] s in
    let s := replaceAll (lit "</ul>" ++ [One (CChar LF)] ++ lit "<ul>") [] s in
    let s := replaceAll (lit "</ul>") [] s in
    replaceAll [One (CChar LF)] [Txt "<br>"] s.

(** *** The placeholder element as a string *)

(** The tags of the placeholder element and the element with text [t]. *)
Definition opening : str :=
  js "<div class=" ++ [DQ] ++ js "placeholder" ++ [DQ] ++ js ">".
Definition closing : str := js "</div>".
Definition marker (t : str) : str := opening ++ t ++ closing.

(** A body with two placeholder elements. *)
Definition twoMarkers : str := marker (js "a") ++ marker (js "b").

(** *** The substitutions as lists

    The two converters are chains of [replace] calls; the same chains as
    lists of patterns with their replacements, applied from left to
    right. *)

Definition applyPass (s : str) (p : regex * template) : str :=
  replaceAll (fst p) (snd p) s.

Definition htmlToMarkdownPasses : list (regex * template) :=
  [ (reElement "h1", [Txt "# "; Grp 1; Txt NL]);
    (reElement "h2", [Txt "## "; Grp 1; Txt NL]);
    (reElement "h3", [Txt "### "; Grp 1; Txt NL]);
    (reElement "strong", [Txt "**"; Grp 1; Txt "**"]);
    (reElement "b", [Txt "**"; Grp 1; Txt "**"]);
    (reElement "em", [Txt "*"; Grp 1; Txt "*"]);
    (reElement "i", [Txt "*"; Grp 1; Txt "*"]);
    (reAnchor, [Txt "["; Grp 2; Txt "]("; Grp 1; Txt ")"]);
    (reBare true "ul", [Grp 1]);
    (reBare true "ol", [Grp 1]);
    (reBare false "li", [Txt "- "; Grp 1; Txt NL]);
    (reBare false "p", [Grp 1; Txt NL]);
    (reBr, [Txt NL]);
    (reTag, []);
    (lit "&nbsp;", [Txt " "]);
    (lit "&amp;", [Txt "&"]);
    (lit "&lt;", [Txt "<"]);
    (lit "&gt;", [Txt ">"]) ].

Definition markdownToHtmlPasses : list (regex * template) :=
  [ (reHeading "#", [Txt "<h1>"; Grp 1; Txt "</h1>"]);
    (reHeading "##", [Txt "<h2>"; Grp 1; Txt "</h2>"]);
    (reHeading "###", [Txt "<h3>"; Grp 1; Txt "</h3>"]);
    (reStars "**", [Txt "<strong>"; Grp 1; Txt "</strong>"]);
    (reStars "*", [Txt "<em>"; Grp 1; Txt "</em>"]);
    (reLink, [Txt "<a href="; Txt QUOTE; Grp 2; Txt QUOTE; Txt ">"; Grp 1;
              Txt "</a>"]);
    (reHeading "-", [Txt "<ul><li>"; Grp 1; Txt "</li></ul>"]);
    ([One (CChar LF)] ++ lit "<ul>", [Txt "</li><li>"]);
    (lit "</ul>" ++ [One (CChar LF)] ++ lit "<ul>", []);
    (lit "</ul>", []);
    ([One (CChar LF)], [Txt "<br>"]) ].

(** A pattern of [convertMarkdownToHTML] that cannot match in a one-line
    text that starts with neither [#] nor [-] and holds no star, no
    bracket and no closing list tag: it is anchored at a line start and
    asks for [#] or [-] there, or it starts with a star, a bracket, a line
    feed or the closing list tag. *)
Definition inert (p : regex) : bool :=
  match p with
  | Bol :: One (CChar x) :: _ => N.eqb x (chr "#") || N.eqb x (chr "-")
  | _ => startsWith [chr "*"] (litPrefix p)
         || startsWith [chr "["] (litPrefix p)
         || startsWith [LF] (litPrefix p)
         || startsWith (js "</u") (litPrefix p)
  end.

(** *** Notions for the statements about single elements *)

(** The element [<tag>t</tag>]. *)
Definition element (tag : string) (t : str) : str :=
  js "<" ++ js tag ++ js ">" ++ t ++ js "</" ++ js tag ++ js ">".

(** A character that no pattern of the two converters looks for inside a
    text: no line terminator, [<], [&], [*] or [[]. *)
Definition plainChar (c : char) : bool :=
  negb (isLineTerminator c) && negb (N.eqb c (chr "<"))
  && negb (N.eqb c (chr "&")) && negb (N.eqb c (chr "*"))
  && negb (N.eqb c (chr "[")).

Definition plainText (t : str) : bool := forallb plainChar t.

(** The Markdown marker of a heading of level [k], and its tag. *)
Definition hashes (k : nat) : str := repeat (chr "#") k.

Definition headingTag (k : nat) : string :=
  match k with
  | 1 => "h1"
  | 2 => "h2"
  | _ => "h3"
  end.

(** The anchor [<a href="url"attrs>text</a>], and the one without more
    attributes. *)
Definition anchorWith (attrs url text : str) : str :=
  js "<a href=" ++ [DQ] ++ url ++ [DQ] ++ attrs ++ js ">" ++ text
  ++ js "</a>".

Definition anchor (url text : str) : str := anchorWith [] url text.

(** The Markdown link [[text](url)]. *)
Definition markdownLink (url text : str) : str :=
  js "[" ++ text ++ js "](" ++ url ++ js ")".

(** No complete tag: no [<] with a [>] somewhere after it. *)
Fixpoint hasNoTag (s : str) : bool :=
  match s with
  | [] => true
  | c :: s' =>
      (if N.eqb c (chr "<") then lacks (chr ">") s' else true) && hasNoTag s'
  end.

End Codec.

(* ================================================================== *)
(** ** Word and character counts ([src/app/(drawer)/editor.tsx]) *)
(* ================================================================== *)

Module Projector.

(** [/\s+/] *)
Definition reSpaces : regex := [One CSpace; Many true CSpace].

(** [text.trim() ? text.trim().split(/\s+/).length : 0] *)
Definition words (text : str) : nat :=
  if truthy (trim text) then List.length (split reSpaces (trim text)) else 0.

(** [text.length] *)
Definition chars (text : str) : nat := List.length text.

(** The counts the editor screen shows for an HTML source: the HTML view
    of [RichTextEditor] reports [text.replace(/<[^>]*>/g, '')] as the plain
    text, and [handleContentChange] counts on it. *)
Definition countWords (html : str) : nat := words (Codec.stripTags html).
Definition countChars (html : str) : nat := chars (Codec.stripTags html).

(** *** The count as the specification words it *)

(** The specification's count: the number of maximal non-empty runs of
    characters that are not whitespace.  [inRun] tells whether the
    character before the string belongs to a run. *)
Fixpoint runsFrom (inRun : bool) (s : str) : nat :=
  match s with
  | [] => 0
  | c :: s' =>
      if isWhiteSpace c then runsFrom false s'
      else (if inRun then 0 else 1) + runsFrom true s'
  end.

Definition runs (s : str) : nat := runsFrom false s.

(** The number of maximal runs of whitespace; [inGap] tells whether the
    character before the string is whitespace. *)
Fixpoint gapsFrom (inGap : bool) (s : str) : nat :=
  match s with
  | [] => 0
  | c :: s' =>
      if isWhiteSpace c then (if inGap then 0 else 1) + gapsFrom true s'
      else gapsFrom false s'
  end.

(** Whether a string read from the state [inRun] ends inside a run. *)
Fixpoint endsInRun (inRun : bool) (s : str) : bool :=
  match s with
  | [] => inRun
  | c :: s' => endsInRun (negb (isWhiteSpace c)) s'
  end.

Definition bit (b : bool) : nat := if b then 1 else 0.

End Projector.

(* ================================================================== *)
(** ** The [RichTextEditor] component *)
(* ================================================================== *)

Module Controller.

Import Codec.

Inductive ViewMode : Type := wysiwyg | html | markdown | preview.

Definition ViewMode_eqb (a b : ViewMode) : bool :=
  match a, b with
  | wysiwyg, wysiwyg | html, html | markdown, markdown | preview, preview => true
  | _, _ => false
  end.

(** The component's React state, and whether [webViewRef.current] holds a
    WebView (it does while one is rendered). *)
Record State : Type := mkState {
  webViewRef : bool;
  editorReady : bool;
  content : str;
  viewMode : ViewMode;
  htmlContent : str;
  markdownContent : str;
  lastWysiwygContent : str
}.

(** The scripts the component injects into the WebView. *)
Inductive Script : Type :=
| SetContentJs (escapedHtml : str)  (* window.editorFunctions.setContent(`...`) *)
| PostContentChangeJs  (* posts a contentChange with getContent() and getText() *)
| PostGetContentJs     (* posts a getContentResponse *)
| ClearContentJs.      (* window.editorFunctions.clearContent() *)

(** What a handler does besides updating the state. *)
Inductive Effect : Type :=
| Inject (j : Script)          (* webViewRef.current.injectJavaScript(j) *)
| OnChange (html text : str)   (* props.onChange(html, text) *)
| OnEditorReady.               (* props.onEditorReady() *)

(** [webViewRef.current?.injectJavaScript(j)] *)
Definition inject (s : State) (j : Script) : list Effect :=
  if webViewRef s then [Inject j] else [].

(** The escaping applied before a string is spliced into a template
    literal: a backslash before each backquote, then before each dollar. *)
Definition escapeTemplate (h : str) : str :=
  replaceAll [One (CChar (chr "$"))] [Txt "\$"]
    (replaceAll [One (CChar (chr "`"))] [Txt "\`"] h).

(** The [useState] initialisers; an absent [initialContent] is [''] and an
    absent [viewMode] is ['wysiwyg']. *)
Definition init (initialContent : str) (mode : ViewMode) : State :=
  {| webViewRef := false;
     editorReady := false;
     content := initialContent;
     viewMode := mode;
     htmlContent := initialContent;
     markdownContent := convertHTMLToMarkdown initialContent;
     lastWysiwygContent := initialContent |}.

(** The [useEffect] on [viewMode] and [editorReady]: it runs after a
    render in which one of the two changed. *)
Definition syncEffect (s : State) : list Effect :=
  if ViewMode_eqb (viewMode s) wysiwyg && editorReady s
     && truthy (lastWysiwygContent s)
  then inject s (SetContentJs (escapeTemplate (lastWysiwygContent s)))
  else [].

(** *** The imperative handle *)

Definition setContent (s : State) (h : str) : State * list Effect :=
  ({| webViewRef := webViewRef s;
      editorReady := editorReady s;
      content := h;
      viewMode := viewMode s;
      htmlContent := h;
      markdownContent := convertHTMLToMarkdown h;
      lastWysiwygContent := h |},
   if editorReady s then inject s (SetContentJs (escapeTemplate h)) else []).

(** [getContent]: the promise resolves in the HTML and Markdown views;
    otherwise a request is injected (and nothing resolves the promise). *)
Definition getContent (s : State) : option str * list Effect :=
  match viewMode s with
  | html => (Some (htmlContent s), [])
  | markdown => (Some (convertMarkdownToHTML (markdownContent s)), [])
  | _ => (None, inject s PostGetContentJs)
  end.

Definition clearContent (s : State) : State * list Effect :=
  ({| webViewRef := webViewRef s;
      editorReady := editorReady s;
      content := [];
      viewMode := viewMode s;
      htmlContent := [];
      markdownContent := [];
      lastWysiwygContent := [] |},
   inject s ClearContentJs).

(** *** Messages from the WebView *)

(** [JSON.parse(event.nativeEvent.data)], by [data.type]; anything else,
    unparsable data included, changes nothing. *)
Inductive Message : Type :=
| editorReadyMsg
| contentChange (content text : str)
| otherMsg.

Definition handleWebViewMessage (s : State) (m : Message)
  : State * list Effect :=
  match m with
  | editorReadyMsg =>
      ({| webViewRef := webViewRef s;
          editorReady := true;
          content := content s;
          viewMode := viewMode s;
          htmlContent := htmlContent s;
          markdownContent := markdownContent s;
          lastWysiwygContent := lastWysiwygContent s |},
       OnEditorReady ::
       (if truthy (content s)
        then inject s (SetContentJs (escapeTemplate (content s)))
        else []))
  | contentChange c text =>
      let cleanContent := stripPlaceholder c in
      ({| webViewRef := webViewRef s;
          editorReady := editorReady s;
          content := cleanContent;
          viewMode := viewMode s;
          htmlContent := cleanContent;
          markdownContent := convertHTMLToMarkdown cleanContent;
          lastWysiwygContent := cleanContent |},
       [OnChange cleanContent text])
  | otherMsg => (s, [])
  end.

(** *** The view selector *)

Definition setViewMode (s : State) (last : str) (m : ViewMode) : State :=
  {| webViewRef := webViewRef s;
     editorReady := editorReady s;
     content := content s;
     viewMode := m;
     htmlContent := htmlContent s;
     markdownContent := markdownContent s;
     lastWysiwygContent := last |}.

Definition handleViewModeChange (s : State) (newViewMode : ViewMode)
  : State * list Effect :=
  match viewMode s, newViewMode with
  | wysiwyg, (html | markdown | preview) =>
      (setViewMode s (lastWysiwygContent s) newViewMode,
       inject s PostContentChangeJs)
  | html, wysiwyg =>
      (setViewMode s (htmlContent s) newViewMode,
       inject s (SetContentJs (escapeTemplate (htmlContent s))))
  | markdown, wysiwyg =>
      let htmlFromMarkdown := convertMarkdownToHTML (markdownContent s) in
      (setViewMode s htmlFromMarkdown newViewMode,
       inject s (SetContentJs (escapeTemplate htmlFromMarkdown)))
  | _, _ => (setViewMode s (lastWysiwygContent s) newViewMode, [])
  end.

(** *** The source views *)

(** [onChangeText] of the HTML view. *)
Definition onChangeHtml (s : State) (text : str) : State * list Effect :=
  ({| webViewRef := webViewRef s;
      editorReady := editorReady s;
      content := text;
      viewMode := viewMode s;
      htmlContent := text;
      markdownContent := markdownContent s;
      lastWysiwygContent := lastWysiwygContent s |},
   [OnChange text (stripTags text)]).

(** [onChangeText] of the Markdown view. *)
Definition onChangeMarkdown (s : State) (text : str) : State * list Effect :=
  let h := convertMarkdownToHTML text in
  ({| webViewRef := webViewRef s;
      editorReady := editorReady s;
      content := h;
      viewMode := viewMode s;
      htmlContent := htmlContent s;
      markdownContent := text;
      lastWysiwygContent := lastWysiwygContent s |},
   [OnChange h text]).

(** What the active view displays from the state: the [value] of the HTML
    or Markdown input, the source of the preview; the rich view displays
    the WebView's own buffer. *)
Definition shown (s : State) : option str :=
  match viewMode s with
  | wysiwyg => None
  | html => Some (htmlContent s)
  | markdown | preview => Some (markdownContent s)
  end.

(** *** Rendering

    After a handler the component renders again: the WebView element is
    present in the rich view only, so the ref is attached there and
    cleared elsewhere; then the effect runs if [viewMode] or [editorReady]
    changed. *)
Definition commit (s : State) : State :=
  {| webViewRef := ViewMode_eqb (viewMode s) wysiwyg;
     editorReady := editorReady s;
     content := content s;
     viewMode := viewMode s;
     htmlContent := htmlContent s;
     markdownContent := markdownContent s;
     lastWysiwygContent := lastWysiwygContent s |}.

(** The component once mounted: the first render attaches the ref in the
    rich view (the effect of the first render finds [editorReady] false
    and does nothing). *)
Definition mount (initialContent : str) (mode : ViewMode) : State :=
  commit (init initialContent mode).

Inductive Event : Type :=
| Press (m : ViewMode)
| Receive (m : Message)
| TypeHtml (text : str)
| TypeMarkdown (text : str)
| CallSetContent (h : str)
| CallClearContent.

Definition handle (s : State) (e : Event) : State * list Effect :=
  match e with
  | Press m => handleViewModeChange s m
  | Receive m => handleWebViewMessage s m
  | TypeHtml t => onChangeHtml s t
  | TypeMarkdown t => onChangeMarkdown s t
  | CallSetContent h => setContent s h
  | CallClearContent => clearContent s
  end.

Definition depsChanged (s s' : State) : bool :=
  negb (ViewMode_eqb (viewMode s) (viewMode s'))
  || negb (Bool.eqb (editorReady s) (editorReady s')).

Definition step (s : State) (e : Event) : State * list Effect :=
  let (s1, eff) := handle s e in
  let s2 := commit s1 in
  (s2, eff ++ (if depsChanged s s2 then syncEffect s2 else [])).

Fixpoint run (s : State) (es : list Event) : State * list Effect :=
  match es with
  | [] => (s, [])
  | e :: es' =>
      let (s1, eff1) := step s e in
      let (s2, eff2) := run s1 es' in
      (s2, eff1 ++ eff2)
  end.

(** *** Notions for the statements about view switches *)

(** The canonical content, the HTML buffer, the Markdown buffer and the
    readiness flag of [s'] are those of [s]. *)
Definition sameBuffers (s s' : State) : Prop :=
  content s' = content s
  /\ htmlContent s' = htmlContent s
  /\ markdownContent s' = markdownContent s
  /\ editorReady s' = editorReady s.

(** All four buffers are empty. *)
Definition cleared (s : State) : Prop :=
  content s = [] /\ htmlContent s = [] /\ markdownContent s = []
  /\ lastWysiwygContent s = [].


(** *** States the component reaches *)

(** A state the component reaches: the page is ready, the user opens the
    Markdown view on the body [<p>a</p>] (the flush reply arrives), and
    edits nothing. *)
Definition markdownViewOnParagraph : State :=
  fst (run (mount [] wysiwyg)
           [Receive editorReadyMsg;
            CallSetContent (js "<p>a</p>");
            Press markdown;
            Receive (contentChange (js "<p>a</p>") (js "a"))]).


(** A state the component reaches: a ready page showing the body [x]. *)
Definition readyWithBody : State :=
  fst (run (mount [] wysiwyg)
           [Receive editorReadyMsg;
            CallSetContent (js "x");
            Receive (contentChange (js "x") (js "x"))]).

(** A state of the component in the rich view, its page loaded and the
    body [<p>x</p>] typed. *)
Definition readyTyped : State :=
  fst (run (mount [] wysiwyg)
           [Receive editorReadyMsg;
            Receive (contentChange (js "<p>x</p>") (js "x"))]).

(** *** Notions for the statements about runs *)

(** A call through the imperative handle. *)
Definition isCall (e : Event) : bool :=
  match e with
  | CallSetContent _ | CallClearContent => true
  | _ => false
  end.

(** The canonical content is the HTML cache, or the HTML form of the
    Markdown cache. *)
Definition backedByCache (s : State) : Prop :=
  content s = htmlContent s
  \/ content s = convertMarkdownToHTML (markdownContent s).

End Controller.

(* ================================================================== *)
(** ** The earlier copy of the component ([src/unnamed/part_003])

    The repository keeps an earlier version of [RichTextEditor], which
    the editor screen does not import.  It has no [lastWysiwygContent],
    its view buttons call [setViewMode] directly, its
    [convertHTMLToMarkdown] neither strips the placeholder nor trims, and
    its message handler stores the reported HTML as it is. *)
(* ================================================================== *)

Module EarlierCopy.

Import Codec.

Record State : Type := mkState {
  webViewRef : bool;
  editorReady : bool;
  content : str;
  viewMode : Controller.ViewMode;
  htmlContent : str;
  markdownContent : str
}.

Definition convertHTMLToMarkdown (h : str) : str := toMarkdownSubstitutions h.

(** [initialContent] is the prop of that name, spliced unescaped. *)
Definition handleWebViewMessage (initialContent : str) (s : State)
           (m : Controller.Message) : State * list Controller.Effect :=
  match m with
  | Controller.editorReadyMsg =>
      ({| webViewRef := webViewRef s;
          editorReady := true;
          content := content s;
          viewMode := viewMode s;
          htmlContent := htmlContent s;
          markdownContent := markdownContent s |},
       Controller.OnEditorReady ::
       (if truthy initialContent && webViewRef s
        then [Controller.Inject (Controller.SetContentJs initialContent)]
        else []))
  | Controller.contentChange c text =>
      ({| webViewRef := webViewRef s;
          editorReady := editorReady s;
          content := c;
          viewMode := viewMode s;
          htmlContent := c;
          markdownContent := convertHTMLToMarkdown c |},
       [Controller.OnChange c text])
  | Controller.otherMsg => (s, [])
  end.

End EarlierCopy.

(* ================================================================== *)
(** ** The page inside the WebView

    The script of [editorHTML] and the evaluation of the scripts the
    component injects.  The browser is taken to keep the markup it is
    given ([innerHTML] reads back what was assigned); the rendered text
    [innerText] is a parameter. *)
(* ================================================================== *)

Module Host.

Import Codec Controller.

(** *** Template literals

    An injected [setContent] call carries its argument between backquotes:
    the page receives the value of that template literal, not its source
    text.  [cook] computes the value of a literal without substitutions
    from its source text; it is [None] when the text is not one (a bare
    backquote, a substitution, an escape that is a syntax error) and for
    the escape [\u{...}], which is left out. *)

Inductive mode : Type :=
| Plain                      (* between characters *)
| Esc                        (* after a backslash *)
| Dollar                     (* after a dollar *)
| Cr                         (* after a carriage return *)
| EscCr                      (* after a backslash and a carriage return *)
| Zero                       (* after a backslash and 0 *)
| Hex (n : nat) (acc : N).   (* n hexadecimal digits to come *)

Open Scope N_scope.

Definition isDigit (c : char) : bool := (48 <=? c) && (c <=? 57).

Definition hexValue (c : char) : option N :=
  if (48 <=? c) && (c <=? 57) then Some (c - 48)
  else if (65 <=? c) && (c <=? 70) then Some (c - 55)
  else if (97 <=? c) && (c <=? 102) then Some (c - 87)
  else None.

(** A character read between characters. *)
Definition plain (c : char) : option (str * mode) :=
  if c =? chr "\" then Some ([], Esc)
  else if c =? chr "`" then None
  else if c =? chr "$" then Some ([], Dollar)
  else if c =? 13 then Some ([], Cr)
  else Some ([c], Plain).

Definition emit (x : char) (r : option (str * mode)) : option (str * mode) :=
  match r with
  | Some (out, m) => Some (x :: out, m)
  | None => None
  end.

(** A character read after a backslash. *)
Definition escaped (c : char) : option (str * mode) :=
  if c =? chr "n" then Some ([10], Plain)
  else if c =? chr "t" then Some ([9], Plain)
  else if c =? chr "r" then Some ([13], Plain)
  else if c =? chr "b" then Some ([8], Plain)
  else if c =? chr "f" then Some ([12], Plain)
  else if c =? chr "v" then Some ([11], Plain)
  else if c =? chr "0" then Some ([], Zero)
  else if isDigit c then None
  else if c =? chr "x" then Some ([], Hex 2 0)
  else if c =? chr "u" then Some ([], Hex 4 0)
  else if c =? 13 then Some ([], EscCr)
  else if isLineTerminator c then Some ([], Plain)
  else Some ([c], Plain).

Definition cookStep (m : mode) (c : char) : option (str * mode) :=
  match m with
  | Plain => plain c
  | Esc => escaped c
  | Dollar => if c =? chr "{" then None else emit (chr "$") (plain c)
  | Cr => if c =? 10 then Some ([10], Plain) else emit 10 (plain c)
  | EscCr => if c =? 10 then Some ([], Plain) else plain c
  | Zero => if isDigit c then None else emit 0 (plain c)
  | Hex n acc =>
      match hexValue c with
      | None => None
      | Some v =>
          match n with
          | S (S k) => Some ([], Hex (S k) (16 * acc + v))
          | _ => Some ([16 * acc + v], Plain)
          end
      end
  end.

Definition cookEnd (m : mode) : option str :=
  match m with
  | Plain | EscCr => Some []
  | Dollar => Some [chr "$"]
  | Cr => Some [10]
  | Zero => Some [0]
  | Esc | Hex _ _ => None
  end.

Close Scope N_scope.

Fixpoint cookFrom (m : mode) (r : str) : option str :=
  match r with
  | [] => cookEnd m
  | c :: r' =>
      match cookStep m c with
      | None => None
      | Some (out, m') =>
          match cookFrom m' r' with
          | Some v => Some (out ++ v)
          | None => None
          end
      end
  end.

Definition cook (raw : str) : option str := cookFrom Plain raw.

(** *** The script of the page *)

Record Page : Type := mkPage {
  innerHTML : str;     (* document.getElementById('editor').innerHTML *)
  isContentSet : bool
}.

Section Script.

(** The text passed to [setPlaceholder], and the browser's rendering of
    markup as text. *)
Variable placeholder : str.
Variable innerText : str -> str.

Definition setPlaceholder (p : Page) : Page :=
  if negb (truthy (trim (innerHTML p))) && negb (isContentSet p)
  then {| innerHTML := marker placeholder;
          isContentSet := isContentSet p |}
  else p.

(** [updateContent]: the message it posts. *)
Definition updateContent (p : Page) : Message :=
  contentChange (innerHTML p) (innerText (innerHTML p)).

(** The page once loaded: [init] has set the placeholder (and posts the
    ready message). *)
Definition load : Page :=
  setPlaceholder {| innerHTML := []; isContentSet := false |}.

Definition setContent (h : str) (p : Page) : Page * list Message :=
  let p' :=
    if truthy h && truthy (trim h)
    then {| innerHTML := h; isContentSet := true |}
    else setPlaceholder p in
  (p', [updateContent p']).

Definition getContent (p : Page) : str := innerHTML p.

Definition clearContent (p : Page) : Page * list Message :=
  let p' := setPlaceholder {| innerHTML := []; isContentSet := false |} in
  (p', [updateContent p']).

(** The [focus] listener. *)
Definition focus (p : Page) : Page :=
  match indexOf (js "placeholder") (innerHTML p) with
  | Some _ => {| innerHTML := []; isContentSet := true |}
  | None => p
  end.

(** The [input] listener, after the user has changed the buffer to [h]. *)
Definition input (h : str) (p : Page) : Page * list Message :=
  let p' := {| innerHTML := h; isContentSet := isContentSet p |} in
  (p', [updateContent p']).

(** An injected script runs in the page; [None] when its template literal
    has no value in [cook]. *)
Definition evalScript (j : Script) (p : Page) : option (Page * list Message) :=
  match j with
  | SetContentJs raw =>
      match cook raw with
      | Some h => Some (setContent h p)
      | None => None
      end
  | PostContentChangeJs => Some (p, [updateContent p])
  | PostGetContentJs => Some (p, [otherMsg])
  | ClearContentJs => Some (clearContent p)
  end.

(** The page runs the scripts among the effects, in order, and collects
    the messages it posts; a script without a value stops nothing else. *)
Fixpoint deliver (eff : list Effect) (p : Page) : Page * list Message :=
  match eff with
  | [] => (p, [])
  | Inject j :: eff' =>
      match evalScript j p with
      | Some (p1, ms) =>
          let (p2, ms') := deliver eff' p1 in (p2, ms ++ ms')
      | None => deliver eff' p
      end
  | _ :: eff' => deliver eff' p
  end.

(** One event of the component with the page attached: the component
    handles it, the page runs what was injected, and the component handles
    the messages the page posted. *)
Definition exchange (s : State) (p : Page) (e : Event)
  : State * Page * list Effect :=
  let (s1, eff) := step s e in
  let (p1, ms) := deliver eff p in
  let (s2, eff2) := run s1 (map Receive ms) in
  (s2, p1, eff ++ eff2).

(** A WebView has been mounted: its page loads and reports itself. *)
Definition loaded (s : State) : State * Page * list Effect :=
  exchange s load (Receive editorReadyMsg).

(** The user changes the buffer of the page to [h]. *)
Definition typed (h : str) (s : State) (p : Page)
  : State * Page * list Effect :=
  let (p1, ms) := input h p in
  let (s1, eff) := run s (map Receive ms) in
  (s1, p1, eff).

(** The [blur] listener. *)
Definition blur (p : Page) : Page * list Message := (p, [updateContent p]).

(** The editor gains the focus and loses it again: the two listeners run,
    and the component handles the report. *)
Definition visited (s : State) (p : Page) : State * Page * list Effect :=
  let (p1, ms) := blur (focus p) in
  let (s1, eff) := run s (map Receive ms) in
  (s1, p1, eff).

End Script.

(** *** Notions for the statements about the escaping *)

(** What [escapeTemplate] writes for one character. *)
Definition escapeChar (c : char) : str :=
  if N.eqb c (chr "`") then js "\`"
  else if N.eqb c (chr "$") then js "\$"
  else [c].

(** No backslash and no carriage return. *)
Definition mild (c : char) : bool :=
  negb (N.eqb c (chr "\")) && negb (N.eqb c 13%N).

(** *** The markup the page inserts

    [insertImage] and [createLink] check the address, build markup and
    pass it to [insertHTML], which puts it at the caret (an operation of
    the browser); [insertTable] builds its markup in two loops.  What
    follows is the checks and the markup. *)

Inductive Insertion : Type :=
| Rejected                   (* the function returns at once *)
| InsertHTML (html : str)    (* this.insertHTML(html) *)
| LinkSelection (url : str). (* document.execCommand('createLink', false, url) *)

Definition imgHTML (url alt : str) : str :=
  js "<img src=" ++ [DQ] ++ url ++ [DQ] ++ js " alt=" ++ [DQ] ++ alt ++ [DQ]
  ++ js " style=" ++ [DQ]
  ++ js "max-width:100%; height:auto; border-radius:6px; margin:8px 0;"
  ++ [DQ] ++ js " />".

(** [insertImage(url, alt)] *)
Definition insertImage (url alt : str) : Insertion :=
  if negb (truthy url) || negb (truthy (trim url)) then Rejected
  else InsertHTML (imgHTML url alt).

(** The attributes [createLink] gives to every link. *)
Definition linkAttributes : str :=
  js " target=" ++ [DQ] ++ js "_blank" ++ [DQ] ++ js " style=" ++ [DQ]
  ++ js "color: #007AFF; text-decoration: none;" ++ [DQ].

Definition linkHTML (url text : str) : str :=
  js "<a href=" ++ [DQ] ++ url ++ [DQ] ++ linkAttributes ++ js ">" ++ text
  ++ js "</a>".

(** [createLink(url, text)]; [None] is [null].  Two strings are equal
    when each starts with the other. *)
Definition createLink (url : str) (text : option str) : Insertion :=
  if negb (truthy url) || negb (truthy (trim url)) then Rejected
  else
    match text with
    | Some t =>
        if truthy t
           && negb (startsWith t (js "null") && startsWith (js "null") t)
        then InsertHTML (linkHTML url t)
        else LinkSelection url
    | None => LinkSelection url
    end.

(** [insertTable(rows, cols)]: the two loops append to [tableHTML]; the
    counts are the numbers of times their bodies run. *)
Definition tableOpen : str :=
  js "<table style=" ++ [DQ]
  ++ js "width: 100%; border-collapse: collapse; margin: 12px 0; border: 1px solid #e0e0e0;"
  ++ [DQ] ++ js ">".

Definition cellHTML : str :=
  js "<td style=" ++ [DQ] ++ js "border: 1px solid #e0e0e0; padding: 8px;"
  ++ [DQ] ++ js ">&nbsp;</td>".

Fixpoint cellsLoop (cols : nat) (tableHTML : str) : str :=
  match cols with
  | S j => cellsLoop j (tableHTML ++ cellHTML)
  | O => tableHTML
  end.

Fixpoint rowsLoop (rows cols : nat) (tableHTML : str) : str :=
  match rows with
  | S i =>
      rowsLoop i cols (cellsLoop cols (tableHTML ++ js "<tr>") ++ js "</tr>")
  | O => tableHTML
  end.

Definition tableHTML (rows cols : nat) : str :=
  rowsLoop rows cols tableOpen ++ js "</table>".

Definition insertTable (rows cols : nat) : Insertion :=
  InsertHTML (tableHTML rows cols).

(** One row as a string. *)
Definition rowHTML (cols : nat) : str :=
  js "<tr>" ++ List.concat (repeat cellHTML cols) ++ js "</tr>".

(** The character after [<] in the tags of a table. *)
Definition inTableTag (c : char) : bool :=
  N.eqb c (chr "t") || N.eqb c (chr "/").

(** The text of the cells: [n] times the entity of the blank. *)
Definition blanks (n : nat) : str := List.concat (repeat (js "&nbsp;") n).

End Host.

(* ================================================================== *)
(** ** The insertion calls of the imperative handle

    [insertImage], [createLink] and [insertCode] of the component splice
    their string arguments between single quotes into the script they
    inject; the page's function receives the values of these string
    literals.  ([formatText] escapes its arguments like [insertCode]; the
    page's [formatText] acts through [document.execCommand] only.) *)
(* ================================================================== *)

Module Insertion.

Import Codec Controller.

(** [s.replace(/'/g, "\\'")]: a backslash before each single quote. *)
Definition escapeQuote (s : str) : str :=
  replaceAll [One (CChar (chr "'"))] [Txt "\'"] s.

(** The same, and then [.replace(/\n/g, "\\n")]: each line feed becomes
    a backslash and the letter n. *)
Definition escapeQuoteNewline (s : str) : str :=
  replaceAll [One (CChar LF)] [Txt "\n"] (escapeQuote s).

(** An optional argument: [value ? escape(value) : null], spliced as
    [escaped ? `'${escaped}'` : 'null'].  [None] is the word [null]. *)
Definition optionalArgument (escape : str -> str) (value : option str)
  : option str :=
  match value with
  | Some v =>
      if truthy v then
        if truthy (escape v) then Some (escape v) else None
      else None
  | None => None
  end.

(** The call an injected script makes; each string is the source text
    between the quotes of an argument. *)
Inductive Call : Type :=
| InsertImageJs (url alt : str)
| CreateLinkJs (url : str) (text : option str)
| InsertCodeJs (language : str).

Definition insertImage (url alt : str) : Call :=
  InsertImageJs (escapeQuoteNewline url) (escapeQuoteNewline alt).

Definition createLink (url : str) (text : option str) : Call :=
  CreateLinkJs (escapeQuoteNewline url)
               (optionalArgument escapeQuoteNewline text).

Definition insertCode (language : str) : Call :=
  InsertCodeJs (escapeQuote language).

(** *** String literals

    [quoted] computes the value of a single-quoted string literal from the
    text between its quotes; it is [None] when the text is not one (a bare
    quote, a line feed or carriage return, a backslash at the end, an
    escape that is an error) and for the escapes that are left out:
    [\u{...}] and the octal escapes. *)

Open Scope N_scope.

Definition plainQuoted (c : char) : option (str * Host.mode) :=
  if c =? chr "\" then Some ([], Host.Esc)
  else if c =? chr "'" then None
  else if (c =? 10) || (c =? 13) then None
  else Some ([c], Host.Plain).

Definition quotedStep (m : Host.mode) (c : char) : option (str * Host.mode) :=
  match m with
  | Host.Plain => plainQuoted c
  | Host.Esc => Host.escaped c
  | Host.EscCr => if c =? 10 then Some ([], Host.Plain) else plainQuoted c
  | Host.Zero => if Host.isDigit c then None else Host.emit 0 (plainQuoted c)
  | Host.Hex n acc => Host.cookStep (Host.Hex n acc) c
  | Host.Dollar | Host.Cr => None
  end.

Definition quotedEnd (m : Host.mode) : option str :=
  match m with
  | Host.Plain | Host.EscCr => Some []
  | Host.Zero => Some [0]
  | _ => None
  end.

Close Scope N_scope.

Fixpoint quotedFrom (m : Host.mode) (r : str) : option str :=
  match r with
  | [] => quotedEnd m
  | c :: r' =>
      match quotedStep m c with
      | None => None
      | Some (out, m') =>
          match quotedFrom m' r' with
          | Some v => Some (out ++ v)
          | None => None
          end
      end
  end.

Definition quoted (raw : str) : option str := quotedFrom Host.Plain raw.

(** An optional argument: the word [null], or a literal. *)
Definition optionalValue (raw : option str) : option (option str) :=
  match raw with
  | None => Some None
  | Some r =>
      match quoted r with
      | Some v => Some (Some v)
      | None => None
      end
  end.

(** The markup of [insertCode]: a code block with three lines of sample
    code. *)
Definition codeHTML (language : str) : str :=
  js "<pre class=" ++ [DQ] ++ js "code-block" ++ [DQ] ++ js "><code class="
  ++ [DQ] ++ js "language-" ++ language ++ [DQ] ++ js ">// Your "
  ++ language ++ js " code here" ++ [LF] ++ js "function example() {"
  ++ [LF] ++ js "  return " ++ [DQ] ++ js "Hello World" ++ [DQ] ++ js ";"
  ++ [LF] ++ js "}</code></pre>".

(** The page runs the call: what its function does with the values of
    the arguments; [None] when an argument has no value (the script does
    not run). *)
Definition evalCall (c : Call) : option Host.Insertion :=
  match c with
  | InsertImageJs rawUrl rawAlt =>
      match quoted rawUrl, quoted rawAlt with
      | Some url, Some alt => Some (Host.insertImage url alt)
      | _, _ => None
      end
  | CreateLinkJs rawUrl rawText =>
      match quoted rawUrl, optionalValue rawText with
      | Some url, Some text => Some (Host.createLink url text)
      | _, _ => None
      end
  | InsertCodeJs rawLanguage =>
      match quoted rawLanguage with
      | Some language => Some (Host.InsertHTML (codeHTML language))
      | None => None
      end
  end.

(** *** Notions for the statements about the escaping *)

(** What [escapeQuoteNewline] writes for one character. *)
Definition escapeQuoteChar (c : char) : str :=
  if N.eqb c (chr "'") then js "\'"
  else if N.eqb c LF then js "\n"
  else [c].

(** The sample code of [insertCode] without its markup. *)
Definition codeText (language : str) : str :=
  js "// Your " ++ language ++ js " code here" ++ [LF]
  ++ js "function example() {" ++ [LF] ++ js "  return " ++ [DQ]
  ++ js "Hello World" ++ [DQ] ++ js ";" ++ [LF] ++ js "}".

(** The sample code with [<br>] between its lines. *)
Definition codeBreaks (language : str) : str :=
  js "// Your " ++ language ++ js " code here<br>function example() {<br>  return "
  ++ [DQ] ++ js "Hello World" ++ [DQ] ++ js ";<br>}".

(** No backslash, and no line terminator other than the line feed. *)
Definition calm (c : char) : bool :=
  negb (N.eqb c (chr "\"))
  && (negb (isLineTerminator c) || N.eqb c LF).

End Insertion.

(* ================================================================== *)
(** ** Dates *)
(* ================================================================== *)

Module Date.

Open Scope Z_scope.

(** The decimal digits of [n], [w] of them, most significant first. *)
Fixpoint pad (w : nat) (n : Z) : str :=
  match w with
  | O => []
  | S w' => pad w' (n / 10) ++ [Z.to_N (48 + n mod 10)]
  end.

(** The proleptic Gregorian date (year, month, day) of a day number
    counted from 1970-01-01. *)
Definition civilFromDays (z : Z) : Z * Z * Z :=
  let z := z + 719468 in
  let era := z / 146097 in
  let doe := z - era * 146097 in
  let yoe := (doe - doe / 1460 + doe / 36524 - doe / 146096) / 365 in
  let doy := doe - (365 * yoe + yoe / 4 - yoe / 100) in
  let mp := (5 * doy + 2) / 153 in
  let d := doy - (153 * mp + 2) / 5 + 1 in
  let m := if mp <? 10 then mp + 3 else mp - 9 in
  let y := yoe + era * 400 in
  (if m <=? 2 then y + 1 else y, m, d).

(** Four digits for the years 0 to 9999, a sign and six digits otherwise. *)
Definition isoYear (y : Z) : str :=
  if (0 <=? y) && (y <=? 9999) then pad 4 y
  else (if y <? 0 then js "-" else js "+") ++ pad 6 (Z.abs y).

(** [new Date(t).toISOString()] for a time value [t], in milliseconds
    since the epoch: [YYYY-MM-DDTHH:mm:ss.sssZ]. *)
Definition toISOString (t : Z) : str :=
  let day := t / 86400000 in
  let ms := t mod 86400000 in
  let '(y, m, d) := civilFromDays day in
  isoYear y ++ js "-" ++ pad 2 m ++ js "-" ++ pad 2 d ++ js "T"
  ++ pad 2 (ms / 3600000) ++ js ":" ++ pad 2 (ms / 60000 mod 60) ++ js ":"
  ++ pad 2 (ms / 1000 mod 60) ++ js "." ++ pad 3 (ms mod 1000) ++ js "Z".

(** [t.toString()] for an integral time value. *)
Definition toString (t : Z) : str :=
  js (DecimalString.NilZero.string_of_int (Z.to_int t)).

Close Scope Z_scope.


End Date.

(* ================================================================== *)
(** ** Documents and their storage *)
(* ================================================================== *)

Module Storage.

Inductive DocMode : Type := code | wysiwygMode.

(** The [Document] interface; an optional field is an [option]. *)
Record Document : Type := mkDocument {
  id : str;
  title : str;
  content : str;
  lastModified : str;
  createdAt : str;
  category : option str;
  language : option str;
  mode : option DocMode
}.

(** [AsyncStorage]: string keys; a value is the JSON text of a document or
    of a list of ids, kept here as the value it parses back to. *)
Inductive Value : Type :=
| DocumentJson (d : Document)
| IdsJson (ids : list str).

Definition AsyncStorage := list (str * Value).

Fixpoint eqbStr (a b : str) : bool :=
  match a, b with
  | [], [] => true
  | x :: a', y :: b' => N.eqb x y && eqbStr a' b'
  | _, _ => false
  end.

Fixpoint getItem (key : str) (st : AsyncStorage) : option Value :=
  match st with
  | [] => None
  | (k, v) :: st' => if eqbStr k key then Some v else getItem key st'
  end.

Definition setItem (key : str) (v : Value) (st : AsyncStorage) : AsyncStorage :=
  (key, v) :: filter (fun e => negb (eqbStr (fst e) key)) st.

Definition DOCUMENT_PREFIX : str := js "document_".

Definition documentKey (i : str) : str := DOCUMENT_PREFIX ++ i.

(** [getRecentDocumentsList] *)
Definition getRecentDocumentsList (st : AsyncStorage) : list str :=
  match getItem (js "recent_documents") st with
  | Some (IdsJson ids) => ids
  | _ => []
  end.

(** [updateRecentDocuments] *)
Definition updateRecentDocuments (documentId : str) (st : AsyncStorage)
  : AsyncStorage :=
  let recentDocs := getRecentDocumentsList st in
  let updatedRecent :=
    firstn 10 (documentId
               :: filter (fun i => negb (eqbStr i documentId)) recentDocs) in
  setItem (js "recent_documents") (IdsJson updatedRecent) st.

(** [DocumentService.saveDocument]; [tMod] and [tCre] are the readings of
    the clock by the two [new Date()], in that order.  The storage accepts
    every write (a rejected write persists nothing and throws). *)
Definition saveDocument (tMod tCre : Z) (document : Document)
           (st : AsyncStorage) : Document * AsyncStorage :=
  let documentToSave :=
    {| id := id document;
       title := title document;
       content := content document;
       lastModified := Date.toISOString tMod;
       createdAt := orElse (createdAt document) (Date.toISOString tCre);
       category := category document;
       language := language document;
       mode := mode document |} in
  let st1 := setItem (documentKey (id document)) (DocumentJson documentToSave) st in
  (documentToSave, updateRecentDocuments (id document) st1).

(** [getDocument] *)
Definition getDocument (i : str) (st : AsyncStorage) : option Document :=
  match getItem (documentKey i) st with
  | Some (DocumentJson d) => Some d
  | _ => None
  end.


(** [AsyncStorage.removeItem] *)
Definition removeItem (key : str) (st : AsyncStorage) : AsyncStorage :=
  filter (fun e => negb (eqbStr (fst e) key)) st.

(** [removeFromRecentDocuments] *)
Definition removeFromRecentDocuments (documentId : str) (st : AsyncStorage)
  : AsyncStorage :=
  let recentDocs := getRecentDocumentsList st in
  let updatedRecent :=
    filter (fun i => negb (eqbStr i documentId)) recentDocs in
  setItem (js "recent_documents") (IdsJson updatedRecent) st.

(** [deleteDocument]; the storage accepts every write, so the result is
    [true]. *)
Definition deleteDocument (i : str) (st : AsyncStorage)
  : bool * AsyncStorage :=
  let st1 := removeItem (documentKey i) st in
  (true, removeFromRecentDocuments i st1).

(** [documentExists] *)
Definition documentExists (i : str) (st : AsyncStorage) : bool :=
  match getDocument i st with
  | Some _ => true
  | None => false
  end.

(** [createNewDocument]; [tId], [tMod] and [tCre] are the readings of the
    clock by [Date.now()] and the two [new Date()], in that order. *)
Definition createNewDocument (tId tMod tCre : Z) : Document :=
  {| id := js "doc_" ++ Date.toString tId;
     title := js "Untitled Document";
     content := [];
     lastModified := Date.toISOString tMod;
     createdAt := Date.toISOString tCre;
     category := Some (js "general");
     language := Some (js "html");
     mode := Some code |}.

(** *** Listing the documents

    [new Date(s).getTime()] is a parameter: [None] stands for [NaN].
    [Array.prototype.sort] is stable, and a comparator that returns [NaN]
    counts as returning 0; [sort] is the stable insertion sort, which is
    what every stable sort computes when the comparator is consistent. *)

Section Listing.

Variable getTime : str -> option Z.

Open Scope Z_scope.

(** [new Date(v.lastModified).getTime()] for a parsed value [v]; a list of
    ids has no such field. *)
Definition stamp (v : Value) : option Z :=
  match v with
  | DocumentJson d => getTime (lastModified d)
  | IdsJson _ => None
  end.

(** The comparator of [getAllDocuments]:
    [new Date(b.lastModified).getTime() - new Date(a.lastModified).getTime()]. *)
Definition newestFirst (a b : Value) : Z :=
  match stamp b, stamp a with
  | Some tb, Some ta => tb - ta
  | _, _ => 0
  end.

Fixpoint insert (cmp : Value -> Value -> Z) (x : Value) (l : list Value)
  : list Value :=
  match l with
  | [] => [x]
  | y :: l' => if cmp x y <=? 0 then x :: l else y :: insert cmp x l'
  end.

Definition sort (cmp : Value -> Value -> Z) (l : list Value) : list Value :=
  fold_right (insert cmp) [] l.

Close Scope Z_scope.

(** [AsyncStorage.getAllKeys] *)
Definition getAllKeys (st : AsyncStorage) : list str := map fst st.

(** [AsyncStorage.multiGet] *)
Definition multiGet (keys : list str) (st : AsyncStorage)
  : list (str * option Value) :=
  map (fun k => (k, getItem k st)) keys.

(** [getAllDocuments]: the values under the keys that start with the
    prefix, parsed, the absent ones dropped, sorted. *)
Definition getAllDocuments (st : AsyncStorage) : list Value :=
  let keys := getAllKeys st in
  let documentKeys := filter (startsWith DOCUMENT_PREFIX) keys in
  match documentKeys with
  | [] => []
  | _ :: _ =>
      let documentsData := multiGet documentKeys st in
      sort newestFirst
           (flat_map (fun kv => match snd kv with
                                | Some v => [v]
                                | None => []
                                end) documentsData)
  end.

(** [getRecentDocument] *)
Definition getRecentDocument (st : AsyncStorage) : option Value :=
  match getAllDocuments st with
  | v :: _ => Some v
  | [] => None
  end.

(** Both values are dated, and [a] is not older than [b]. *)
Definition notOlder (a b : Value) : Prop :=
  exists ta tb, stamp a = Some ta /\ stamp b = Some tb /\ (tb <= ta)%Z.

(** Every value stored under a document key is dated. *)
Definition allDated (st : AsyncStorage) : Prop :=
  forall k v, startsWith DOCUMENT_PREFIX k = true ->
              getItem k st = Some v -> stamp v <> None.

End Listing.

(** The recent list names each document once, holds at most ten ids, and
    every id in it is the id of a stored document. *)
Definition tidy (st : AsyncStorage) : Prop :=
  NoDup (getRecentDocumentsList st)
  /\ List.length (getRecentDocumentsList st) <= 10
  /\ forall i, In i (getRecentDocumentsList st) -> documentExists i st = true.

End Storage.

(* ================================================================== *)
(** ** The editor screen ([src/app/(drawer)/editor.tsx]) *)
(* ================================================================== *)

Module Screen.

Import Storage.

Record State : Type := mkScreen {
  document : option Document;
  content : str;
  title : str;
  hasUnsavedChanges : bool;
  wordCount : nat;
  charCount : nat
}.

Definition handleContentChange (s : State) (html text : str) : State :=
  {| document := document s;
     content := html;
     title := title s;
     hasUnsavedChanges := true;
     wordCount := Projector.words text;
     charCount := Projector.chars text |}.

(** [document?.f || fallback] for a string field [f]. *)
Definition fieldOr (d : option Document) (f : Document -> str) (fallback : str)
  : str :=
  match d with
  | Some x => orElse (f x) fallback
  | None => fallback
  end.

(** [document?.category || 'general'] *)
Definition categoryOr (d : option Document) (fallback : str) : str :=
  match d with
  | Some x => match Storage.category x with
              | Some c => orElse c fallback
              | None => fallback
              end
  | None => fallback
  end.

(** [handleSave]; [tId], [tMod] and [tCre] are the readings of the clock
    by [Date.now()] and the two [new Date()], in that order. *)
Definition handleSave (tId tMod tCre : Z) (s : State) (st : AsyncStorage)
  : State * AsyncStorage :=
  let documentId := fieldOr (document s) Storage.id (Date.toString tId) in
  let documentToSave :=
    {| Storage.id := documentId;
       Storage.title := title s;
       Storage.content := content s;
       lastModified := Date.toISOString tMod;
       createdAt := fieldOr (document s) createdAt (Date.toISOString tCre);
       category := Some (categoryOr (document s) (js "general"));
       language := None;
       mode := None |} in
  ({| document := Some documentToSave;
      content := content s;
      title := title s;
      hasUnsavedChanges := false;
      wordCount := wordCount s;
      charCount := charCount s |},
   setItem (documentKey documentId) (DocumentJson documentToSave) st).

(** The placeholder the editor screen passes to the component. *)
Definition screenPlaceholder : str := js "Start writing your document...".



(** The [useState] initialisers of the screen. *)
Definition init : State :=
  {| document := None;
     content := [];
     title := js "Untitled Document";
     hasUnsavedChanges := false;
     wordCount := 0;
     charCount := 0 |}.

(** [loadDocument]: the new state and, when a record is found, the
    argument of [editorRef.current?.setContent(doc.content)].  (Under a
    document key the application stores documents only.) *)
Definition loadDocument (i : str) (s : State) (st : AsyncStorage)
  : State * option str :=
  match getItem (documentKey i) st with
  | Some (DocumentJson doc) =>
      ({| document := Some doc;
          content := content s;
          title := Storage.title doc;
          hasUnsavedChanges := hasUnsavedChanges s;
          wordCount := wordCount s;
          charCount := charCount s |},
       Some (Storage.content doc))
  | _ => (s, None)
  end.

(** [handleNewDocument]: with unsaved changes an alert asks first, and
    [confirm] tells whether the user chooses [New Document] there.  The
    result is the new state and whether [editorRef.current?.clearContent()]
    is called. *)
Definition handleNewDocument (confirm : bool) (s : State) : State * bool :=
  if hasUnsavedChanges s then
    if confirm then
      ({| document := None;
          content := content s;
          title := js "Untitled Document";
          hasUnsavedChanges := false;
          wordCount := 0;
          charCount := 0 |}, true)
    else (s, false)
  else
    ({| document := None;
        content := content s;
        title := js "Untitled Document";
        hasUnsavedChanges := hasUnsavedChanges s;
        wordCount := 0;
        charCount := 0 |}, true).

(** [confirmLink] on the address tab: the call made through [editorRef],
    if any (a blank address raises an alert instead). *)
Definition confirmLink (linkUrl linkText : str) : option Insertion.Call :=
  if truthy (trim linkUrl) then
    let url := trim linkUrl in
    let text := orElse (trim linkText) url in
    Some (Insertion.createLink url (Some text))
  else None.

(** [confirmImage]: the call made through [editorRef], if any; the
    alternative text is the default of [insertImage]. *)
Definition confirmImage (imageUrl : str) : option Insertion.Call :=
  if truthy imageUrl then Some (Insertion.insertImage imageUrl (js "Image"))
  else None.

End Screen.

(* ================================================================== *)
(** ** The library: what the service and the screen do to the storage *)
(* ================================================================== *)

Module Library.

Import Storage.

Inductive Op : Type :=
| SaveOp (tMod tCre : Z) (d : Document)   (* DocumentService.saveDocument *)
| DeleteOp (i : str)                      (* DocumentService.deleteDocument *)
| ScreenSaveOp (tId tMod tCre : Z) (s : Screen.State).   (* handleSave *)

Definition perform (op : Op) (st : AsyncStorage) : AsyncStorage :=
  match op with
  | SaveOp tMod tCre d => snd (saveDocument tMod tCre d st)
  | DeleteOp i => snd (deleteDocument i st)
  | ScreenSaveOp tId tMod tCre s => snd (Screen.handleSave tId tMod tCre s st)
  end.

Fixpoint performAll (ops : list Op) (st : AsyncStorage) : AsyncStorage :=
  match ops with
  | [] => st
  | op :: ops' => performAll ops' (perform op st)
  end.

End Library.

(* ================================================================== *)
(** ** The editor screen with its editor and the page

    The screen renders [RichTextEditor] with [handleContentChange] as
    [onChange], no [initialContent], no [viewMode] and its own placeholder;
    the calls through [editorRef] are events of the component. *)
(* ================================================================== *)

Module App.

Import Controller.

Record State : Type := mkApp {
  screen : Screen.State;
  editor : Controller.State;
  page : Host.Page
}.

(** The [onChange] calls among the effects reach [handleContentChange],
    in order. *)
Fixpoint feed (eff : list Effect) (scr : Screen.State) : Screen.State :=
  match eff with
  | [] => scr
  | OnChange h t :: eff' => feed eff' (Screen.handleContentChange scr h t)
  | _ :: eff' => feed eff' scr
  end.

(** The component as the screen mounts it. *)
Definition editorAtMount : Controller.State := mount [] wysiwyg.

Section Browser.

Variable innerText : str -> str.

(** An event of the component, the page's answer included. *)
Definition editorEvent (e : Event) (a : State) : State :=
  let '(s', p', eff) :=
    Host.exchange Screen.screenPlaceholder innerText (editor a) (page a) e in
  {| screen := feed eff (screen a); editor := s'; page := p' |}.


(** The user changes the buffer of the page to [h]. *)
Definition pageTyped (h : str) (a : State) : State :=
  let '(s', p', eff) := Host.typed innerText h (editor a) (page a) in
  {| screen := feed eff (screen a); editor := s'; page := p' |}.

(** [handleNewDocument] and the call it makes. *)
Definition newDocument (confirm : bool) (a : State) : State :=
  let (scr, call) := Screen.handleNewDocument confirm (screen a) in
  let a' := {| screen := scr; editor := editor a; page := page a |} in
  if call then editorEvent CallClearContent a' else a'.

(** [loadDocument] and the call it makes. *)
Definition openDocument (i : str) (st : Storage.AsyncStorage) (a : State)
  : State :=
  let (scr, call) := Screen.loadDocument i (screen a) st in
  let a' := {| screen := scr; editor := editor a; page := page a |} in
  match call with
  | Some h => editorEvent (CallSetContent h) a'
  | None => a'
  end.

End Browser.

End App.

(* ================================================================== *)
(** * Properties *)
(* ================================================================== *)

(** ** The codec on concrete documents *)

Section CodecExamples.

Import Codec.

Example heading_round_trip :
  convertMarkdownToHTML (convertHTMLToMarkdown (js "<h2>Title</h2>"))
  = js "<h2>Title</h2>".
Proof. vm_compute. reflexivity. Qed.

Example one_bold_span_round_trip :
  convertMarkdownToHTML (convertHTMLToMarkdown (js "<strong>a</strong>"))
  = js "<strong>a</strong>".
Proof. vm_compute. reflexivity. Qed.

Example bold_then_italic_round_trip :
  convertMarkdownToHTML
    (convertHTMLToMarkdown (js "<strong>a</strong> <em>b</em>"))
  = js "<strong>a</strong> <em>b</em>".
Proof. vm_compute. reflexivity. Qed.

Example link_round_trip :
  let h := js "<a href=" ++ [DQ] ++ js "u" ++ [DQ] ++ js ">t</a>" in
  convertMarkdownToHTML (convertHTMLToMarkdown h) = h.
Proof. vm_compute. reflexivity. Qed.

Example paragraph_to_markdown :
  convertHTMLToMarkdown (js "<p>Hello <strong>World</strong></p>")
  = js "Hello **World**".
Proof. vm_compute. reflexivity. Qed.

Example title_to_html :
  convertMarkdownToHTML (js "# Title") = js "<h1>Title</h1>".
Proof. vm_compute. reflexivity. Qed.

Example two_italic_spans :
  convertMarkdownToHTML (convertHTMLToMarkdown (js "<em>a</em> <em>b</em>"))
  = js "<em>a* *b</em>".
Proof. vm_compute. reflexivity. Qed.

Example single_list_item :
  convertMarkdownToHTML (js "- a") = js "<ul><li>a</li>".
Proof. vm_compute. reflexivity. Qed.

(** C1. Two bold spans on one line do not survive the round trip
    HTML to Markdown to HTML: the greedy group of the bold pattern runs
    from the first marker to the last one, and the italic pattern then
    pairs up the markers left inside. *)
Theorem two_bold_spans_round_trip :
  convertHTMLToMarkdown (js "<strong>a</strong> <strong>b</strong>")
  = js "**a** **b**"
  /\ convertMarkdownToHTML
       (convertHTMLToMarkdown (js "<strong>a</strong> <strong>b</strong>"))
     = js "<strong>a<em>* *</em>b</strong>".
Proof. split; vm_compute; reflexivity. Qed.

(** C5. Two adjacent list lines do not become one well-formed list: the
    item separator is inserted before the closing tags are coalesced, and
    every closing [ul] tag is then removed. *)
Theorem two_list_lines :
  convertMarkdownToHTML (js "- a" ++ [LF] ++ js "- b")
  = js "<ul><li>a</li></li><li><li>b</li>".
Proof. vm_compute. reflexivity. Qed.

End CodecExamples.

(** ** The controller *)

Module ControllerFacts.

Import Codec Controller.

Lemma sameBuffers_refl s : sameBuffers s s.
Proof. repeat split. Qed.

Lemma sameBuffers_trans s1 s2 s3 :
  sameBuffers s1 s2 -> sameBuffers s2 s3 -> sameBuffers s1 s3.
Proof.
  intros (A1 & A2 & A3 & A4) (B1 & B2 & B3 & B4).
  repeat split; congruence.
Qed.

Lemma handleViewModeChange_buffers s m :
  sameBuffers s (fst (handleViewModeChange s m))
  /\ viewMode (fst (handleViewModeChange s m)) = m.
Proof.
  unfold handleViewModeChange.
  destruct (viewMode s), m; simpl; repeat split.
Qed.

Lemma commit_buffers s : sameBuffers s (commit s).
Proof. repeat split. Qed.

Lemma step_press_buffers s m :
  sameBuffers s (fst (step s (Press m)))
  /\ viewMode (fst (step s (Press m))) = m.
Proof.
  unfold step; simpl.
  destruct (handleViewModeChange s m) as [s1 eff] eqn:E; simpl.
  pose proof (handleViewModeChange_buffers s m) as [H1 H2].
  rewrite E in H1, H2; simpl in H1, H2.
  split; [|exact H2].
  eapply sameBuffers_trans; [exact H1 | apply commit_buffers].
Qed.

Lemma run_cons s e es :
  run s (e :: es)
  = (fst (run (fst (step s e)) es),
     snd (step s e) ++ snd (run (fst (step s e)) es)).
Proof.
  simpl. destruct (step s e) as [s1 e1]. simpl.
  destruct (run s1 es) as [s2 e2]. reflexivity.
Qed.

Lemma run_presses_buffers ms :
  forall s, sameBuffers s (fst (run s (map Press ms))).
Proof.
  induction ms as [|m ms IH]; intros s.
  - apply sameBuffers_refl.
  - change (map Press (m :: ms)) with (Press m :: map Press ms).
    rewrite run_cons; simpl.
    eapply sameBuffers_trans; [apply step_press_buffers | apply IH].
Qed.

(** C2, as stated, fails: after Markdown, preview, rich the Markdown buffer
    has been promoted nowhere (the direct switch would have copied its
    HTML form into [lastWysiwygContent]), and what the effect re-injects is
    the old rich content. *)
Lemma preview_detour_promotes_nothing :
  let s := markdownViewOnParagraph in
  let direct := fst (run s [Press wysiwyg]) in
  let detour := run s [Press preview; Press wysiwyg] in
  viewMode s = markdown
  /\ convertMarkdownToHTML (markdownContent s) = js "a"
  /\ lastWysiwygContent direct = js "a"
  /\ content (fst detour) = js "<p>a</p>"
  /\ lastWysiwygContent (fst detour) = js "<p>a</p>"
  /\ snd detour = [Inject (SetContentJs (js "<p>a</p>"))]
  /\ content (fst detour) <> convertMarkdownToHTML (markdownContent s)
  /\ lastWysiwygContent (fst detour)
     <> convertMarkdownToHTML (markdownContent s).
Proof.
  vm_compute. repeat split; try reflexivity; discriminate.
Qed.

(** C2, amended.  A press of a view button never writes the canonical
    body, the HTML buffer or the Markdown buffer, whatever the sequence of
    presses.  Leaving the HTML or Markdown view directly for the rich view
    copies the departed buffer (as it is, resp. through
    [convertMarkdownToHTML]) into [lastWysiwygContent] and injects it once
    into an attached WebView; every other press out of these views and
    every press out of the preview changes the active view and nothing
    else, and entering the preview changes no buffer either.  In the
    rendered component the HTML and Markdown views have no WebView
    attached, and the press of the rich button sends the promoted buffer
    once, through the effect, when the page is ready and the promoted
    string is not empty. *)
Theorem view_switch_promotion :
  (forall ms s, sameBuffers s (fst (run s (map Press ms))))
  /\ (forall s, viewMode s = html ->
        handleViewModeChange s wysiwyg
        = (setViewMode s (htmlContent s) wysiwyg,
           inject s (SetContentJs (escapeTemplate (htmlContent s)))))
  /\ (forall s, viewMode s = markdown ->
        handleViewModeChange s wysiwyg
        = (setViewMode s (convertMarkdownToHTML (markdownContent s)) wysiwyg,
           inject s (SetContentJs
                       (escapeTemplate
                          (convertMarkdownToHTML (markdownContent s))))))
  /\ (forall s m, viewMode s = html \/ viewMode s = markdown ->
        m <> wysiwyg ->
        handleViewModeChange s m
        = (setViewMode s (lastWysiwygContent s) m, []))
  /\ (forall s m, viewMode s = preview ->
        handleViewModeChange s m
        = (setViewMode s (lastWysiwygContent s) m, []))
  /\ (forall s, lastWysiwygContent (fst (handleViewModeChange s preview))
                = lastWysiwygContent s
                /\ sameBuffers s (fst (handleViewModeChange s preview)))
  /\ (forall s, viewMode s = html -> webViewRef s = false ->
        snd (step s (Press wysiwyg))
        = if editorReady s && truthy (htmlContent s)
          then [Inject (SetContentJs (escapeTemplate (htmlContent s)))]
          else [])
  /\ (forall s, viewMode s = markdown -> webViewRef s = false ->
        snd (step s (Press wysiwyg))
        = if editorReady s
             && truthy (convertMarkdownToHTML (markdownContent s))
          then [Inject (SetContentJs
                          (escapeTemplate
                             (convertMarkdownToHTML (markdownContent s))))]
          else []).
Proof.
  split; [exact run_presses_buffers|].
  split; [intros s H; unfold handleViewModeChange; rewrite H; reflexivity|].
  split; [intros s H; unfold handleViewModeChange; rewrite H; reflexivity|].
  split.
  { intros s m [H|H] Hm; unfold handleViewModeChange; rewrite H;
      destruct m; try reflexivity; congruence. }
  split.
  { intros s m H; unfold handleViewModeChange; rewrite H.
    destruct m; reflexivity. }
  split.
  { intros s. split.
    - unfold handleViewModeChange. destruct (viewMode s); reflexivity.
    - apply handleViewModeChange_buffers. }
  split; intros s H R; unfold step, handle, handleViewModeChange, inject;
    rewrite H, R; unfold depsChanged, syncEffect, inject; simpl;
    rewrite H; simpl; destruct (editorReady s); reflexivity.
Qed.




End ControllerFacts.

(** ** Readiness, clearing and the rich-HTML-rich round trip *)

Module SessionFacts.

Import Codec Controller ControllerFacts.

(** C7, as stated, fails: a second ready notification, handled in a state
    that is already ready, injects the content again. *)
Lemma duplicate_ready_sends_again :
  editorReady readyWithBody = true
  /\ handleWebViewMessage readyWithBody editorReadyMsg
     = (readyWithBody, [OnEditorReady; Inject (SetContentJs (js "x"))])
  /\ snd (handleWebViewMessage readyWithBody editorReadyMsg) <> [].
Proof.
  vm_compute. repeat split; discriminate.
Qed.

(** C7, amended.  Every ready notification, the first and any later one,
    makes [handleWebViewMessage] set [editorReady], call [onEditorReady]
    and, when the canonical content is not empty, inject one [setContent]
    of it into the attached WebView; no other field changes, so a content
    set before readiness is flushed by the first notification, and a
    duplicate notification leaves the state as it is and repeats the same
    calls.  In the rendered rich view the first notification also runs
    the effect on [editorReady], which injects the last rich content once
    more; a duplicate runs the handler alone. *)
Theorem ready_notification :
  (forall s,
      let (s', eff) := handleWebViewMessage s editorReadyMsg in
      editorReady s' = true
      /\ content s' = content s /\ htmlContent s' = htmlContent s
      /\ markdownContent s' = markdownContent s
      /\ lastWysiwygContent s' = lastWysiwygContent s
      /\ viewMode s' = viewMode s /\ webViewRef s' = webViewRef s
      /\ eff = OnEditorReady ::
               (if truthy (content s)
                then inject s (SetContentJs (escapeTemplate (content s)))
                else []))
  /\ (forall s,
         let (s1, eff1) := handleWebViewMessage s editorReadyMsg in
         handleWebViewMessage s1 editorReadyMsg = (s1, eff1))
  /\ (forall s h,
         editorReady s = false -> webViewRef s = true -> h <> [] ->
         let (s1, eff1) := setContent s h in
         eff1 = []
         /\ snd (handleWebViewMessage s1 editorReadyMsg)
            = [OnEditorReady; Inject (SetContentJs (escapeTemplate h))])
  /\ (forall s,
         viewMode s = wysiwyg -> webViewRef s = true ->
         snd (step s (Receive editorReadyMsg))
         = OnEditorReady ::
           (if truthy (content s)
            then [Inject (SetContentJs (escapeTemplate (content s)))]
            else [])
           ++ (if negb (editorReady s) && truthy (lastWysiwygContent s)
               then [Inject (SetContentJs
                               (escapeTemplate (lastWysiwygContent s)))]
               else [])).
Proof.
  split; [intros s; simpl; repeat split|].
  split; [intros s; reflexivity|].
  split.
  { intros s h E R Hh. simpl. rewrite E. split; [reflexivity|].
    unfold inject; simpl. rewrite R.
    destruct h; [congruence | reflexivity]. }
  intros s V R.
  unfold step, handle, handleWebViewMessage, depsChanged, syncEffect, inject.
  simpl. rewrite V, R. simpl.
  destruct (editorReady s), (truthy (content s)),
    (truthy (lastWysiwygContent s)); reflexivity.
Qed.

(** [convertMarkdownToHTML] and the escaping map the empty string to
    itself. *)
Lemma convertMarkdownToHTML_empty : convertMarkdownToHTML [] = [].
Proof. reflexivity. Qed.

Lemma escapeTemplate_empty : escapeTemplate [] = [].
Proof. reflexivity. Qed.




(** The component alone on rich, HTML, rich with no edit in between: the
    WebView answers the flush request with its buffer [live], whose
    stripped form is the canonical body (the state the last notification
    left); the body is then the same string after the two presses, it is
    also the HTML buffer and the last rich content, and it is what the
    effect sends back to the WebView.  Without an answer to the flush
    request the two presses leave the body as it is, too. *)
Theorem rich_html_rich_body s live text :
  viewMode s = wysiwyg ->
  content s = stripPlaceholder live ->
  let (s', eff) :=
    run s [Press html; Receive (contentChange live text); Press wysiwyg] in
  content s' = content s
  /\ htmlContent s' = content s
  /\ lastWysiwygContent s' = content s
  /\ viewMode s' = wysiwyg
  /\ eff = inject s PostContentChangeJs
           ++ [OnChange (content s) text]
           ++ (if editorReady s && truthy (content s)
               then [Inject (SetContentJs (escapeTemplate (content s)))]
               else [])
  /\ content (fst (run s [Press html; Press wysiwyg])) = content s.
Proof.
  intros V C.
  unfold run, step, handle, handleViewModeChange, handleWebViewMessage.
  rewrite V. simpl. rewrite <- C.
  unfold depsChanged, syncEffect, inject; simpl.
  rewrite V; simpl.
  repeat split.
  destruct (webViewRef s), (editorReady s), (truthy (content s));
    reflexivity.
Qed.

Lemma rich_html_rich_body_witness :
  viewMode readyWithBody = wysiwyg
  /\ content readyWithBody = stripPlaceholder (js "x")
  /\ content
       (fst (run readyWithBody
                 [Press html; Receive (contentChange (js "x") (js "x"));
                  Press wysiwyg]))
     = js "x".
Proof.
  split; [reflexivity|]. split; [reflexivity|].
  pose proof (@rich_html_rich_body readyWithBody (js "x") (js "x")
                eq_refl eq_refl) as H.
  destruct (run readyWithBody
                [Press html; Receive (contentChange (js "x") (js "x"));
                 Press wysiwyg]) as [s' eff].
  destruct H as [H _]. exact H.
Defined.

End SessionFacts.

(** ** Saving a document *)

Module SaveFacts.

Import Storage Screen.

Lemma eqbStr_eq a : forall b, eqbStr a b = true <-> a = b.
Proof.
  induction a as [|x a IH]; intros [|y b]; simpl; split; intros H;
    try reflexivity; try discriminate.
  - apply andb_true_iff in H as [H1 H2].
    apply N.eqb_eq in H1. apply IH in H2. congruence.
  - injection H as -> ->. rewrite N.eqb_refl. simpl. apply IH. reflexivity.
Qed.

Lemma eqbStr_refl a : eqbStr a a = true.
Proof. apply eqbStr_eq. reflexivity. Qed.

Lemma getItem_setItem key v st : getItem key (setItem key v st) = Some v.
Proof. unfold setItem. simpl. rewrite eqbStr_refl. reflexivity. Qed.

Lemma getItem_filter_other key key' st :
  eqbStr key' key = false ->
  getItem key (filter (fun e => negb (eqbStr (fst e) key')) st)
  = getItem key st.
Proof.
  intros Hne. induction st as [|[k v] st IH]; simpl; [reflexivity|].
  destruct (eqbStr k key') eqn:E; simpl.
  - apply eqbStr_eq in E. subst k. rewrite Hne. exact IH.
  - destruct (eqbStr k key); [reflexivity | exact IH].
Qed.

Lemma getItem_setItem_other key key' v st :
  eqbStr key' key = false ->
  getItem key (setItem key' v st) = getItem key st.
Proof.
  intros Hne. unfold setItem. simpl. rewrite Hne.
  apply getItem_filter_other. exact Hne.
Qed.

(** A document key is never the key of the recent list. *)
Lemma recent_key_apart i :
  eqbStr (js "recent_documents") (documentKey i) = false.
Proof. reflexivity. Qed.

Lemma getDocument_updateRecent i j st :
  getDocument i (updateRecentDocuments j st) = getDocument i st.
Proof.
  unfold getDocument, updateRecentDocuments.
  rewrite getItem_setItem_other by apply recent_key_apart. reflexivity.
Qed.



Lemma orElse_truthy a b : truthy b = true -> truthy (orElse a b) = true.
Proof. unfold orElse. destruct (truthy a) eqn:E; auto. Qed.

Lemma orElse_keeps a b : truthy a = true -> orElse a b = a.
Proof. unfold orElse. intros ->. reflexivity. Qed.









End SaveFacts.

(** ** The matcher on literals and on starred classes *)

Module RegexFacts.

(** Unfolding equations of [exec]. *)
Lemma exec_one k p prev c s pos cs :
  exec (One k :: p) prev (c :: s) pos cs
  = if cmatch k c then exec p (Some c) s (S pos) cs else None.
Proof. reflexivity. Qed.

Lemma exec_many_nil g k p prev pos cs :
  exec (Many g k :: p) prev [] pos cs = exec p prev [] pos cs.
Proof. reflexivity. Qed.

Lemma exec_many_cons g k p prev c s pos cs :
  exec (Many g k :: p) prev (c :: s) pos cs
  = if cmatch k c then
      if g then
        match exec (Many g k :: p) (Some c) s (S pos) cs with
        | Some r => Some r
        | None => exec p prev (c :: s) pos cs
        end
      else
        match exec p prev (c :: s) pos cs with
        | Some r => Some r
        | None => exec (Many g k :: p) (Some c) s (S pos) cs
        end
    else exec p prev (c :: s) pos cs.
Proof. reflexivity. Qed.

Lemma prevAfter_cons prev c w : prevAfter prev (c :: w) = prevAfter (Some c) w.
Proof.
  unfold prevAfter. simpl. destruct (rev w) as [|x r]; reflexivity.
Qed.

(** A literal that is not a prefix of the subject fails; one that is a
    prefix is read. *)
Lemma exec_litS_fail w p :
  forall prev s pos cs,
    startsWith w s = false -> exec (litS w ++ p) prev s pos cs = None.
Proof.
  induction w as [|x w IH]; intros prev s pos cs H; [discriminate|].
  destruct s as [|c s]; [reflexivity|].
  simpl in H. change (litS (x :: w) ++ p) with (One (CChar x) :: litS w ++ p).
  rewrite exec_one. simpl.
  destruct (N.eqb c x); [apply IH; exact H | reflexivity].
Qed.

Lemma exec_litS_read w p :
  forall prev s pos cs,
    exec (litS w ++ p) prev (w ++ s) pos cs
    = exec p (prevAfter prev w) s (pos + List.length w) cs.
Proof.
  induction w as [|x w IH]; intros prev s pos cs.
  - simpl. rewrite Nat.add_0_r. reflexivity.
  - change (litS (x :: w) ++ p) with (One (CChar x) :: litS w ++ p).
    change ((x :: w) ++ s) with (x :: w ++ s).
    rewrite exec_one. simpl cmatch. rewrite N.eqb_refl.
    rewrite IH, prevAfter_cons. simpl List.length.
    rewrite Nat.add_succ_r. reflexivity.
Qed.

Lemma startsWith_app w s : startsWith w (w ++ s) = true.
Proof.
  induction w as [|x w IH]; [reflexivity|].
  simpl. rewrite N.eqb_refl. exact IH.
Qed.

(** A greedy [\s*] at the end of a pattern takes all the whitespace. *)
Lemma exec_spaces_star s :
  forall prev pos cs,
    exec [Many true CSpace] prev s pos cs = Some (pos + lead s, cs).
Proof.
  induction s as [|c s IH]; intros prev pos cs.
  - rewrite exec_many_nil. simpl. rewrite Nat.add_0_r. reflexivity.
  - rewrite exec_many_cons. simpl cmatch. simpl lead.
    destruct (isWhiteSpace c).
    + rewrite IH. rewrite Nat.add_succ_r. reflexivity.
    + simpl. rewrite Nat.add_0_r. reflexivity.
Qed.

(** [\s+] at a position: the whole run of whitespace there, or no match. *)
Lemma exec_reSpaces prev s :
  exec Projector.reSpaces prev s 0 []
  = match s with
    | c :: s' => if isWhiteSpace c then Some (S (lead s'), []) else None
    | [] => None
    end.
Proof.
  unfold Projector.reSpaces. destruct s as [|c s]; [reflexivity|].
  rewrite exec_one. simpl cmatch.
  destruct (isWhiteSpace c); [|reflexivity].
  rewrite exec_spaces_star. reflexivity.
Qed.

(** A lazy one-line text followed by a literal stops at the first
    occurrence of the literal, provided no line terminator comes first. *)
Lemma exec_lazy_until w post t :
  forall prev pos cs,
    w <> [] ->
    forallb (fun c => negb (isLineTerminator c)) t = true ->
    indexOf w (t ++ w ++ post) = Some (List.length t) ->
    exec (Many false CDot :: litS w) prev (t ++ w ++ post) pos cs
    = Some (pos + List.length t + List.length w, cs).
Proof.
  induction t as [|c t IH]; intros prev pos cs Hw Ht Hi.
  - simpl app. destruct w as [|x w]; [congruence|].
    assert (R : exec (litS (x :: w)) prev ((x :: w) ++ post) pos cs
                = Some (pos + List.length (x :: w), cs)).
    { rewrite <- (app_nil_r (litS (x :: w))), exec_litS_read. reflexivity. }
    change ((x :: w) ++ post) with (x :: w ++ post) in *.
    rewrite exec_many_cons, R. rewrite Nat.add_0_r.
    destruct (cmatch CDot x); reflexivity.
  - simpl in Ht. apply andb_true_iff in Ht as [Hc Ht].
    change ((c :: t) ++ w ++ post) with (c :: t ++ w ++ post) in *.
    simpl in Hi.
    destruct (startsWith w (c :: t ++ w ++ post)) eqn:E; [discriminate|].
    destruct (indexOf w (t ++ w ++ post)) as [n|] eqn:En; [|discriminate].
    simpl in Hi. injection Hi as Hn. subst n.
    rewrite exec_many_cons. simpl cmatch. rewrite Hc.
    rewrite <- (app_nil_r (litS w)) at 1.
    rewrite exec_litS_fail by exact E.
    rewrite IH by (auto). simpl List.length. f_equal. f_equal. lia.
Qed.

End RegexFacts.

(** ** Word and character counts *)

Module ProjectorFacts.

Import Codec Projector RegexFacts.

(** Runs and gaps alternate. *)
Lemma runs_gaps_balance s :
  forall b,
    runsFrom b s + bit b = gapsFrom (negb b) s + bit (endsInRun b s).
Proof.
  induction s as [|c s IH]; intros b.
  - destruct b; reflexivity.
  - pose proof (IH false) as F. pose proof (IH true) as T.
    simpl in F, T |- *.
    destruct (isWhiteSpace c), b; simpl in *; lia.
Qed.

Lemma gapsFrom_no_lead s b : lead s = 0 -> gapsFrom b s = gapsFrom false s.
Proof.
  destruct s as [|c s]; simpl; [reflexivity|].
  destruct (isWhiteSpace c); [discriminate | reflexivity].
Qed.

Lemma gapsFrom_after_match s :
  gapsFrom (negb (Nat.eqb (lead s) 0)) s = gapsFrom true s.
Proof.
  destruct (lead s) eqn:E; simpl; [|reflexivity].
  rewrite (gapsFrom_no_lead s true E). reflexivity.
Qed.

Lemma splitFrom_skip p k piece prev c s :
  splitFrom p (S k) piece prev (c :: s) = splitFrom p k piece (Some c) s.
Proof. reflexivity. Qed.

Lemma splitFrom_try p piece prev c s :
  splitFrom p 0 piece prev (c :: s)
  = match exec p prev (c :: s) 0 [] with
    | Some (S k, _) => rev piece :: splitFrom p k [] (Some c) s
    | Some (O, _) =>
        match piece with
        | [] => splitFrom p 0 [c] (Some c) s
        | _ :: _ => rev piece :: splitFrom p 0 [c] (Some c) s
        end
    | None => splitFrom p 0 (c :: piece) (Some c) s
    end.
Proof. reflexivity. Qed.

(** [split] on [\s+] cuts one piece more than there are gaps. *)
Lemma splitFrom_spaces_length s :
  forall skip piece prev,
    skip = 0 \/ skip = lead s ->
    List.length (splitFrom reSpaces skip piece prev s)
    = S (gapsFrom (negb (Nat.eqb skip 0)) s).
Proof.
  induction s as [|c s IH]; intros skip piece prev Hskip.
  - reflexivity.
  - destruct skip as [|k].
    + rewrite splitFrom_try, exec_reSpaces. simpl gapsFrom.
      destruct (isWhiteSpace c) eqn:W.
      * simpl List.length. rewrite IH by (right; reflexivity).
        rewrite gapsFrom_after_match. reflexivity.
      * rewrite IH by (left; reflexivity). reflexivity.
    + destruct Hskip as [H|H]; [discriminate|].
      simpl in H. destruct (isWhiteSpace c) eqn:W; [|discriminate].
      injection H as H. subst k.
      rewrite splitFrom_skip. simpl gapsFrom. rewrite W.
      rewrite IH by (right; reflexivity).
      rewrite gapsFrom_after_match. reflexivity.
Qed.

(** *** [trim] *)

Lemma trimStart_head s :
  match trimStart s with
  | [] => True
  | c :: _ => isWhiteSpace c = false
  end.
Proof.
  induction s as [|c s IH]; simpl; [exact I|].
  destruct (isWhiteSpace c) eqn:W; [exact IH | exact W].
Qed.

Lemma trimStart_snoc s c :
  isWhiteSpace c = false -> trimStart (s ++ [c]) = trimStart s ++ [c].
Proof.
  intros W. induction s as [|x s IH]; simpl.
  - rewrite W. reflexivity.
  - destruct (isWhiteSpace x); [exact IH | reflexivity].
Qed.

Lemma trimEnd_cons c s :
  isWhiteSpace c = false -> trimEnd (c :: s) = c :: trimEnd s.
Proof.
  intros W. unfold trimEnd. simpl rev.
  rewrite trimStart_snoc by exact W. rewrite rev_app_distr. reflexivity.
Qed.

Lemma runsFrom_trimStart s : runsFrom false (trimStart s) = runsFrom false s.
Proof.
  induction s as [|c s IH]; simpl; [reflexivity|].
  destruct (isWhiteSpace c) eqn:W; [exact IH|].
  simpl. rewrite W. reflexivity.
Qed.

(** What [trimStart] drops is whitespace. *)
Lemma trimStart_split s :
  exists w, forallb isWhiteSpace w = true /\ s = w ++ trimStart s.
Proof.
  induction s as [|c s (w & Hw & E)]; simpl.
  - exists []. split; reflexivity.
  - destruct (isWhiteSpace c) eqn:W.
    + exists (c :: w). simpl. rewrite W, Hw. split; [reflexivity|].
      f_equal. exact E.
    + exists []. split; reflexivity.
Qed.

Lemma runsFrom_spaces_after s w :
  forallb isWhiteSpace w = true ->
  forall b, runsFrom b (s ++ w) = runsFrom b s.
Proof.
  intros Hw. induction s as [|c s IH]; intros b; simpl.
  - revert b. induction w as [|x w IHw]; intros b; simpl; [reflexivity|].
    simpl in Hw. apply andb_true_iff in Hw as [Hx Hw].
    rewrite Hx. apply IHw, Hw.
  - destruct (isWhiteSpace c); rewrite IH; reflexivity.
Qed.

Lemma forallb_rev (f : char -> bool) w :
  forallb f (rev w) = forallb f w.
Proof.
  induction w as [|x w IH]; simpl; [reflexivity|].
  rewrite forallb_app, IH. simpl. rewrite andb_true_r. apply andb_comm.
Qed.

Lemma runsFrom_trimEnd s b : runsFrom b (trimEnd s) = runsFrom b s.
Proof.
  destruct (trimStart_split (rev s)) as (w & Hw & E).
  assert (Es : s = trimEnd s ++ rev w).
  { unfold trimEnd. rewrite <- rev_app_distr, <- E, rev_involutive.
    reflexivity. }
  rewrite Es at 2. symmetry. apply runsFrom_spaces_after.
  rewrite forallb_rev. exact Hw.
Qed.

Lemma runs_trim s : runs (trim s) = runs s.
Proof.
  unfold runs, trim. rewrite runsFrom_trimEnd. apply runsFrom_trimStart.
Qed.

Lemma endsInRun_snoc s c : forall b, endsInRun b (s ++ [c]) = negb (isWhiteSpace c).
Proof.
  induction s as [|x s IH]; intros b; simpl; [reflexivity | apply IH].
Qed.

(** A trimmed string that is not empty starts and ends inside a run. *)
Lemma trim_shape s :
  trim s = []
  \/ exists c t, trim s = c :: t /\ isWhiteSpace c = false
                 /\ endsInRun false (trim s) = true.
Proof.
  unfold trim. pose proof (trimStart_head s) as Hh.
  destruct (trimStart s) as [|c u] eqn:E.
  - left. reflexivity.
  - right. rewrite (@trimEnd_cons c u Hh). exists c, (trimEnd u).
    split; [reflexivity|]. split; [exact Hh|].
    rewrite <- (@trimEnd_cons c u Hh).
    unfold trimEnd. pose proof (trimStart_head (rev (c :: u))) as Hl.
    destruct (trimStart (rev (c :: u))) as [|x r] eqn:Er.
    + (* impossible: the first character is kept *)
      simpl rev in Er. rewrite trimStart_snoc in Er by exact Hh.
      destruct (trimStart (rev u)); discriminate.
    + simpl rev. rewrite endsInRun_snoc, Hl. reflexivity.
Qed.

(** The code's count is the specification's. *)
Lemma words_runs text : words text = runs text.
Proof.
  rewrite <- runs_trim. unfold words.
  destruct (trim_shape text) as [E | (c & t & E & W & L)].
  - rewrite E. reflexivity.
  - rewrite E in *. simpl truthy. cbv iota.
    unfold split. rewrite splitFrom_spaces_length by (left; reflexivity).
    simpl Nat.eqb. simpl negb.
    pose proof (runs_gaps_balance (c :: t) false) as B.
    rewrite L in B. simpl negb in B. simpl bit in B.
    rewrite (gapsFrom_no_lead (c :: t) true) in B
      by (simpl; rewrite W; reflexivity).
    unfold runs. lia.
Qed.

(** C9.  The word count is 0 for the empty string and, for any text, the
    number of maximal non-empty runs of non-whitespace characters of the
    trimmed text (the same as of the text itself); for an HTML source the
    text is the source with its tags stripped, so the three examples
    count 0, 2 and 2 words.  The character count is the length of the
    tag-stripped text. *)
Theorem word_and_char_counts :
  countWords [] = 0
  /\ countWords (js "<p>a b</p>") = 2
  /\ countWords (js "<p>  a   b  </p>") = 2
  /\ (forall text, words text = runs (trim text))
  /\ (forall text, runs (trim text) = runs text)
  /\ (forall h, countWords h = runs (trim (stripTags h)))
  /\ (forall h, countChars h = List.length (stripTags h))
  /\ countChars (js "<b>hi</b>") = 2
  /\ (forall s h text,
         Screen.wordCount (Screen.handleContentChange s h text) = runs text
         /\ Screen.charCount (Screen.handleContentChange s h text)
            = List.length text).
Proof.
  split; [reflexivity|]. split; [vm_compute; reflexivity|].
  split; [vm_compute; reflexivity|].
  split; [intros text; rewrite runs_trim; apply words_runs|].
  split; [exact runs_trim|].
  split; [intros h; unfold countWords; rewrite runs_trim; apply words_runs|].
  split; [reflexivity|]. split; [vm_compute; reflexivity|].
  intros s h text. simpl. split; [apply words_runs | reflexivity].
Qed.

End ProjectorFacts.

(** ** The placeholder of the host page *)

Module PlaceholderFacts.

Import Codec Controller RegexFacts.

Lemma rePlaceholder_shape :
  rePlaceholder = litS opening ++ Many false CDot :: litS closing.
Proof. reflexivity. Qed.

Lemma replaceFirstFrom_eq p t prev s :
  replaceFirstFrom p t prev s
  = match exec p prev s 0 [] with
    | Some (e, cs) => subst t s cs ++ skipn e s
    | None =>
        match s with
        | c :: s' => c :: replaceFirstFrom p t (Some c) s'
        | [] => []
        end
    end.
Proof. destruct s; reflexivity. Qed.

(** A prefix test does not look past the length of the word. *)
Lemma startsWith_longer w :
  forall s m, List.length w <= List.length s ->
              startsWith w (s ++ m) = startsWith w s.
Proof.
  induction w as [|x w IH]; intros s m H; [reflexivity|].
  destruct s as [|c s]; simpl in H; [lia|].
  simpl. rewrite IH by lia. reflexivity.
Qed.

Lemma indexOf_here w s : startsWith w s = true -> indexOf w s = Some 0.
Proof. destruct s; simpl; intros ->; reflexivity. Qed.

Lemma indexOf_later w c s n :
  indexOf w (c :: s) = Some (S n) ->
  startsWith w (c :: s) = false /\ indexOf w s = Some n.
Proof.
  change (indexOf w (c :: s))
    with (if startsWith w (c :: s) then Some 0
          else option_map S (indexOf w s)).
  destruct (startsWith w (c :: s)); [discriminate|].
  destruct (indexOf w s); simpl; [|discriminate].
  intros H. injection H as ->. split; reflexivity.
Qed.

Lemma indexOf_more w m a :
  indexOf w (a ++ w) = Some (List.length a) ->
  indexOf w (a ++ w ++ m) = Some (List.length a).
Proof.
  induction a as [|c a IH]; intros H.
  - simpl app. apply indexOf_here, startsWith_app.
  - change ((c :: a) ++ w) with (c :: a ++ w) in H.
    change ((c :: a) ++ w ++ m) with (c :: a ++ w ++ m).
    simpl in H |- *.
    destruct (startsWith w (c :: a ++ w)) eqn:E; [discriminate|].
    destruct (indexOf w (a ++ w)) as [n|] eqn:En; [|discriminate].
    simpl in H. injection H as Hn. subst n.
    assert (E' : startsWith w (c :: a ++ w ++ m) = false).
    { rewrite <- E.
      change (c :: a ++ w ++ m) with ((c :: a) ++ w ++ m).
      rewrite app_assoc. apply startsWith_longer.
      simpl List.length. rewrite length_app. lia. }
    rewrite E', IH by reflexivity. reflexivity.
Qed.

(** The pattern at an opening tag whose text is one line without a closing
    tag: it matches the element and nothing more. *)
Lemma exec_rePlaceholder_here prev t post :
  forallb (fun c => negb (isLineTerminator c)) t = true ->
  indexOf closing (t ++ closing) = Some (List.length t) ->
  exec rePlaceholder prev (marker t ++ post) 0 []
  = Some (List.length (marker t), []).
Proof.
  intros Ht Hi. rewrite rePlaceholder_shape. unfold marker.
  rewrite <- !app_assoc. rewrite exec_litS_read.
  rewrite exec_lazy_until;
    [| discriminate | exact Ht | apply indexOf_more; exact Hi].
  rewrite !length_app. rewrite Nat.add_assoc. reflexivity.
Qed.

(** The scan skips the text before the first opening tag. *)
Lemma replaceFirstFrom_skips pre rest e :
  (forall prev, exec rePlaceholder prev rest 0 [] = Some (e, [])) ->
  forall prev,
    indexOf opening (pre ++ rest) = Some (List.length pre) ->
    replaceFirstFrom rePlaceholder [] prev (pre ++ rest)
    = pre ++ skipn e rest.
Proof.
  intros Hm. induction pre as [|c pre IH]; intros prev Hi.
  - simpl app. rewrite replaceFirstFrom_eq, Hm. reflexivity.
  - change ((c :: pre) ++ rest) with (c :: pre ++ rest) in *.
    apply indexOf_later in Hi as [E En].
    rewrite replaceFirstFrom_eq, rePlaceholder_shape.
    rewrite exec_litS_fail by exact E.
    rewrite <- rePlaceholder_shape, IH by exact En. reflexivity.
Qed.

Lemma skipn_length_app (a b : str) : skipn (List.length a) (a ++ b) = b.
Proof. induction a; simpl; auto. Qed.

Lemma stripPlaceholder_first pre t post :
  indexOf opening (pre ++ opening) = Some (List.length pre) ->
  forallb (fun c => negb (isLineTerminator c)) t = true ->
  indexOf closing (t ++ closing) = Some (List.length t) ->
  stripPlaceholder (pre ++ marker t ++ post) = pre ++ post.
Proof.
  intros Hp Ht Hc. unfold stripPlaceholder, replaceFirst.
  rewrite (@replaceFirstFrom_skips pre (marker t ++ post)
             (List.length (marker t))).
  - rewrite skipn_length_app. reflexivity.
  - intros prev. apply exec_rePlaceholder_here; assumption.
  - unfold marker. rewrite <- !app_assoc. apply indexOf_more. exact Hp.
Qed.

(** C8, as stated, fails: of two placeholder elements only the first is
    removed, and the second is stored as canonical body, in the caches,
    and passed to [onChange]. *)
Lemma second_placeholder_survives :
  let s := mount [] wysiwyg in
  let (s', eff) := handleWebViewMessage s (contentChange twoMarkers []) in
  content s' = marker (js "b")
  /\ htmlContent s' = marker (js "b")
  /\ lastWysiwygContent s' = marker (js "b")
  /\ eff = [OnChange (marker (js "b")) []]
  /\ indexOf opening (content s') = Some 0.
Proof. vm_compute. repeat split. Qed.

(** A placeholder whose text spans two lines is not removed at all. *)
Example two_line_placeholder_survives :
  stripPlaceholder (marker (js "a" ++ [LF] ++ js "b"))
  = marker (js "a" ++ [LF] ++ js "b").
Proof. vm_compute. reflexivity. Qed.

(** C8, amended.  On a [contentChange] notification the controller stores
    [stripPlaceholder] of the reported HTML as canonical content, HTML
    buffer and last rich content, derives the Markdown buffer from it, and
    passes it to [onChange] with the reported text.  [stripPlaceholder]
    removes the first placeholder element, provided its text is one line
    and holds no closing [div] tag: what comes before and after the
    element is kept as it is (a later placeholder element included).  The
    earlier copy of the component stores and passes on the reported HTML
    unchanged. *)
Theorem contentChange_strips_first_placeholder :
  (forall s c text,
      handleWebViewMessage s (contentChange c text)
      = ({| webViewRef := webViewRef s;
            editorReady := editorReady s;
            content := stripPlaceholder c;
            viewMode := viewMode s;
            htmlContent := stripPlaceholder c;
            markdownContent := convertHTMLToMarkdown (stripPlaceholder c);
            lastWysiwygContent := stripPlaceholder c |},
         [OnChange (stripPlaceholder c) text]))
  /\ (forall pre t post,
         indexOf opening (pre ++ opening) = Some (List.length pre) ->
         forallb (fun c => negb (isLineTerminator c)) t = true ->
         indexOf closing (t ++ closing) = Some (List.length t) ->
         stripPlaceholder (pre ++ marker t ++ post) = pre ++ post)
  /\ (forall t,
         forallb (fun c => negb (isLineTerminator c)) t = true ->
         indexOf closing (t ++ closing) = Some (List.length t) ->
         stripPlaceholder (marker t) = [])
  /\ (forall i s c text,
         let (s', eff) :=
           EarlierCopy.handleWebViewMessage i s (contentChange c text) in
         EarlierCopy.content s' = c /\ EarlierCopy.htmlContent s' = c
         /\ eff = [OnChange c text]).
Proof.
  split; [reflexivity|]. split; [exact stripPlaceholder_first|].
  split; [|intros i s c text; simpl; repeat split].
  intros t Ht Hc.
  pose proof (@stripPlaceholder_first [] t [] eq_refl Ht Hc) as H.
  simpl in H. rewrite app_nil_r in H. exact H.
Qed.

Lemma contentChange_strips_first_placeholder_witness :
  stripPlaceholder (js "<p>x</p>" ++ marker (js "Start typing...") ++ js "y")
  = js "<p>x</p>y".
Proof.
  apply (proj1 (proj2 contentChange_strips_first_placeholder)
           (js "<p>x</p>") (js "Start typing...") (js "y"));
    reflexivity.
Defined.

End PlaceholderFacts.

(** ** Scenarios and further properties *)

Module Scenarios.

Import Codec Controller.

(** A new document: the user opens the Markdown view, types a title and
    returns to the rich view.  The canonical body is the heading, and the
    heading is what the effect sends to the WebView. *)
Theorem typed_title_reaches_rich_view :
  let (s, eff) :=
    run (mount [] wysiwyg)
        [Receive editorReadyMsg; Press markdown;
         TypeMarkdown (js "# Title"); Press wysiwyg] in
  content s = js "<h1>Title</h1>"
  /\ lastWysiwygContent s = js "<h1>Title</h1>"
  /\ viewMode s = wysiwyg
  /\ eff = [OnEditorReady;
            Inject PostContentChangeJs;
            OnChange (js "<h1>Title</h1>") (js "# Title");
            Inject (SetContentJs (js "<h1>Title</h1>"))].
Proof. vm_compute. repeat split. Qed.

(** An existing document is loaded with [setContent]; the Markdown buffer
    then holds its Markdown form, which the Markdown view shows. *)
Theorem loaded_paragraph_in_markdown_view :
  let s :=
    fst (run (mount [] wysiwyg)
             [Receive editorReadyMsg;
              CallSetContent (js "<p>Hello <strong>World</strong></p>");
              Press markdown]) in
  markdownContent s = js "Hello **World**"
  /\ shown s = Some (js "Hello **World**").
Proof. vm_compute. split; reflexivity. Qed.

(** A keystroke in a source view: the HTML view stores the text as HTML
    buffer and canonical content and reports it with its tags stripped;
    the Markdown view stores the text as Markdown buffer, its HTML form as
    canonical content, and reports that HTML form with the Markdown text
    itself as plain text.  Neither touches the other buffer. *)
Theorem source_view_keystroke s text :
  onChangeHtml s text
  = ({| webViewRef := webViewRef s;
        editorReady := editorReady s;
        content := text;
        viewMode := viewMode s;
        htmlContent := text;
        markdownContent := markdownContent s;
        lastWysiwygContent := lastWysiwygContent s |},
     [OnChange text (stripTags text)])
  /\ onChangeMarkdown s text
     = ({| webViewRef := webViewRef s;
           editorReady := editorReady s;
           content := convertMarkdownToHTML text;
           viewMode := viewMode s;
           htmlContent := htmlContent s;
           markdownContent := text;
           lastWysiwygContent := lastWysiwygContent s |},
        [OnChange (convertMarkdownToHTML text) text]).
Proof. split; reflexivity. Qed.

(** A blank Markdown text converts to the empty string. *)
Theorem blank_markdown_to_html md :
  trim md = [] -> convertMarkdownToHTML md = [].
Proof. intros H. unfold convertMarkdownToHTML. rewrite H. reflexivity. Qed.

Lemma blank_markdown_to_html_witness :
  trim (js "  " ++ [LF]) = []
  /\ convertMarkdownToHTML (js "  " ++ [LF]) = [].
Proof.
  split; [reflexivity|].
  apply (@blank_markdown_to_html (js "  " ++ [LF])). reflexivity.
Defined.

Lemma firstn_In (A : Type) (x : A) n :
  forall l, In x (firstn n l) -> In x l.
Proof.
  induction n as [|n IH]; intros [|y l] H; simpl in H; try contradiction.
  destruct H as [H|H]; [left; exact H | right; apply IH, H].
Qed.

(** After a save through the document service the recent list starts with
    the saved id, holds it once, and has at most ten entries. *)
Theorem recent_documents_after_save tMod tCre doc st :
  let st' := snd (Storage.saveDocument tMod tCre doc st) in
  exists rest,
    Storage.getRecentDocumentsList st' = Storage.id doc :: rest
    /\ ~ In (Storage.id doc) rest
    /\ List.length (Storage.getRecentDocumentsList st') <= 10.
Proof.
  intros st'.
  assert (E : exists others,
             Storage.getRecentDocumentsList st'
             = Storage.id doc :: firstn 9 others
             /\ ~ In (Storage.id doc) others).
  { eexists. split.
    - unfold st', Storage.saveDocument, Storage.updateRecentDocuments.
      cbn [snd]. unfold Storage.getRecentDocumentsList at 1.
      rewrite SaveFacts.getItem_setItem. reflexivity.
    - intros H. apply filter_In in H as [_ H].
      rewrite SaveFacts.eqbStr_refl in H. discriminate. }
  destruct E as (others & E & Hn). rewrite E.
  exists (firstn 9 others). split; [reflexivity|]. split.
  - intros H. apply Hn. apply firstn_In in H. exact H.
  - pose proof (firstn_le_length 9 others) as L.
    change (S (List.length (firstn 9 others)) <= 10). lia.
Qed.

End Scenarios.

(** ** The round trip through the page *)

Module HostFacts.

Import Codec Controller.

(** C4.  A body with a backslash does not survive rich, HTML, rich.  The
    user types [<p>C:\new</p>] in the rich view; the HTML view is opened
    (the flush reply arrives) and left again without an edit; the new page
    loads and the component injects the body, escaped for backquotes and
    dollars only, inside a template literal.  The page receives the value
    of that literal, in which backslash-n is a line feed, and reports it
    back: the canonical body is now a different string. *)
Theorem backslash_lost_in_round_trip (innerText : str -> str) :
  let b := js "<p>C:\new</p>" in
  let '(s0, p0, _) := Host.loaded Screen.screenPlaceholder innerText (mount [] wysiwyg) in
  let '(s1, p1, _) := Host.typed innerText b s0 p0 in
  let '(s2, p2, _) := Host.exchange Screen.screenPlaceholder innerText s1 p1 (Press html) in
  let (s3, eff3) := step s2 (Press wysiwyg) in
  let '(s4, p4, _) := Host.loaded Screen.screenPlaceholder innerText s3 in
  content s1 = b
  /\ content s2 = b /\ htmlContent s2 = b
  /\ content s3 = b /\ lastWysiwygContent s3 = b
  /\ eff3 = [Inject (SetContentJs b)]
  /\ escapeTemplate b = b
  /\ Host.cook b = Some (js "<p>C:" ++ [LF] ++ js "ew</p>")
  /\ content s4 = js "<p>C:" ++ [LF] ++ js "ew</p>"
  /\ Host.innerHTML p4 = js "<p>C:" ++ [LF] ++ js "ew</p>"
  /\ content s4 <> b.
Proof.
  vm_compute. repeat split. discriminate.
Qed.

(** *** The escaping is right on strings without backslash *)

Lemma replaceAllFrom_nil p t prev :
  exec p prev [] 0 [] = None -> replaceAllFrom p t 0 prev [] = [].
Proof. intros H. simpl. rewrite H. reflexivity. Qed.

(** Replacing every occurrence of one character. *)
Lemma replaceAll_char x w s :
  replaceAll [One (CChar x)] [Txt w] s
  = flat_map (fun c => if N.eqb c x then js w else [c]) s.
Proof.
  unfold replaceAll. generalize (@None char) as prev.
  induction s as [|c s IH]; intros prev; [reflexivity|].
  simpl. destruct (N.eqb c x); simpl.
  - rewrite app_nil_r. f_equal. apply IH.
  - f_equal. apply IH.
Qed.

Lemma flat_map_twice (g1 g2 g : char -> str) :
  (forall c, flat_map g2 (g1 c) = g c) ->
  forall h, flat_map g2 (flat_map g1 h) = flat_map g h.
Proof.
  intros H. induction h as [|c h IH]; [reflexivity|].
  simpl. rewrite flat_map_app, H, IH. reflexivity.
Qed.

Lemma escapeTemplate_chars h : escapeTemplate h = flat_map Host.escapeChar h.
Proof.
  unfold escapeTemplate. rewrite !replaceAll_char.
  apply flat_map_twice. intros c. unfold Host.escapeChar.
  destruct (N.eqb c (chr "`")) eqn:E1.
  - apply N.eqb_eq in E1. subst c. reflexivity.
  - destruct (N.eqb c (chr "$")) eqn:E2.
    + apply N.eqb_eq in E2. subst c. reflexivity.
    + cbn [flat_map]. rewrite E2. reflexivity.
Qed.

Lemma cook_escapeChar c rest :
  Host.mild c = true ->
  Host.cookFrom Host.Plain (Host.escapeChar c ++ rest)
  = match Host.cookFrom Host.Plain rest with
    | Some v => Some (c :: v)
    | None => None
    end.
Proof.
  unfold Host.mild, Host.escapeChar. intros H.
  apply andb_true_iff in H as [H1 H2].
  apply negb_true_iff in H1, H2.
  destruct (N.eqb c (chr "`")) eqn:E1.
  - apply N.eqb_eq in E1. subst c. simpl.
    destruct (Host.cookFrom Host.Plain rest); reflexivity.
  - destruct (N.eqb c (chr "$")) eqn:E2.
    + apply N.eqb_eq in E2. subst c. simpl.
      destruct (Host.cookFrom Host.Plain rest); reflexivity.
    + cbn [app Host.cookFrom Host.cookStep]. unfold Host.plain.
      rewrite H1, E1, E2, H2.
      destruct (Host.cookFrom Host.Plain rest); reflexivity.
Qed.

Lemma cook_escapeTemplate h :
  forallb Host.mild h = true -> Host.cook (escapeTemplate h) = Some h.
Proof.
  rewrite escapeTemplate_chars. unfold Host.cook.
  induction h as [|c h IH]; intros H; [reflexivity|].
  simpl in H. apply andb_true_iff in H as [Hc Hh].
  change (flat_map Host.escapeChar (c :: h))
    with (Host.escapeChar c ++ flat_map Host.escapeChar h).
  rewrite cook_escapeChar by exact Hc. rewrite IH by exact Hh. reflexivity.
Qed.

Lemma trim_truthy b : truthy (trim b) = true -> truthy b = true.
Proof. destruct b; [discriminate | reflexivity]. Qed.

(** The steady state of the rich view on the body [b]: the component and
    its page after the user has brought the buffer of the page to [b]. *)
Lemma typed_steady innerText b s0 p0 :
  viewMode s0 = wysiwyg ->
  Host.typed innerText b s0 p0
  = ({| webViewRef := true;
        editorReady := editorReady s0;
        content := stripPlaceholder b;
        viewMode := wysiwyg;
        htmlContent := stripPlaceholder b;
        markdownContent := convertHTMLToMarkdown (stripPlaceholder b);
        lastWysiwygContent := stripPlaceholder b |},
     {| Host.innerHTML := b; Host.isContentSet := Host.isContentSet p0 |},
     [OnChange (stripPlaceholder b) (innerText b)]).
Proof.
  intros V.
  unfold Host.typed, Host.input, Host.updateContent, run, step, handle,
    handleWebViewMessage, commit, depsChanged, syncEffect.
  cbn [map fst snd app viewMode editorReady content htmlContent
       markdownContent lastWysiwygContent webViewRef Host.innerHTML].
  rewrite V. cbn [ViewMode_eqb negb orb]. rewrite Bool.eqb_reflx.
  reflexivity.
Qed.

(** Rich, HTML, rich on a body without backslash or carriage return,
    neither blank nor holding a placeholder element: the flush, the two
    presses, the load of the new page and its first notification leave the
    canonical body and the buffer of the page equal to the body. *)
Theorem round_trip_without_backslash placeholder innerText s0 p0 b :
  viewMode s0 = wysiwyg ->
  forallb Host.mild b = true ->
  truthy (trim b) = true ->
  stripPlaceholder b = b ->
  let '(s1, p1, _) := Host.typed innerText b s0 p0 in
  let '(s2, p2, _) := Host.exchange placeholder innerText s1 p1 (Press html) in
  let (s3, _) := step s2 (Press wysiwyg) in
  let '(s4, p4, _) := Host.loaded placeholder innerText s3 in
  content s1 = b /\ content s2 = b /\ content s3 = b
  /\ content s4 = b /\ Host.innerHTML p4 = b.
Proof.
  intros V M T P. rewrite (typed_steady innerText b s0 p0 V). rewrite P.
  pose proof (trim_truthy b T) as Tb.
  unfold Host.exchange, Host.loaded, Host.exchange, Host.deliver,
    Host.evalScript, Host.updateContent, Host.setContent, run, step, handle,
    handleViewModeChange, handleWebViewMessage, setViewMode, commit,
    depsChanged, syncEffect, inject.
  cbn [map fst snd app viewMode editorReady content htmlContent
       markdownContent lastWysiwygContent webViewRef Host.innerHTML
       ViewMode_eqb negb orb andb].
  rewrite ?P, ?Tb, ?Bool.eqb_reflx.
  cbn [map fst snd app viewMode editorReady content htmlContent
       markdownContent lastWysiwygContent webViewRef Host.innerHTML
       ViewMode_eqb negb orb andb].
  rewrite ?P, ?Tb.
  destruct (editorReady s0);
    cbn [map fst snd app viewMode editorReady content htmlContent
         markdownContent lastWysiwygContent webViewRef Host.innerHTML
         ViewMode_eqb negb orb andb Bool.eqb Host.deliver Host.evalScript];
    rewrite ?(cook_escapeTemplate b M);
    cbn [map fst snd app viewMode editorReady content htmlContent
         markdownContent lastWysiwygContent webViewRef Host.innerHTML
         ViewMode_eqb negb orb andb Bool.eqb Host.deliver Host.evalScript
         Host.setContent Host.updateContent];
    rewrite ?Tb, ?T, ?P;
    cbn [map fst snd app viewMode editorReady content htmlContent
         markdownContent lastWysiwygContent webViewRef Host.innerHTML
         ViewMode_eqb negb orb andb Bool.eqb Host.deliver Host.evalScript
         Host.setContent Host.updateContent run step handle];
    rewrite ?Tb, ?T, ?P;
    repeat split.
Qed.

Lemma round_trip_without_backslash_witness :
  let b := js "<p>x</p>" in
  forallb Host.mild b = true /\ truthy (trim b) = true /\ stripPlaceholder b = b
  /\ content
       (fst (fst (Host.loaded Screen.screenPlaceholder stripTags
                    (fst (step
                            (fst (fst (Host.exchange Screen.screenPlaceholder
                                         stripTags
                                         (fst (fst (Host.typed stripTags b
                                                      (mount [] wysiwyg)
                                                      (Host.load
                                                         Screen.screenPlaceholder))))
                                         (snd (fst (Host.typed stripTags b
                                                      (mount [] wysiwyg)
                                                      (Host.load
                                                         Screen.screenPlaceholder))))
                                         (Press html))))
                            (Press wysiwyg))))))
     = b.
Proof.
  intros b.
  split; [reflexivity|]. split; [reflexivity|]. split; [reflexivity|].
  pose proof (@round_trip_without_backslash Screen.screenPlaceholder stripTags
                (mount [] wysiwyg) (Host.load Screen.screenPlaceholder) b
                eq_refl eq_refl eq_refl eq_refl) as H.
  destruct (Host.typed stripTags b (mount [] wysiwyg)
              (Host.load Screen.screenPlaceholder)) as [[s1 p1] e1].
  cbn [fst snd].
  destruct (Host.exchange Screen.screenPlaceholder stripTags s1 p1 (Press html))
    as [[s2 p2] e2].
  cbn [fst snd].
  destruct (step s2 (Press wysiwyg)) as [s3 e3].
  cbn [fst snd].
  destruct (Host.loaded Screen.screenPlaceholder stripTags s3) as [[s4 p4] e4].
  cbn [fst snd]. apply H.
Defined.

Lemma depsChanged_same s s' :
  viewMode s' = viewMode s -> editorReady s' = editorReady s ->
  depsChanged s s' = false.
Proof.
  intros V E. unfold depsChanged. rewrite V, E, Bool.eqb_reflx.
  destruct (viewMode s); reflexivity.
Qed.

Lemma step_clearContent s :
  step s CallClearContent
  = (commit (fst (clearContent s)), inject s ClearContentJs).
Proof.
  unfold step, handle. cbn [clearContent fst snd].
  rewrite depsChanged_same by reflexivity. rewrite app_nil_r. reflexivity.
Qed.

Lemma step_contentChange s c text :
  step s (Receive (contentChange c text))
  = (commit (fst (handleWebViewMessage s (contentChange c text))),
     [OnChange (stripPlaceholder c) text]).
Proof.
  unfold step, handle. cbn [handleWebViewMessage fst snd].
  rewrite depsChanged_same by reflexivity. reflexivity.
Qed.

Lemma clearContent_page placeholder innerText p :
  Host.clearContent placeholder innerText p
  = ({| Host.innerHTML := marker placeholder;
        Host.isContentSet := false |},
     [contentChange (marker placeholder)
                    (innerText (marker placeholder))]).
Proof. reflexivity. Qed.

(** [clearContent] with the page attached: the page shows the placeholder
    again and reports it; once the report is handled the four buffers are
    still empty, and [onChange] has been called with the empty body and
    the rendered text of the placeholder.  The placeholder is one line
    without a closing [div] tag. *)
Theorem clearContent_with_page placeholder innerText s p :
  webViewRef s = true ->
  forallb (fun c => negb (isLineTerminator c)) placeholder = true ->
  indexOf closing (placeholder ++ closing)
  = Some (List.length placeholder) ->
  let '(s', p', eff) :=
    Host.exchange placeholder innerText s p CallClearContent in
  cleared s'
  /\ Host.innerHTML p' = marker placeholder
  /\ eff = [Inject ClearContentJs;
            OnChange [] (innerText (marker placeholder))].
Proof.
  intros R L C.
  assert (E : stripPlaceholder (marker placeholder) = []).
  { pose proof (@PlaceholderFacts.stripPlaceholder_first [] placeholder []
                  eq_refl L C) as H.
    simpl in H. rewrite app_nil_r in H. exact H. }
  unfold Host.exchange. rewrite step_clearContent.
  unfold inject. rewrite R.
  cbn [Host.deliver Host.evalScript]. rewrite clearContent_page.
  cbn [app map run]. rewrite step_contentChange.
  cbn [handleWebViewMessage fst snd commit content htmlContent
       markdownContent lastWysiwygContent app].
  rewrite E. repeat split.
Qed.

Lemma clearContent_with_page_witness :
  webViewRef readyTyped = true
  /\ Host.innerHTML
       (snd (fst (Host.exchange Screen.screenPlaceholder stripTags readyTyped
                    (Host.load Screen.screenPlaceholder) CallClearContent)))
     = marker Screen.screenPlaceholder.
Proof.
  split; [reflexivity|].
  pose proof (@clearContent_with_page Screen.screenPlaceholder stripTags
                readyTyped (Host.load Screen.screenPlaceholder)
                eq_refl eq_refl eq_refl) as H.
  destruct (Host.exchange Screen.screenPlaceholder stripTags readyTyped
              (Host.load Screen.screenPlaceholder) CallClearContent)
    as [[s' p'] eff].
  cbn [fst snd]. apply H.
Defined.

End HostFacts.

(** ** Substitutions that find nothing, or one match *)

Module ReplaceFacts.
Import RegexFacts PlaceholderFacts HostFacts.

Lemma lacks_app x a b : lacks x (a ++ b) = lacks x a && lacks x b.
Proof. apply forallb_app. Qed.

Lemma oneLine_app a b : oneLine (a ++ b) = oneLine a && oneLine b.
Proof. apply forallb_app. Qed.

Lemma oneLine_lacks_LF s : oneLine s = true -> lacks LF s = true.
Proof.
  unfold oneLine, lacks. induction s as [|c s IH]; simpl; [reflexivity|].
  intros H. apply andb_true_iff in H as [H1 H2]. rewrite (IH H2), andb_true_r.
  unfold isLineTerminator in H1. destruct (N.eqb c LF) eqn:E; [|reflexivity].
  apply N.eqb_eq in E. subst c. discriminate.
Qed.

(** A pattern fails where the subject does not start with a prefix of
    the literal the pattern starts with. *)
Lemma exec_absent w :
  forall p prev s pos cs,
    startsWith w (litPrefix p) = true -> startsWith w s = false ->
    exec p prev s pos cs = None.
Proof.
  induction w as [|x w IH]; intros p prev s pos cs Hp Hs; [discriminate|].
  destruct p as [|[[d| | | |]| | | | | |] p]; try discriminate.
  simpl in Hp. apply andb_true_iff in Hp as [E Hp].
  apply N.eqb_eq in E. subst d.
  destruct s as [|c s]; [reflexivity|].
  rewrite exec_one. simpl cmatch. simpl in Hs.
  destruct (N.eqb c x); [|reflexivity].
  eapply IH; eassumption.
Qed.

Lemma replaceAllFrom_try p t prev c s :
  replaceAllFrom p t 0 prev (c :: s)
  = match exec p prev (c :: s) 0 [] with
    | Some (e, cs) =>
        subst t (c :: s) cs ++
        match e with
        | O => c :: replaceAllFrom p t 0 (Some c) s
        | S k => replaceAllFrom p t k (Some c) s
        end
    | None => c :: replaceAllFrom p t 0 (Some c) s
    end.
Proof. reflexivity. Qed.

Lemma replaceAllFrom_fail p t prev c s :
  exec p prev (c :: s) 0 [] = None ->
  replaceAllFrom p t 0 prev (c :: s) = c :: replaceAllFrom p t 0 (Some c) s.
Proof. intros H. rewrite replaceAllFrom_try, H. reflexivity. Qed.

Lemma replaceAllFrom_skipping p t m :
  forall prev rest,
    replaceAllFrom p t (List.length m) prev (m ++ rest)
    = replaceAllFrom p t 0 (prevAfter prev m) rest.
Proof.
  induction m as [|c m IH]; intros prev rest; [reflexivity|].
  simpl. rewrite IH, prevAfter_cons. reflexivity.
Qed.

(** A match at the current position: its replacement, then the rest. *)
Lemma replaceAllFrom_match p t prev c m rest cs :
  exec p prev (c :: m ++ rest) 0 [] = Some (S (List.length m), cs) ->
  replaceAllFrom p t 0 prev (c :: m ++ rest)
  = subst t (c :: m ++ rest) cs
    ++ replaceAllFrom p t 0 (prevAfter (Some c) m) rest.
Proof.
  intros H. rewrite replaceAllFrom_try, H, replaceAllFrom_skipping.
  reflexivity.
Qed.

(** The part of the subject where no match can start is copied. *)
Lemma replaceAllFrom_lacking x p t a :
  forall prev rest,
    hd_error p = Some (One (CChar x)) -> lacks x a = true ->
    replaceAllFrom p t 0 prev (a ++ rest)
    = a ++ replaceAllFrom p t 0 (prevAfter prev a) rest.
Proof.
  induction a as [|c a IH]; intros prev rest Hp Ha; [reflexivity|].
  simpl in Ha. apply andb_true_iff in Ha as [Hc Ha].
  change ((c :: a) ++ rest) with (c :: a ++ rest).
  rewrite replaceAllFrom_fail.
  - rewrite IH by assumption. rewrite prevAfter_cons. reflexivity.
  - destruct p as [|q p]; [discriminate|]. injection Hp as ->.
    rewrite exec_one. simpl cmatch.
    destruct (N.eqb c x); [discriminate | reflexivity].
Qed.

Lemma atBol_prevAfter prev a :
  atBol prev = false -> oneLine a = true -> atBol (prevAfter prev a) = false.
Proof.
  revert prev. induction a as [|c a IH]; intros prev H Ha; [exact H|].
  simpl in Ha. apply andb_true_iff in Ha as [Hc Ha].
  rewrite prevAfter_cons. apply IH; [|exact Ha].
  simpl. destruct (isLineTerminator c); [discriminate | reflexivity].
Qed.

Lemma replaceAllFrom_midline p t a :
  forall prev rest,
    hd_error p = Some Bol -> atBol prev = false -> oneLine a = true ->
    replaceAllFrom p t 0 prev (a ++ rest)
    = a ++ replaceAllFrom p t 0 (prevAfter prev a) rest.
Proof.
  induction a as [|c a IH]; intros prev rest Hp Hb Ha; [reflexivity|].
  simpl in Ha. apply andb_true_iff in Ha as [Hc Ha].
  change ((c :: a) ++ rest) with (c :: a ++ rest).
  rewrite replaceAllFrom_fail.
  - rewrite IH; try assumption.
    + rewrite prevAfter_cons. reflexivity.
    + simpl. destruct (isLineTerminator c); [discriminate | reflexivity].
  - destruct p as [|q p]; [discriminate|]. injection Hp as ->.
    simpl. rewrite Hb. reflexivity.
Qed.

Lemma replaceAllFrom_absent w p t s :
  forall prev,
    startsWith w (litPrefix p) = true -> indexOf w s = None ->
    replaceAllFrom p t 0 prev s = s.
Proof.
  induction s as [|c s IH]; intros prev Hp Hs.
  - apply replaceAllFrom_nil. eapply exec_absent; [exact Hp|].
    simpl in Hs. destruct (startsWith w []); [discriminate | reflexivity].
  - simpl in Hs. destruct (startsWith w (c :: s)) eqn:E; [discriminate|].
    destruct (indexOf w s) eqn:F; [discriminate|].
    rewrite replaceAllFrom_fail.
    + rewrite IH; auto.
    + eapply exec_absent; eassumption.
Qed.

Lemma replaceAll_absent w p t s :
  startsWith w (litPrefix p) = true -> indexOf w s = None ->
  replaceAll p t s = s.
Proof. apply replaceAllFrom_absent. Qed.

Lemma indexOf_lacking x w a :
  forall rest, lacks x a = true ->
    indexOf (x :: w) (a ++ rest)
    = option_map (Nat.add (List.length a)) (indexOf (x :: w) rest).
Proof.
  induction a as [|c a IH]; intros rest Ha.
  - simpl app. destruct (indexOf (x :: w) rest); reflexivity.
  - simpl in Ha. apply andb_true_iff in Ha as [Hc Ha].
    change ((c :: a) ++ rest) with (c :: a ++ rest).
    change (indexOf (x :: w) (c :: a ++ rest))
      with (if startsWith (x :: w) (c :: a ++ rest) then Some 0
            else option_map S (indexOf (x :: w) (a ++ rest))).
    simpl startsWith. destruct (N.eqb c x); [discriminate|]. simpl andb.
    rewrite IH by exact Ha. destruct (indexOf (x :: w) rest); reflexivity.
Qed.

Lemma lacks_indexOf x s : lacks x s = true -> indexOf [x] s = None.
Proof.
  intros H. rewrite <- (app_nil_r s), indexOf_lacking by exact H.
  reflexivity.
Qed.

Lemma replaceAll_lacking x p t s :
  startsWith [x] (litPrefix p) = true -> lacks x s = true ->
  replaceAll p t s = s.
Proof.
  intros Hp Hs. eapply replaceAll_absent; [exact Hp|].
  apply lacks_indexOf, Hs.
Qed.

(** The same for [replace] without the [g] flag. *)
Lemma replaceFirstFrom_absent w p t s :
  forall prev,
    startsWith w (litPrefix p) = true -> indexOf w s = None ->
    replaceFirstFrom p t prev s = s.
Proof.
  induction s as [|c s IH]; intros prev Hp Hs; rewrite replaceFirstFrom_eq.
  - rewrite (exec_absent w); [reflexivity | exact Hp|].
    simpl in Hs. destruct (startsWith w []); [discriminate | reflexivity].
  - simpl in Hs. destruct (startsWith w (c :: s)) eqn:E; [discriminate|].
    destruct (indexOf w s) eqn:F; [discriminate|].
    rewrite (exec_absent w) by assumption. rewrite IH; auto.
Qed.

End ReplaceFacts.

(** ** The converters as lists of substitutions *)

Module CodecFacts.

Import Codec.
Import RegexFacts PlaceholderFacts HostFacts ProjectorFacts ReplaceFacts.

Lemma toMarkdownSubstitutions_passes s :
  toMarkdownSubstitutions s = fold_left applyPass htmlToMarkdownPasses s.
Proof. reflexivity. Qed.

Lemma convertMarkdownToHTML_passes md :
  truthy (trim md) = true ->
  convertMarkdownToHTML md = fold_left applyPass markdownToHtmlPasses md.
Proof. intros H. unfold convertMarkdownToHTML. rewrite H. reflexivity. Qed.

(** Passes whose patterns start with a character the subject lacks change
    nothing. *)
Lemma passes_lacking (xs : list char) ps :
  forall s,
    Forall (fun p => exists x, In x xs
                               /\ startsWith [x] (litPrefix (fst p)) = true) ps ->
    Forall (fun x => lacks x s = true) xs ->
    fold_left applyPass ps s = s.
Proof.
  induction ps as [|p ps IH]; intros s Hp Hs; [reflexivity|].
  inversion Hp as [|? ? (x & Hx & Hl) Hp']; subst. simpl.
  assert (E : applyPass s p = s).
  { unfold applyPass. eapply replaceAll_lacking; [exact Hl|].
    rewrite Forall_forall in Hs. apply Hs, Hx. }
  rewrite E. apply IH; assumption.
Qed.

Lemma toMarkdownSubstitutions_plain s :
  lacks (chr "<") s = true -> lacks (chr "&") s = true ->
  toMarkdownSubstitutions s = s.
Proof.
  intros H1 H2. rewrite toMarkdownSubstitutions_passes.
  apply (@passes_lacking [chr "<"; chr "&"]).
  - unfold htmlToMarkdownPasses.
    repeat (constructor;
            [first [ exists (chr "<"); split; [simpl; auto | reflexivity]
                   | exists (chr "&"); split; [simpl; auto | reflexivity] ]|]).
    constructor.
  - repeat constructor; assumption.
Qed.

Lemma stripPlaceholder_plain s :
  lacks (chr "<") s = true -> stripPlaceholder s = s.
Proof.
  intros H. unfold stripPlaceholder, replaceFirst.
  apply (@replaceFirstFrom_absent [chr "<"]); [reflexivity|].
  apply lacks_indexOf, H.
Qed.

Theorem plain_text_to_markdown t :
  lacks (chr "<") t = true -> lacks (chr "&") t = true ->
  convertHTMLToMarkdown t = trim t.
Proof.
  intros H1 H2. unfold convertHTMLToMarkdown. cbv zeta.
  rewrite stripPlaceholder_plain by exact H1.
  rewrite toMarkdownSubstitutions_plain by assumption. reflexivity.
Qed.

End CodecFacts.

(** ** Groups, greedy stars and trimming *)

Module GroupFacts.
Import RegexFacts PlaceholderFacts HostFacts ProjectorFacts ReplaceFacts.

Lemma exec_gopen n p prev s pos cs :
  exec (GOpen n :: p) prev s pos cs = exec p prev s pos ((n, (pos, pos)) :: cs).
Proof. reflexivity. Qed.

Lemma exec_gclose n p prev s pos cs :
  exec (GClose n :: p) prev s pos cs
  = exec p prev s pos
         ((n, (match capture n cs with Some (b, _) => b | None => pos end,
               pos)) :: cs).
Proof. reflexivity. Qed.

Lemma litS_app a b : litS (a ++ b) = litS a ++ litS b.
Proof. apply map_app. Qed.

Lemma prevAfter_app prev a b :
  prevAfter prev (a ++ b) = prevAfter (prevAfter prev a) b.
Proof.
  revert prev. induction a as [|c a IH]; intros prev; [reflexivity|].
  change ((c :: a) ++ b) with (c :: a ++ b).
  rewrite !prevAfter_cons. apply IH.
Qed.

(** A lazy one-line group followed by a literal ends at the first
    occurrence of the literal, when the rest of the pattern matches
    there. *)
Lemma exec_lazy_group n w q post t r :
  forall prev pos cs,
    w <> [] -> oneLine t = true ->
    indexOf w (t ++ w ++ post) = Some (List.length t) ->
    exec q (prevAfter (prevAfter prev t) w) post
         (pos + List.length t + List.length w)
         ((n, (match capture n cs with
               | Some (b, _) => b
               | None => pos + List.length t
               end, pos + List.length t)) :: cs) = Some r ->
    exec (Many false CDot :: GClose n :: litS w ++ q) prev (t ++ w ++ post)
         pos cs = Some r.
Proof.
  induction t as [|c t IH]; intros prev pos cs Hw Ht Hi Hq.
  - simpl app. simpl List.length in Hq. rewrite !Nat.add_0_r in Hq.
    assert (R : exec (GClose n :: litS w ++ q) prev (w ++ post) pos cs
                = Some r).
    { rewrite exec_gclose, exec_litS_read. exact Hq. }
    destruct w as [|x w]; [congruence|].
    change ((x :: w) ++ post) with (x :: w ++ post) in *.
    rewrite exec_many_cons, R. destruct (cmatch CDot x); reflexivity.
  - unfold oneLine in Ht. simpl in Ht. apply andb_true_iff in Ht as [Hc Ht].
    change ((c :: t) ++ w ++ post) with (c :: t ++ w ++ post) in *.
    simpl in Hi.
    destruct (startsWith w (c :: t ++ w ++ post)) eqn:E; [discriminate|].
    destruct (indexOf w (t ++ w ++ post)) as [m|] eqn:Em; [|discriminate].
    simpl in Hi. injection Hi as Hm. subst m.
    rewrite exec_many_cons. simpl cmatch. rewrite Hc.
    rewrite exec_gclose, exec_litS_fail by exact E.
    rewrite prevAfter_cons in Hq. simpl List.length in Hq.
    rewrite !Nat.add_succ_r in Hq.
    apply IH; [exact Hw | exact Ht | reflexivity | exact Hq].
Qed.

(** A greedy star takes a run of matching characters when the pattern
    matches after it. *)
Lemma exec_greedy_run k q rest t r :
  forall prev pos cs,
    forallb (cmatch k) t = true ->
    exec (Many true k :: q) (prevAfter prev t) rest (pos + List.length t) cs
    = Some r ->
    exec (Many true k :: q) prev (t ++ rest) pos cs = Some r.
Proof.
  induction t as [|c t IH]; intros prev pos cs Ht Hq.
  - simpl in *. rewrite Nat.add_0_r in Hq. exact Hq.
  - simpl in Ht. apply andb_true_iff in Ht as [Hc Ht].
    change ((c :: t) ++ rest) with (c :: t ++ rest).
    rewrite exec_many_cons, Hc.
    rewrite (IH (Some c) (S pos) cs Ht); [reflexivity|].
    rewrite prevAfter_cons in Hq. simpl List.length in Hq.
    rewrite Nat.add_succ_r in Hq. exact Hq.
Qed.

(** [group] reads the captured part of the subject. *)
Lemma group_read n a t rest cs b e :
  capture n cs = Some (b, e) -> b = List.length a ->
  e = List.length a + List.length t ->
  group (a ++ t ++ rest) cs n = t.
Proof.
  intros H -> ->. unfold group. rewrite H.
  rewrite skipn_length_app.
  replace (List.length a + List.length t - List.length a)
    with (List.length t) by lia.
  rewrite firstn_app, Nat.sub_diag, firstn_all. simpl. apply app_nil_r.
Qed.

(** *** Trimming *)

Lemma trimStart_fixed c s : isWhiteSpace c = false -> trimStart (c :: s) = c :: s.
Proof. intros H. simpl. rewrite H. reflexivity. Qed.

Lemma trimEnd_snoc_space s d :
  isWhiteSpace d = true -> trimEnd (s ++ [d]) = trimEnd s.
Proof.
  intros H. unfold trimEnd. rewrite rev_app_distr. simpl. rewrite H.
  reflexivity.
Qed.

Lemma trimEnd_app_fixed a t :
  t <> [] -> trimEnd t = t -> trimEnd (a ++ t) = a ++ t.
Proof.
  intros Hn Ht. unfold trimEnd in *.
  assert (E : trimStart (rev t) = rev t).
  { rewrite <- (rev_involutive (trimStart (rev t))), Ht. reflexivity. }
  rewrite rev_app_distr.
  pose proof (trimStart_head (rev t)) as Hh. rewrite E in Hh.
  destruct (rev t) as [|c u] eqn:R.
  - exfalso. apply Hn. rewrite <- (rev_involutive t), R. reflexivity.
  - change ((c :: u) ++ rev a) with (c :: u ++ rev a).
    rewrite trimStart_fixed by exact Hh.
    change (c :: u ++ rev a) with ((c :: u) ++ rev a).
    rewrite <- R, <- rev_app_distr, rev_involutive. reflexivity.
Qed.

Lemma trim_fixed c s :
  isWhiteSpace c = false -> trimEnd (c :: s) = c :: s -> trim (c :: s) = c :: s.
Proof. intros H E. unfold trim. rewrite trimStart_fixed by exact H. exact E. Qed.

End GroupFacts.

(** ** Headings *)

Module ElementFacts.

Import Codec.
Import RegexFacts PlaceholderFacts HostFacts ProjectorFacts ReplaceFacts GroupFacts CodecFacts.

Lemma forallb_impl (f g : char -> bool) t :
  (forall c, f c = true -> g c = true) ->
  forallb f t = true -> forallb g t = true.
Proof.
  intros H. induction t as [|c t IH]; simpl; [reflexivity|].
  intros E. apply andb_true_iff in E as [E1 E2].
  rewrite (H c E1), (IH E2). reflexivity.
Qed.

Lemma plainText_parts t :
  plainText t = true ->
  oneLine t = true /\ lacks (chr "<") t = true /\ lacks (chr "&") t = true
  /\ lacks (chr "*") t = true /\ lacks (chr "[") t = true.
Proof.
  intros H. unfold plainText in H.
  repeat split; apply (@forallb_impl plainChar _ t); try exact H;
    intros c E; unfold plainChar in E;
    repeat (apply andb_true_iff in E as [E ?]); assumption.
Qed.

Lemma fold_left_cons (A B : Type) (f : A -> B -> A) p l s :
  fold_left f (p :: l) s = fold_left f l (f s p).
Proof. reflexivity. Qed.

(** A match that covers the whole subject. *)
Lemma replaceAll_whole p tpl c m cs :
  exec p None (c :: m) 0 [] = Some (S (List.length m), cs) ->
  exec p (prevAfter (Some c) m) [] 0 [] = None ->
  replaceAll p tpl (c :: m) = subst tpl (c :: m) cs.
Proof.
  intros H E. unfold replaceAll.
  rewrite <- (app_nil_r m) at 1.
  rewrite (@replaceAllFrom_match p tpl None c m [] cs)
    by (rewrite app_nil_r; exact H).
  rewrite replaceAllFrom_nil by exact E.
  rewrite !app_nil_r. reflexivity.
Qed.

Lemma exec_open_end p prev s pos cs :
  exec ([Many true (CNot (chr ">"))] ++ litS (js ">") ++ p) prev
       (js ">" ++ s) pos cs
  = exec p (Some (chr ">")) s (S pos) cs.
Proof. reflexivity. Qed.

Lemma indexOf_first x w t post :
  lacks x t = true ->
  indexOf (x :: w) (t ++ (x :: w) ++ post) = Some (List.length t).
Proof.
  intros H. rewrite indexOf_lacking by exact H.
  rewrite indexOf_here by apply startsWith_app.
  simpl. rewrite Nat.add_0_r. reflexivity.
Qed.

Lemma exec_reElement tag t prev post :
  oneLine t = true -> lacks (chr "<") t = true ->
  exec (reElement tag) prev (element tag t ++ post) 0 []
  = Some (List.length (element tag t),
          [(1, (2 + List.length (js tag),
                2 + List.length (js tag) + List.length t));
           (1, (2 + List.length (js tag), 2 + List.length (js tag)))]).
Proof.
  intros Hl Ht. unfold reElement, element, lit.
  rewrite <- !app_assoc.
  rewrite !exec_litS_read, exec_open_end.
  replace ([GOpen 1; Many false CDot; GClose 1] ++
           litS (js "</") ++ litS (js tag) ++ litS (js ">"))
    with (GOpen 1 :: Many false CDot :: GClose 1
          :: litS (js "</" ++ js tag ++ js ">") ++ [])
    by (rewrite !litS_app, app_nil_r; reflexivity).
  replace (t ++ js "</" ++ js tag ++ js ">" ++ post)
    with (t ++ (js "</" ++ js tag ++ js ">") ++ post)
    by (rewrite <- !app_assoc; reflexivity).
  rewrite exec_gopen.
  erewrite exec_lazy_group; [reflexivity | discriminate | exact Hl | |].
  - apply (@indexOf_first (chr "<")). exact Ht.
  - simpl exec. f_equal. f_equal.
    rewrite !length_app. simpl. lia.
Qed.

Lemma group1_element tag t rest :
  group (element tag t)
        ((1, (2 + List.length (js tag),
              2 + List.length (js tag) + List.length t)) :: rest) 1 = t.
Proof.
  unfold element.
  replace (js "<" ++ js tag ++ js ">" ++ t ++ js "</" ++ js tag ++ js ">")
    with ((js "<" ++ js tag ++ js ">") ++ t ++ js "</" ++ js tag ++ js ">")
    by (rewrite <- !app_assoc; reflexivity).
  eapply group_read; [reflexivity| |].
  - rewrite !length_app. simpl. lia.
  - rewrite !length_app. simpl. lia.
Qed.

Lemma element_cons tag t :
  element tag t = chr "<" :: js tag ++ js ">" ++ t ++ js "</" ++ js tag ++ js ">".
Proof. reflexivity. Qed.

Lemma indexOf_skip w a rest x :
  hd_error w = Some x -> lacks x a = true ->
  indexOf w (a ++ rest) = option_map (Nat.add (List.length a)) (indexOf w rest).
Proof.
  destruct w as [|y w]; [discriminate|]. intros E. injection E as ->.
  apply indexOf_lacking.
Qed.

Ltac absent x :=
  unfold element; simpl;
  rewrite (@indexOf_skip _ _ _ x) by (reflexivity || assumption);
  reflexivity.

Lemma pass_absent w p tpl s :
  startsWith w (litPrefix p) = true -> indexOf w s = None ->
  applyPass s (p, tpl) = s.
Proof. apply replaceAll_absent. Qed.

(** The pass of an element's own pattern on the element alone. *)
Lemma pass_element tag tpl t :
  oneLine t = true -> lacks (chr "<") t = true ->
  applyPass (element tag t) (reElement tag, tpl)
  = subst tpl (element tag t)
          [(1, (2 + List.length (js tag),
                2 + List.length (js tag) + List.length t));
           (1, (2 + List.length (js tag), 2 + List.length (js tag)))].
Proof.
  intros L A. unfold applyPass. cbn [fst snd].
  rewrite element_cons. apply replaceAll_whole.
  - rewrite <- element_cons.
    rewrite <- (app_nil_r (element _ t)).
    rewrite exec_reElement by assumption. reflexivity.
  - reflexivity.
Qed.

Lemma stripPlaceholder_absent s :
  indexOf (js "<d") s = None -> stripPlaceholder s = s.
Proof.
  intros H. unfold stripPlaceholder, replaceFirst.
  apply (@replaceFirstFrom_absent (js "<d")); [reflexivity | exact H].
Qed.

Ltac skip_pass w :=
  rewrite fold_left_cons, (@pass_absent w)
    by (reflexivity || absent (chr "<")).

(** Passes whose patterns start with [<] or [&] leave a text without
    these characters as it is. *)
Lemma passes_markup_free ps s :
  Forall (fun p => startsWith [chr "<"] (litPrefix (fst p))
                   || startsWith [chr "&"] (litPrefix (fst p)) = true) ps ->
  lacks (chr "<") s = true -> lacks (chr "&") s = true ->
  fold_left applyPass ps s = s.
Proof.
  intros Hp H1 H2. apply (@passes_lacking [chr "<"; chr "&"]).
  - eapply Forall_impl; [|exact Hp]. intros p H.
    apply orb_true_iff in H as [H|H].
    + exists (chr "<"). split; [simpl; auto | exact H].
    + exists (chr "&"). split; [simpl; auto | exact H].
  - repeat constructor; assumption.
Qed.

Ltac lacking :=
  rewrite ?lacks_app; repeat (apply andb_true_iff; split);
  try assumption; reflexivity.

Ltac tail_done :=
  rewrite passes_markup_free;
  [ | repeat (constructor; [reflexivity|]); constructor | lacking | lacking ].

Lemma trim_marked a c t :
  isWhiteSpace c = false -> t <> [] -> trimEnd t = t ->
  trim ((c :: a) ++ t ++ [LF]) = (c :: a) ++ t.
Proof.
  intros Hc Hn He. apply eq_trans with (trim (c :: (a ++ t) ++ [LF])).
  { rewrite <- app_assoc. reflexivity. }
  unfold trim. rewrite trimStart_fixed by exact Hc.
  change (c :: (a ++ t) ++ [LF]) with ((c :: a ++ t) ++ [LF]).
  rewrite trimEnd_snoc_space by reflexivity.
  change (c :: a ++ t) with ((c :: a) ++ t).
  apply trimEnd_app_fixed; assumption.
Qed.

Lemma heading_to_markdown k t :
  In k [1; 2; 3] -> plainText t = true -> t <> [] -> trimEnd t = t ->
  convertHTMLToMarkdown (element (headingTag k) t) = hashes k ++ js " " ++ t.
Proof.
  intros Hk Hp Hn He.
  destruct (plainText_parts _ Hp) as (L & A & B & C & D).
  unfold convertHTMLToMarkdown. cbv zeta.
  rewrite stripPlaceholder_absent
    by (destruct Hk as [<-|[<-|[<-|[]]]]; absent (chr "<")).
  rewrite toMarkdownSubstitutions_passes. unfold htmlToMarkdownPasses.
  destruct Hk as [<-|[<-|[<-|[]]]]; cbn [headingTag].
  - rewrite fold_left_cons, pass_element by assumption.
    cbn [subst]. rewrite group1_element.
    tail_done.
    apply (@trim_marked (js " ")); [reflexivity | exact Hn | exact He].
  - skip_pass (js "<h1").
    rewrite fold_left_cons, pass_element by assumption.
    cbn [subst]. rewrite group1_element.
    tail_done.
    apply (@trim_marked (js "# ")); [reflexivity | exact Hn | exact He].
  - skip_pass (js "<h1"). skip_pass (js "<h2").
    rewrite fold_left_cons, pass_element by assumption.
    cbn [subst]. rewrite group1_element.
    tail_done.
    apply (@trim_marked (js "## ")); [reflexivity | exact Hn | exact He].
Qed.

Lemma truthy_trim_head c s :
  isWhiteSpace c = false -> truthy (trim (c :: s)) = true.
Proof.
  intros H. unfold trim. rewrite trimStart_fixed by exact H.
  rewrite trimEnd_cons by exact H. reflexivity.
Qed.

Lemma pass_lacking x p tpl s :
  startsWith [x] (litPrefix p) = true -> lacks x s = true ->
  applyPass s (p, tpl) = s.
Proof. apply replaceAll_lacking. Qed.

(** A pattern anchored at the start of a line, on a one-line subject:
    the only attempt that counts is the one at the first character. *)
Lemma pass_anchored p tpl s :
  hd_error p = Some Bol -> exec p None s 0 [] = None ->
  oneLine s = true ->
  applyPass s (p, tpl) = s.
Proof.
  intros Hp He Hl. unfold applyPass, replaceAll. cbn [fst snd].
  destruct s as [|c s]; [apply replaceAllFrom_nil, He|].
  unfold oneLine in Hl. simpl in Hl. apply andb_true_iff in Hl as [Hc Hl].
  assert (B : atBol (Some c) = false)
    by (simpl; destruct (isLineTerminator c); [discriminate | reflexivity]).
  rewrite replaceAllFrom_fail by exact He.
  rewrite <- (app_nil_r s) at 1.
  rewrite replaceAllFrom_midline by assumption.
  rewrite replaceAllFrom_nil, app_nil_r; [reflexivity|].
  destruct p as [|q p]; [discriminate|]. injection Hp as ->.
  simpl. rewrite atBol_prevAfter by assumption. reflexivity.
Qed.

Lemma exec_bol_start p s pos cs :
  exec (Bol :: p) None s pos cs = exec p None s pos cs.
Proof. reflexivity. Qed.

Lemma exec_reHeading m t :
  oneLine t = true ->
  exec (reHeading m) None (js m ++ js " " ++ t) 0 []
  = Some (List.length (js m) + 1 + List.length t,
          [(1, (List.length (js m) + 1,
                List.length (js m) + 1 + List.length t));
           (1, (List.length (js m) + 1, List.length (js m) + 1))]).
Proof.
  intros L. unfold reHeading, lit.
  change ([Bol] ++ litS (js m) ++ litS (js " ")
          ++ [GOpen 1; Many true CDot; Eol; GClose 1])
    with (Bol :: litS (js m) ++ litS (js " ")
          ++ GOpen 1 :: Many true CDot :: [Eol; GClose 1]).
  rewrite exec_bol_start, !exec_litS_read, exec_gopen.
  rewrite <- (app_nil_r t) at 1.
  erewrite exec_greedy_run; [reflexivity | exact L |].
  reflexivity.
Qed.

Lemma pass_heading m tpl t :
  js m <> [] -> oneLine (js m ++ js " " ++ t) = true ->
  applyPass (js m ++ js " " ++ t) (reHeading m, tpl)
  = subst tpl (js m ++ js " " ++ t)
          [(1, (List.length (js m) + 1,
                List.length (js m) + 1 + List.length t));
           (1, (List.length (js m) + 1, List.length (js m) + 1))].
Proof.
  intros Hm L.
  assert (Lt : oneLine t = true).
  { rewrite !oneLine_app in L. apply andb_true_iff in L as [_ L].
    apply andb_true_iff in L as [_ L]. exact L. }
  pose proof (@exec_reHeading m t Lt) as E.
  unfold applyPass. cbn [fst snd].
  destruct (js m) as [|c w] eqn:M; [congruence|].
  change ((c :: w) ++ js " " ++ t) with (c :: w ++ js " " ++ t) in *.
  apply replaceAll_whole.
  - rewrite E. f_equal. f_equal. rewrite length_app. simpl. lia.
  - unfold oneLine in L. simpl in L. apply andb_true_iff in L as [Hc L].
    unfold reHeading. simpl.
    rewrite atBol_prevAfter; [reflexivity | | exact L].
    simpl. destruct (isLineTerminator c); [discriminate | reflexivity].
Qed.

Lemma group1_heading m t rest :
  group (js m ++ js " " ++ t)
        ((1, (List.length (js m) + 1,
              List.length (js m) + 1 + List.length t)) :: rest) 1 = t.
Proof.
  replace (js m ++ js " " ++ t) with ((js m ++ js " ") ++ t ++ [])
    by (rewrite app_nil_r, <- app_assoc; reflexivity).
  eapply group_read; [reflexivity| |].
  - rewrite length_app. reflexivity.
  - rewrite length_app. reflexivity.
Qed.

Lemma exec_anchored_other x p c s pos cs :
  N.eqb x c = false ->
  exec (Bol :: One (CChar x) :: p) None (c :: s) pos cs = None.
Proof.
  intros H. simpl. rewrite N.eqb_sym, H. reflexivity.
Qed.

(** The passes of [convertMarkdownToHTML] that cannot touch a one-line
    text that starts with neither [#] nor [-] and holds no star, no
    bracket and no closing list tag. *)
Lemma markdown_passes_settled ps s :
  startsWith [chr "#"] s = false -> startsWith [chr "-"] s = false ->
  oneLine s = true -> lacks (chr "*") s = true ->
  lacks (chr "[") s = true ->
  indexOf (js "</u") s = None ->
  Forall (fun p => inert (fst p) = true) ps ->
  fold_left applyPass ps s = s.
Proof.
  intros H1 H2 L S B U Hp.
  induction Hp as [|[p tpl] ps H Hp IH]; [reflexivity|].
  rewrite fold_left_cons.
  assert (E : applyPass s (p, tpl) = s); [|rewrite E; exact IH].
  cbn [fst] in H. unfold inert in H.
  assert (G : startsWith [chr "*"] (litPrefix p)
              || startsWith [chr "["] (litPrefix p)
              || startsWith [LF] (litPrefix p)
              || startsWith (js "</u") (litPrefix p) = true ->
              applyPass s (p, tpl) = s).
  { intros G. repeat (apply orb_true_iff in G as [G|G]).
    - eapply pass_lacking; eassumption.
    - eapply pass_lacking; eassumption.
    - eapply pass_lacking; [exact G | apply oneLine_lacks_LF, L].
    - eapply pass_absent; eassumption. }
  destruct p as [|[k| | | | | |] p]; try (apply G; exact H).
  destruct p as [|[[x| | | |]| | | | | |] p]; try (apply G; exact H).
  apply pass_anchored; [reflexivity| |exact L].
  destruct s as [|c s]; [reflexivity|].
  apply exec_anchored_other.
  apply orb_true_iff in H as [H|H]; apply N.eqb_eq in H; subst x.
  - simpl in H1. rewrite andb_true_r in H1. rewrite N.eqb_sym. exact H1.
  - simpl in H2. rewrite andb_true_r in H2. rewrite N.eqb_sym. exact H2.
Qed.

Ltac lining :=
  unfold element; rewrite ?oneLine_app;
  repeat (apply andb_true_iff; split); try assumption; reflexivity.

Ltac settle :=
  rewrite markdown_passes_settled;
  [ | reflexivity | reflexivity | lining | unfold element; lacking | unfold element; lacking
    | absent (chr "<") | repeat (constructor; [reflexivity|]); constructor ].

Lemma heading_to_html k t :
  In k [1; 2; 3] -> plainText t = true ->
  convertMarkdownToHTML (hashes k ++ js " " ++ t) = element (headingTag k) t.
Proof.
  intros Hk Hp.
  destruct (plainText_parts _ Hp) as (L & A & B & C & D).
  rewrite convertMarkdownToHTML_passes
    by (destruct Hk as [<-|[<-|[<-|[]]]]; apply truthy_trim_head; reflexivity).
  unfold markdownToHtmlPasses.
  destruct Hk as [<-|[<-|[<-|[]]]]; cbn [headingTag].
  - change (hashes 1) with (js "#").
    rewrite fold_left_cons, pass_heading by (discriminate || lining).
    cbn [subst]. rewrite group1_heading, app_nil_r.
    change (js "<h1>" ++ t ++ js "</h1>") with (element "h1" t).
    settle. reflexivity.
  - change (hashes 2) with (js "##").
    rewrite fold_left_cons, pass_anchored by (reflexivity || lining).
    rewrite fold_left_cons, pass_heading by (discriminate || lining).
    cbn [subst]. rewrite group1_heading, app_nil_r.
    change (js "<h2>" ++ t ++ js "</h2>") with (element "h2" t).
    settle. reflexivity.
  - change (hashes 3) with (js "###").
    rewrite fold_left_cons, pass_anchored by (reflexivity || lining).
    rewrite fold_left_cons, pass_anchored by (reflexivity || lining).
    rewrite fold_left_cons, pass_heading by (discriminate || lining).
    cbn [subst]. rewrite group1_heading, app_nil_r.
    change (js "<h3>" ++ t ++ js "</h3>") with (element "h3" t).
    settle. reflexivity.
Qed.

(** A heading of level 1, 2 or 3 around a plain title (one line, none of
    the characters the converters look for, not empty, no whitespace at
    its end) becomes the Markdown heading of the same level with the same
    title, and that Markdown becomes the heading again: the element
    survives the round trip unchanged. *)
Theorem heading_round_trip_plain k t :
  In k [1; 2; 3] -> plainText t = true -> t <> [] -> trimEnd t = t ->
  convertHTMLToMarkdown (element (headingTag k) t) = hashes k ++ js " " ++ t
  /\ convertMarkdownToHTML (hashes k ++ js " " ++ t)
     = element (headingTag k) t
  /\ convertMarkdownToHTML (convertHTMLToMarkdown (element (headingTag k) t))
     = element (headingTag k) t.
Proof.
  intros Hk Hp Hn He.
  pose proof (heading_to_markdown Hk Hp Hn He) as A.
  pose proof (heading_to_html t Hk Hp) as B.
  rewrite A. repeat split; assumption.
Qed.

Lemma heading_round_trip_plain_witness :
  convertMarkdownToHTML (convertHTMLToMarkdown (js "<h2>A title</h2>"))
  = js "<h2>A title</h2>".
Proof.
  refine (proj2 (proj2 (@heading_round_trip_plain 2 (js "A title")
                          _ eq_refl _ eq_refl))).
  - right. left. reflexivity.
  - discriminate.
Defined.

End ElementFacts.

(** ** Bold and italic spans *)

Module EmphasisFacts.

Import Codec.
Import RegexFacts PlaceholderFacts HostFacts ProjectorFacts ReplaceFacts GroupFacts CodecFacts ElementFacts.

Lemma trim_wrapped c a d :
  isWhiteSpace c = false -> isWhiteSpace d = false ->
  trim ((c :: a) ++ [d]) = (c :: a) ++ [d].
Proof.
  intros Hc Hd.
  change ((c :: a) ++ [d]) with (c :: a ++ [d]).
  apply trim_fixed; [exact Hc|].
  apply (@trimEnd_app_fixed (c :: a) [d]); [discriminate|].
  unfold trimEnd. simpl. rewrite Hd. reflexivity.
Qed.

(** The pass of the bold or italic pattern on a text between two
    markers. *)
Lemma exec_reStars m t r :
  oneLine t = true ->
  exec (Many true CDot :: GClose 1 :: litS (js m))
       (prevAfter (prevAfter None (js m)) t) (js m)
       (List.length (js m) + List.length t)
       [(1, (List.length (js m), List.length (js m)))] = Some r ->
  exec (reStars m) None (js m ++ t ++ js m) 0 [] = Some r.
Proof.
  intros L H. unfold reStars, lit.
  change (litS (js m) ++ [GOpen 1; Many true CDot; GClose 1] ++ litS (js m))
    with (litS (js m) ++ GOpen 1 :: Many true CDot :: GClose 1 :: litS (js m)).
  rewrite exec_litS_read, exec_gopen.
  apply exec_greedy_run; [exact L | exact H].
Qed.

Lemma pass_bold tpl t :
  oneLine t = true ->
  applyPass (js "**" ++ t ++ js "**") (reStars "**", tpl)
  = subst tpl (js "**" ++ t ++ js "**")
          [(1, (2, 2 + List.length t)); (1, (2, 2))].
Proof.
  intros L. unfold applyPass. cbn [fst snd].
  change (js "**" ++ t ++ js "**") with (chr "*" :: (chr "*" :: t) ++ js "**").
  apply replaceAll_whole; [|reflexivity].
  change (chr "*" :: (chr "*" :: t) ++ js "**") with (js "**" ++ t ++ js "**").
  erewrite exec_reStars; [| exact L | reflexivity].
  f_equal. f_equal. rewrite length_app. simpl. lia.
Qed.

Lemma pass_italic tpl t :
  oneLine t = true ->
  applyPass (js "*" ++ t ++ js "*") (reStars "*", tpl)
  = subst tpl (js "*" ++ t ++ js "*")
          [(1, (1, 1 + List.length t)); (1, (1, 1))].
Proof.
  intros L. unfold applyPass. cbn [fst snd].
  change (js "*" ++ t ++ js "*") with (chr "*" :: t ++ js "*").
  apply replaceAll_whole; [|reflexivity].
  change (chr "*" :: t ++ js "*") with (js "*" ++ t ++ js "*").
  erewrite exec_reStars; [| exact L | reflexivity].
  f_equal. f_equal. rewrite length_app. simpl. lia.
Qed.

Lemma group1_marked m t k rest :
  k = List.length (js m) ->
  group (js m ++ t ++ js m) ((1, (k, k + List.length t)) :: rest) 1 = t.
Proof.
  intros ->. eapply group_read; reflexivity.
Qed.

Lemma no_double_star t :
  t <> [] -> lacks (chr "*") t = true ->
  indexOf (js "**") (js "*" ++ t ++ js "*") = None.
Proof.
  intros Hn H. destruct t as [|c t]; [congruence|].
  pose proof H as H'. unfold lacks in H'. simpl in H'.
  apply andb_true_iff in H' as [Hc _]. apply negb_true_iff in Hc.
  change (js "*" ++ (c :: t) ++ js "*") with (chr "*" :: (c :: t) ++ js "*").
  change (indexOf (js "**") (chr "*" :: (c :: t) ++ js "*"))
    with (if startsWith (js "**") (chr "*" :: (c :: t) ++ js "*") then Some 0
          else option_map S (indexOf (js "**") ((c :: t) ++ js "*"))).
  replace (startsWith (js "**") (chr "*" :: (c :: t) ++ js "*")) with false
    by (simpl; rewrite Hc; reflexivity).
  rewrite (@indexOf_skip _ _ _ (chr "*")) by (reflexivity || assumption).
  reflexivity.
Qed.

Lemma emphasis_to_markdown t :
  plainText t = true ->
  convertHTMLToMarkdown (element "strong" t) = js "**" ++ t ++ js "**"
  /\ convertHTMLToMarkdown (element "b" t) = js "**" ++ t ++ js "**"
  /\ convertHTMLToMarkdown (element "em" t) = js "*" ++ t ++ js "*"
  /\ convertHTMLToMarkdown (element "i" t) = js "*" ++ t ++ js "*".
Proof.
  intros Hp. destruct (plainText_parts _ Hp) as (L & A & B & C & D).
  unfold convertHTMLToMarkdown. cbv zeta.
  repeat split;
    rewrite stripPlaceholder_absent by absent (chr "<");
    rewrite toMarkdownSubstitutions_passes; unfold htmlToMarkdownPasses.
  - do 3 skip_pass (js "<h").
    rewrite fold_left_cons, pass_element by assumption.
    cbn [subst]. rewrite group1_element. tail_done.
    rewrite app_nil_r.
    replace (js "**" ++ t ++ js "**")
      with ((chr "*" :: chr "*" :: t ++ js "*") ++ [chr "*"])
      by (simpl; rewrite <- app_assoc; reflexivity).
    apply trim_wrapped; reflexivity.
  - do 3 skip_pass (js "<h"). skip_pass (js "<s").
    rewrite fold_left_cons, pass_element by assumption.
    cbn [subst]. rewrite group1_element. tail_done.
    rewrite app_nil_r.
    replace (js "**" ++ t ++ js "**")
      with ((chr "*" :: chr "*" :: t ++ js "*") ++ [chr "*"])
      by (simpl; rewrite <- app_assoc; reflexivity).
    apply trim_wrapped; reflexivity.
  - do 3 skip_pass (js "<h"). skip_pass (js "<s"). skip_pass (js "<b").
    rewrite fold_left_cons, pass_element by assumption.
    cbn [subst]. rewrite group1_element. tail_done.
    rewrite app_nil_r.
    change (js "*" ++ t ++ js "*") with ((chr "*" :: t) ++ [chr "*"]).
    apply trim_wrapped; reflexivity.
  - do 3 skip_pass (js "<h"). skip_pass (js "<s"). skip_pass (js "<b").
    skip_pass (js "<e").
    rewrite fold_left_cons, pass_element by assumption.
    cbn [subst]. rewrite group1_element. tail_done.
    rewrite app_nil_r.
    change (js "*" ++ t ++ js "*") with ((chr "*" :: t) ++ [chr "*"]).
    apply trim_wrapped; reflexivity.
Qed.

Lemma emphasis_to_html t :
  plainText t = true -> t <> [] ->
  convertMarkdownToHTML (js "**" ++ t ++ js "**") = element "strong" t
  /\ convertMarkdownToHTML (js "*" ++ t ++ js "*") = element "em" t.
Proof.
  intros Hp Hn. destruct (plainText_parts _ Hp) as (L & A & B & C & D).
  rewrite !convertMarkdownToHTML_passes by (apply truthy_trim_head; reflexivity).
  unfold markdownToHtmlPasses. split.
  - do 3 (rewrite fold_left_cons, pass_anchored by (reflexivity || lining)).
    rewrite fold_left_cons, pass_bold by assumption.
    cbn [subst]. rewrite (@group1_marked "**") by reflexivity.
    rewrite app_nil_r.
    change (js "<strong>" ++ t ++ js "</strong>") with (element "strong" t).
    settle. reflexivity.
  - do 3 (rewrite fold_left_cons, pass_anchored by (reflexivity || lining)).
    rewrite fold_left_cons, (@pass_absent (js "**"))
      by (reflexivity || (apply no_double_star; assumption)).
    rewrite fold_left_cons, pass_italic by assumption.
    cbn [subst]. rewrite (@group1_marked "*") by reflexivity.
    rewrite app_nil_r.
    change (js "<em>" ++ t ++ js "</em>") with (element "em" t).
    settle. reflexivity.
Qed.

(** One bold or italic span around a plain text: [strong] and [b] both
    become the Markdown [**text**], [em] and [i] both become [*text*];
    the Markdown forms become [strong] and [em], so a single span survives
    the round trip, with [b] and [i] renamed. *)
Theorem emphasis_round_trip t :
  plainText t = true -> t <> [] ->
  convertHTMLToMarkdown (element "strong" t) = js "**" ++ t ++ js "**"
  /\ convertHTMLToMarkdown (element "b" t) = js "**" ++ t ++ js "**"
  /\ convertHTMLToMarkdown (element "em" t) = js "*" ++ t ++ js "*"
  /\ convertHTMLToMarkdown (element "i" t) = js "*" ++ t ++ js "*"
  /\ convertMarkdownToHTML (js "**" ++ t ++ js "**") = element "strong" t
  /\ convertMarkdownToHTML (js "*" ++ t ++ js "*") = element "em" t
  /\ convertMarkdownToHTML (convertHTMLToMarkdown (element "b" t))
     = element "strong" t
  /\ convertMarkdownToHTML (convertHTMLToMarkdown (element "i" t))
     = element "em" t.
Proof.
  intros Hp Hn.
  destruct (emphasis_to_markdown t Hp) as (A & B & C & D).
  destruct (emphasis_to_html Hp Hn) as (E & F).
  rewrite B, D. repeat split; assumption.
Qed.

Lemma emphasis_round_trip_witness :
  convertMarkdownToHTML (convertHTMLToMarkdown (js "<b>a b</b>"))
  = js "<strong>a b</strong>".
Proof.
  refine (proj1 (proj2 (proj2 (proj2 (proj2 (proj2 (proj2
            (@emphasis_round_trip (js "a b") eq_refl _))))))));
    discriminate.
Defined.

End EmphasisFacts.

(** ** Links *)

Module LinkFacts.

Import Codec.
Import RegexFacts PlaceholderFacts HostFacts ProjectorFacts ReplaceFacts GroupFacts CodecFacts ElementFacts EmphasisFacts.

Ltac len := repeat (first [rewrite !length_app | progress simpl]); lia.

Lemma exec_many_stop g k p prev c s pos cs :
  cmatch k c = false ->
  exec (Many g k :: p) prev (c :: s) pos cs = exec p prev (c :: s) pos cs.
Proof. intros H. rewrite exec_many_cons, H. reflexivity. Qed.

Lemma exec_tag_end p prev s pos cs :
  exec (Many true (CNot (chr ">")) :: litS (js ">") ++ p) prev
       (js ">" ++ s) pos cs
  = exec p (Some (chr ">")) s (S pos) cs.
Proof. reflexivity. Qed.

Lemma exec_lazy_group_end n w t :
  forall prev pos cs,
    w <> [] -> oneLine t = true ->
    indexOf w (t ++ w) = Some (List.length t) ->
    exec (Many false CDot :: GClose n :: litS w) prev (t ++ w) pos cs
    = Some (pos + List.length t + List.length w,
            (n, (match capture n cs with
                 | Some (b, _) => b
                 | None => pos + List.length t
                 end, pos + List.length t)) :: cs).
Proof.
  intros prev pos cs Hw Ht Hi.
  pose proof (@exec_lazy_group n w [] [] t
                (pos + List.length t + List.length w,
                 (n, (match capture n cs with
                      | Some (b, _) => b
                      | None => pos + List.length t
                      end, pos + List.length t)) :: cs)
                prev pos cs Hw Ht) as E.
  rewrite !app_nil_r in E. apply E; [exact Hi | reflexivity].
Qed.

Lemma indexOf_end x w t :
  lacks x t = true -> indexOf (x :: w) (t ++ x :: w) = Some (List.length t).
Proof.
  intros H. pose proof (@indexOf_first x w t [] H) as E.
  rewrite app_nil_r in E. exact E.
Qed.

Lemma exec_reAnchor attrs url text :
  lacks DQ url = true -> lacks (chr ">") attrs = true ->
  oneLine text = true -> lacks (chr "<") text = true ->
  exists cs,
    exec reAnchor None (anchorWith attrs url text) 0 []
    = Some (List.length (anchorWith attrs url text), cs)
    /\ group (anchorWith attrs url text) cs 1 = url
    /\ group (anchorWith attrs url text) cs 2 = text.
Proof.
  intros Hu Ha Lt Ht. unfold reAnchor, lit.
  eexists. split; [|split].
  - unfold anchorWith.
    rewrite exec_litS_read. cbn [app].
    rewrite exec_one. cbn [cmatch]. rewrite N.eqb_refl.
    rewrite exec_gopen.
    apply exec_greedy_run; [exact Hu|].
    rewrite exec_many_stop by (cbn [cmatch]; rewrite N.eqb_refl; reflexivity).
    rewrite exec_gclose, exec_one. cbn [cmatch]. rewrite N.eqb_refl.
    apply exec_greedy_run; [exact Ha|].
    rewrite exec_tag_end, exec_gopen.
    rewrite exec_lazy_group_end;
      [ | discriminate | exact Lt | apply (@indexOf_end (chr "<")); exact Ht ].
    f_equal. apply f_equal2; [|reflexivity].
    len.
  - unfold anchorWith.
    replace (js "<a href=" ++ [DQ] ++ url ++ [DQ] ++ attrs ++ js ">" ++ text
             ++ js "</a>")
      with ((js "<a href=" ++ [DQ]) ++ url ++ [DQ] ++ attrs ++ js ">" ++ text
            ++ js "</a>")
      by (rewrite <- !app_assoc; reflexivity).
    eapply group_read; reflexivity.
  - unfold anchorWith.
    replace (js "<a href=" ++ [DQ] ++ url ++ [DQ] ++ attrs ++ js ">" ++ text
             ++ js "</a>")
      with ((js "<a href=" ++ [DQ] ++ url ++ [DQ] ++ attrs ++ js ">") ++ text
            ++ js "</a>")
      by (rewrite <- !app_assoc; reflexivity).
    eapply group_read; [reflexivity| |].
    + len.
    + len.
Qed.

Lemma replaceAll_all p tpl s cs :
  s <> [] ->
  exec p None s 0 [] = Some (List.length s, cs) ->
  exec p (prevAfter None s) [] 0 [] = None ->
  replaceAll p tpl s = subst tpl s cs.
Proof.
  intros Hs H E. destruct s as [|c m]; [congruence|].
  apply replaceAll_whole; [exact H|].
  rewrite prevAfter_cons in E. exact E.
Qed.

Lemma exec_reLink url text :
  oneLine text = true -> lacks (chr "]") text = true ->
  oneLine url = true -> lacks (chr ")") url = true ->
  exists cs,
    exec reLink None (markdownLink url text) 0 []
    = Some (List.length (markdownLink url text), cs)
    /\ group (markdownLink url text) cs 1 = text
    /\ group (markdownLink url text) cs 2 = url.
Proof.
  intros Lt Ht Lu Hu. unfold reLink, lit.
  eexists. split; [|split].
  - unfold markdownLink.
    rewrite exec_litS_read. cbn [app]. rewrite exec_gopen.
    eapply exec_lazy_group;
      [ discriminate | exact Lt
      | apply (@indexOf_first (chr "]")); exact Ht | ].
    rewrite exec_gopen.
    rewrite exec_lazy_group_end;
      [ | discriminate | exact Lu | apply (@indexOf_end (chr ")")); exact Hu ].
    f_equal. apply f_equal2; [|reflexivity]. len.
  - unfold markdownLink. eapply group_read; reflexivity.
  - unfold markdownLink.
    replace (js "[" ++ text ++ js "](" ++ url ++ js ")")
      with ((js "[" ++ text ++ js "](") ++ url ++ js ")")
      by (rewrite <- !app_assoc; reflexivity).
    eapply group_read; [reflexivity| |]; len.
Qed.

Ltac absent_in x :=
  unfold anchor, anchorWith, markdownLink, element;
  repeat (simpl; rewrite (@indexOf_skip _ _ _ x) by (reflexivity || assumption));
  reflexivity.

Lemma anchor_to_markdown attrs url text :
  plainText url = true -> plainText text = true ->
  lacks DQ url = true ->
  lacks (chr ">") attrs = true -> lacks (chr "<") attrs = true ->
  convertHTMLToMarkdown (anchorWith attrs url text) = markdownLink url text.
Proof.
  intros Pu Pt Qu Ga La.
  destruct (plainText_parts _ Pu) as (Lu & Au & Bu & Cu & Du).
  destruct (plainText_parts _ Pt) as (Lt & At & Bt & Ct & Dt).
  unfold convertHTMLToMarkdown. cbv zeta.
  rewrite stripPlaceholder_absent by absent_in (chr "<").
  rewrite toMarkdownSubstitutions_passes. unfold htmlToMarkdownPasses.
  do 3 (rewrite fold_left_cons, (@pass_absent (js "<h"))
         by (reflexivity || absent_in (chr "<"))).
  rewrite fold_left_cons, (@pass_absent (js "<s"))
    by (reflexivity || absent_in (chr "<")).
  rewrite fold_left_cons, (@pass_absent (js "<b"))
    by (reflexivity || absent_in (chr "<")).
  rewrite fold_left_cons, (@pass_absent (js "<e"))
    by (reflexivity || absent_in (chr "<")).
  rewrite fold_left_cons, (@pass_absent (js "<i"))
    by (reflexivity || absent_in (chr "<")).
  destruct (@exec_reAnchor attrs url text Qu Ga Lt At) as (cs & E & G1 & G2).
  rewrite fold_left_cons. unfold applyPass at 2. cbn [fst snd].
  rewrite (@replaceAll_all _ _ _ cs); [| discriminate | exact E | reflexivity].
  cbn [subst]. rewrite G1, G2.
  rewrite app_nil_r.
  change (js "[" ++ text ++ js "](" ++ url ++ js ")")
    with (markdownLink url text).
  rewrite passes_markup_free;
    [ | repeat (constructor; [reflexivity|]); constructor
      | unfold markdownLink; lacking | unfold markdownLink; lacking ].
  unfold markdownLink.
  replace (js "[" ++ text ++ js "](" ++ url ++ js ")")
    with ((chr "[" :: text ++ js "](" ++ url) ++ [chr ")"])
    by (simpl; rewrite <- !app_assoc; reflexivity).
  apply trim_wrapped; reflexivity.
Qed.

Lemma link_to_anchor url text :
  plainText url = true -> plainText text = true ->
  lacks (chr ")") url = true -> lacks (chr "]") text = true ->
  convertMarkdownToHTML (markdownLink url text) = anchor url text.
Proof.
  intros Pu Pt Hu Ht.
  destruct (plainText_parts _ Pu) as (Lu & Au & Bu & Cu & Du).
  destruct (plainText_parts _ Pt) as (Lt & At & Bt & Ct & Dt).
  rewrite convertMarkdownToHTML_passes by (apply truthy_trim_head; reflexivity).
  unfold markdownToHtmlPasses.
  assert (L : oneLine (markdownLink url text) = true)
    by (unfold markdownLink; rewrite !oneLine_app;
        repeat (apply andb_true_iff; split); try assumption; reflexivity).
  do 3 (rewrite fold_left_cons, pass_anchored by (reflexivity || exact L)).
  do 2 (rewrite fold_left_cons, (@pass_lacking (chr "*"))
         by (reflexivity || (unfold markdownLink; lacking))).
  destruct (@exec_reLink url text Lt Ht Lu Hu) as (cs & E & G1 & G2).
  rewrite fold_left_cons. unfold applyPass at 2. cbn [fst snd].
  rewrite (@replaceAll_all _ _ _ cs); [| discriminate | exact E | reflexivity].
  cbn [subst]. rewrite G1, G2.
  rewrite app_nil_r.
  change (js "<a href=" ++ js QUOTE ++ url ++ js QUOTE ++ js ">" ++ text
          ++ js "</a>")
    with (anchor url text).
  rewrite markdown_passes_settled;
    [ reflexivity | reflexivity | reflexivity
    | unfold anchor, anchorWith; rewrite !oneLine_app;
      repeat (apply andb_true_iff; split); try assumption; reflexivity
    | unfold anchor, anchorWith; lacking
    | unfold anchor, anchorWith; lacking
    | absent_in (chr "<")
    | repeat (constructor; [reflexivity|]); constructor ].
Qed.

Lemma startsWith_both a :
  forall b, startsWith a b = true -> startsWith b a = true -> a = b.
Proof.
  induction a as [|x a IH]; intros [|y b] H1 H2; simpl in *;
    try reflexivity; try discriminate.
  apply andb_true_iff in H1 as [E H1]. apply andb_true_iff in H2 as [_ H2].
  apply N.eqb_eq in E. subst y. f_equal. apply IH; assumption.
Qed.

Lemma createLink_inserts url text :
  truthy (trim url) = true -> truthy text = true -> text <> js "null" ->
  Host.createLink url (Some text) = Host.InsertHTML (Host.linkHTML url text).
Proof.
  intros Tu Tt N. unfold Host.createLink.
  rewrite Tu, (trim_truthy url Tu), Tt. cbn [negb orb andb].
  destruct (startsWith text (js "null") && startsWith (js "null") text)
    eqn:E; [|reflexivity].
  apply andb_true_iff in E as [E1 E2].
  exfalso. apply N. apply startsWith_both; assumption.
Qed.

(** The link the page builds in [createLink], for a plain address and a
    plain text (the address without double quote or closing parenthesis,
    the text without closing bracket): [convertHTMLToMarkdown] turns it
    into [[text](address)], and [convertMarkdownToHTML] turns that into
    the anchor with the [href] alone, on which the round trip is then the
    identity; the [target] and [style] attributes are gone. *)
Theorem created_link_round_trip url text :
  plainText url = true -> plainText text = true ->
  lacks DQ url = true -> lacks (chr ")") url = true ->
  lacks (chr "]") text = true ->
  (truthy (trim url) = true -> truthy text = true -> text <> js "null" ->
   Host.createLink url (Some text)
   = Host.InsertHTML (Host.linkHTML url text))
  /\ convertHTMLToMarkdown (Host.linkHTML url text) = markdownLink url text
  /\ convertMarkdownToHTML (markdownLink url text) = anchor url text
  /\ convertHTMLToMarkdown (anchor url text) = markdownLink url text.
Proof.
  intros Pu Pt Qu Hu Ht. split; [|split; [|split]].
  - apply createLink_inserts.
  - apply (@anchor_to_markdown Host.linkAttributes); try assumption;
      reflexivity.
  - apply link_to_anchor; assumption.
  - apply (@anchor_to_markdown []); try assumption; reflexivity.
Qed.

Lemma created_link_round_trip_witness :
  convertMarkdownToHTML
    (convertHTMLToMarkdown
       (Host.linkHTML (js "https://example.org/a?b=1") (js "the site")))
  = anchor (js "https://example.org/a?b=1") (js "the site").
Proof.
  pose proof (@created_link_round_trip (js "https://example.org/a?b=1")
                (js "the site") eq_refl eq_refl eq_refl eq_refl eq_refl)
    as (_ & A & B & _).
  rewrite A. exact B.
Defined.

End LinkFacts.

(** ** Plain text, and the shape of the results *)

Module PlainFacts.

Import Codec.
Import RegexFacts PlaceholderFacts HostFacts ProjectorFacts ReplaceFacts GroupFacts CodecFacts ElementFacts EmphasisFacts LinkFacts.

Lemma trimStart_idempotent s : trimStart (trimStart s) = trimStart s.
Proof.
  induction s as [|c s IH]; [reflexivity|]. simpl.
  destruct (isWhiteSpace c) eqn:E; [exact IH|]. simpl. rewrite E. reflexivity.
Qed.

Lemma trimEnd_idempotent s : trimEnd (trimEnd s) = trimEnd s.
Proof.
  unfold trimEnd. rewrite rev_involutive, trimStart_idempotent. reflexivity.
Qed.

Lemma trim_idempotent s : trim (trim s) = trim s.
Proof.
  unfold trim at 1.
  assert (E : trimStart (trim s) = trim s).
  { unfold trim. pose proof (trimStart_head s) as H.
    destruct (trimStart s) as [|c u]; [reflexivity|].
    rewrite trimEnd_cons by exact H. apply trimStart_fixed, H. }
  rewrite E. unfold trim. apply trimEnd_idempotent.
Qed.

Lemma forallb_trimStart (f : char -> bool) s :
  forallb f s = true -> forallb f (trimStart s) = true.
Proof.
  induction s as [|c s IH]; [reflexivity|]. simpl. intros H.
  apply andb_true_iff in H as [H1 H2].
  destruct (isWhiteSpace c); [apply IH, H2|]. simpl. rewrite H1, H2.
  reflexivity.
Qed.

Lemma forallb_trim (f : char -> bool) s :
  forallb f s = true -> forallb f (trim s) = true.
Proof.
  intros H. unfold trim, trimEnd. rewrite forallb_rev.
  apply forallb_trimStart. rewrite forallb_rev.
  apply forallb_trimStart, H.
Qed.

(** The last substitution of [convertMarkdownToHTML] leaves no line
    feed. *)
Lemma no_line_feed_left s :
  lacks LF (replaceAll [One (CChar LF)] [Txt "<br>"] s) = true.
Proof.
  rewrite replaceAll_char. unfold lacks.
  induction s as [|c s IH]; [reflexivity|]. cbn [flat_map].
  rewrite forallb_app. apply andb_true_iff. split; [|exact IH].
  destruct (N.eqb c LF) eqn:E; [reflexivity|]. simpl. rewrite E. reflexivity.
Qed.

(** Whatever the input, the Markdown that [convertHTMLToMarkdown] returns
    has no whitespace at either end (trimming it again changes nothing),
    and the HTML that [convertMarkdownToHTML] returns holds no line feed;
    blank Markdown gives the empty string. *)
Theorem converter_outputs h md :
  trim (convertHTMLToMarkdown h) = convertHTMLToMarkdown h
  /\ lacks LF (convertMarkdownToHTML md) = true
  /\ (trim md = [] -> convertMarkdownToHTML md = []).
Proof.
  split; [apply trim_idempotent|]. split.
  - unfold convertMarkdownToHTML.
    destruct (negb (truthy (trim md))); [reflexivity|].
    apply no_line_feed_left.
  - intros H. unfold convertMarkdownToHTML. rewrite H. reflexivity.
Qed.

Lemma plain_markdown_to_html m :
  plainText m = true -> truthy (trim m) = true ->
  startsWith [chr "#"] m = false -> startsWith [chr "-"] m = false ->
  convertMarkdownToHTML m = m.
Proof.
  intros Pm T H1 H2.
  destruct (plainText_parts _ Pm) as (L & A & B & C & D).
  rewrite convertMarkdownToHTML_passes by exact T.
  apply markdown_passes_settled; try assumption.
  - rewrite <- (app_nil_r m).
    rewrite (@indexOf_skip _ _ _ (chr "<")) by (reflexivity || assumption).
    reflexivity.
  - unfold markdownToHtmlPasses.
    repeat (constructor; [reflexivity|]). constructor.
Qed.

(** Text without markup characters goes through both converters
    unchanged, apart from the trimming. *)
Theorem plain_text_round_trip t :
  plainText t = true -> truthy (trim t) = true ->
  startsWith [chr "#"] (trim t) = false ->
  startsWith [chr "-"] (trim t) = false ->
  convertHTMLToMarkdown t = trim t
  /\ convertMarkdownToHTML (trim t) = trim t
  /\ convertMarkdownToHTML (convertHTMLToMarkdown t) = trim t.
Proof.
  intros Pt T H1 H2.
  destruct (plainText_parts _ Pt) as (L & A & B & C & D).
  assert (E1 : convertHTMLToMarkdown t = trim t)
    by (apply plain_text_to_markdown; assumption).
  assert (E2 : convertMarkdownToHTML (trim t) = trim t).
  { apply plain_markdown_to_html; try assumption.
    - apply forallb_trim, Pt.
    - rewrite trim_idempotent. exact T. }
  rewrite E1. repeat split; assumption.
Qed.

Lemma plain_text_round_trip_witness :
  convertMarkdownToHTML (convertHTMLToMarkdown (js "  Hello, world - again  "))
  = js "Hello, world - again".
Proof.
  exact (proj2 (proj2 (@plain_text_round_trip (js "  Hello, world - again  ")
                         eq_refl eq_refl eq_refl eq_refl))).
Defined.

End PlainFacts.

(** ** The text projection of the HTML view *)

Module TagFacts.

Import Codec.
Import RegexFacts PlaceholderFacts HostFacts ProjectorFacts ReplaceFacts GroupFacts CodecFacts ElementFacts EmphasisFacts LinkFacts.

Lemma lacks_or_first x s :
  lacks x s = true
  \/ exists u r, s = u ++ x :: r /\ lacks x u = true.
Proof.
  induction s as [|c s IH]; [left; reflexivity|].
  destruct (N.eqb c x) eqn:E.
  - right. apply N.eqb_eq in E. subst c. exists [], s. split; reflexivity.
  - destruct IH as [H|(u & r & -> & H)].
    + left. unfold lacks. simpl. rewrite E. exact H.
    + right. exists (c :: u), r. split; [reflexivity|].
      unfold lacks. simpl. rewrite E. exact H.
Qed.

Lemma exec_star_none x s :
  forall prev pos cs,
    lacks x s = true ->
    exec (Many true (CNot x) :: litS [x]) prev s pos cs = None.
Proof.
  induction s as [|c s IH]; intros prev pos cs H; [reflexivity|].
  unfold lacks in H. simpl in H. apply andb_true_iff in H as [Hc H].
  rewrite exec_many_cons. cbn [cmatch]. rewrite Hc.
  rewrite IH by exact H. cbn [litS map].
  rewrite exec_one. cbn [cmatch]. apply negb_true_iff in Hc. rewrite Hc.
  reflexivity.
Qed.

Lemma reTag_shape :
  reTag = One (CChar (chr "<"))
          :: Many true (CNot (chr ">")) :: litS [chr ">"].
Proof. reflexivity. Qed.

(** The tag pattern at a position: from [<] to the first [>] after it. *)
Lemma exec_reTag_open prev u r :
  lacks (chr ">") u = true ->
  exec reTag prev (chr "<" :: u ++ chr ">" :: r) 0 []
  = Some (S (S (List.length u)), []).
Proof.
  intros H. rewrite reTag_shape, exec_one. cbn [cmatch].
  rewrite N.eqb_refl.
  apply exec_greedy_run; [exact H|].
  rewrite exec_many_stop by reflexivity.
  cbn [litS map]. rewrite exec_one. cbn [cmatch]. rewrite N.eqb_refl.
  simpl. f_equal.
Qed.

Lemma exec_reTag_unclosed prev s :
  lacks (chr ">") s = true -> exec reTag prev (chr "<" :: s) 0 [] = None.
Proof.
  intros H. rewrite reTag_shape, exec_one. cbn [cmatch].
  rewrite N.eqb_refl. apply exec_star_none, H.
Qed.

Lemma exec_reTag_other prev c s :
  N.eqb c (chr "<") = false -> exec reTag prev (c :: s) 0 [] = None.
Proof.
  intros H. rewrite reTag_shape, exec_one. cbn [cmatch]. rewrite H.
  reflexivity.
Qed.

(** With an empty replacement the result is made of characters of the
    subject. *)
Lemma erased_lacks p x s :
  forall k prev,
    lacks x s = true -> lacks x (replaceAllFrom p [] k prev s) = true.
Proof.
  induction s as [|c s IH]; intros k prev H.
  - destruct k; simpl; [|reflexivity].
    destruct (exec p prev [] 0 []) as [[e cs]|]; reflexivity.
  - unfold lacks in H. simpl in H. apply andb_true_iff in H as [Hc H].
    destruct k as [|k]; [|simpl; apply IH, H].
    rewrite replaceAllFrom_try.
    destruct (exec p prev (c :: s) 0 []) as [[[|e] cs]|]; cbn [subst app].
    + unfold lacks. simpl. rewrite Hc. apply IH, H.
    + apply IH, H.
    + unfold lacks. simpl. rewrite Hc. apply IH, H.
Qed.

Lemma erased_length p s :
  forall k prev,
    List.length (replaceAllFrom p [] k prev s) <= List.length s.
Proof.
  induction s as [|c s IH]; intros k prev.
  - destruct k; simpl; [|lia].
    destruct (exec p prev [] 0 []) as [[e cs]|]; simpl; lia.
  - destruct k as [|k]; [|simpl; specialize (IH k (Some c)); lia].
    rewrite replaceAllFrom_try.
    destruct (exec p prev (c :: s) 0 []) as [[[|e] cs]|]; cbn [subst app].
    + simpl. specialize (IH 0 (Some c)). lia.
    + specialize (IH e (Some c)). simpl. lia.
    + simpl. specialize (IH 0 (Some c)). lia.
Qed.

Lemma untagged s :
  forall k prev, hasNoTag (replaceAllFrom reTag [] k prev s) = true.
Proof.
  induction s as [|c s IH]; intros k prev.
  - destruct k; reflexivity.
  - destruct k as [|k]; [|simpl; apply IH].
    rewrite replaceAllFrom_try.
    destruct (N.eqb c (chr "<")) eqn:E.
    + apply N.eqb_eq in E. subst c.
      destruct (lacks_or_first (chr ">") s) as [H|(u & r & -> & H)].
      * rewrite exec_reTag_unclosed by exact H.
        cbn [hasNoTag]. rewrite N.eqb_refl, IH, andb_true_r.
        apply erased_lacks, H.
      * rewrite exec_reTag_open by exact H. cbn [subst app]. apply IH.
    + rewrite exec_reTag_other by exact E.
      cbn [hasNoTag]. rewrite E, IH. reflexivity.
Qed.

Lemma untagged_fixed s :
  forall prev, hasNoTag s = true -> replaceAllFrom reTag [] 0 prev s = s.
Proof.
  induction s as [|c s IH]; intros prev H; [reflexivity|].
  cbn [hasNoTag] in H. apply andb_true_iff in H as [Hc H].
  rewrite replaceAllFrom_fail; [rewrite IH by exact H; reflexivity|].
  destruct (N.eqb c (chr "<")) eqn:E.
  - apply N.eqb_eq in E. subst c. apply exec_reTag_unclosed, Hc.
  - apply exec_reTag_other, E.
Qed.

(** A tag at the head of the subject is dropped. *)
Lemma stripTags_tag u r prev :
  lacks (chr ">") u = true ->
  replaceAllFrom reTag [] 0 prev (chr "<" :: u ++ chr ">" :: r)
  = replaceAllFrom reTag [] 0 (Some (chr ">")) r.
Proof.
  intros H. rewrite replaceAllFrom_try, exec_reTag_open by exact H.
  cbn [subst app].
  replace (u ++ chr ">" :: r) with ((u ++ [chr ">"]) ++ r)
    by (rewrite <- app_assoc; reflexivity).
  replace (S (List.length u)) with (List.length (u ++ [chr ">"]))
    by (rewrite length_app; simpl; lia).
  rewrite replaceAllFrom_skipping, prevAfter_app. reflexivity.
Qed.

Lemma stripTags_element tag t :
  lacks (chr ">") (js tag) = true -> lacks (chr "<") t = true ->
  stripTags (element tag t) = t.
Proof.
  intros Hg Ht. unfold stripTags, replaceAll, element.
  change (js "<" ++ js tag ++ js ">" ++ t ++ js "</" ++ js tag ++ js ">")
    with (chr "<" :: js tag ++ chr ">"
          :: t ++ chr "<" :: (chr "/" :: js tag) ++ chr ">" :: []).
  rewrite stripTags_tag by exact Hg.
  rewrite (@replaceAllFrom_lacking (chr "<")) by (reflexivity || exact Ht).
  rewrite stripTags_tag by exact Hg.
  simpl. apply app_nil_r.
Qed.

(** The text projection of the HTML view: what [stripTags] returns holds
    no complete tag, so stripping again changes nothing; it is never
    longer than the source; a source without [<] is its own projection,
    and the projection of one element around a text without [<] is the
    text. *)
Theorem stripTags_projection :
  (forall h, hasNoTag (stripTags h) = true)
  /\ (forall h, stripTags (stripTags h) = stripTags h)
  /\ (forall h, Projector.countChars h <= List.length h)
  /\ (forall h, lacks (chr "<") h = true -> stripTags h = h)
  /\ (forall tag t,
         lacks (chr ">") (js tag) = true -> lacks (chr "<") t = true ->
         stripTags (element tag t) = t
         /\ Projector.countChars (element tag t) = List.length t
         /\ Projector.countWords (element tag t) = Projector.words t).
Proof.
  split; [|split; [|split; [|split]]].
  - intros h. apply untagged.
  - intros h. apply untagged_fixed, untagged.
  - intros h. apply erased_length.
  - intros h H. apply (@replaceAll_lacking (chr "<")); [reflexivity | exact H].
  - intros tag t Hg Ht. unfold Projector.countChars, Projector.countWords.
    rewrite stripTags_element by assumption. repeat split.
Qed.

End TagFacts.

(** ** Images, links and code blocks from the dialogs to the page *)

Module InsertionFacts.

Import Codec Insertion.
Import HostFacts PlainFacts LinkFacts SaveFacts.

Lemma escapeQuoteNewline_chars s :
  escapeQuoteNewline s = flat_map escapeQuoteChar s.
Proof.
  unfold escapeQuoteNewline, escapeQuote. rewrite !replaceAll_char.
  apply flat_map_twice. intros c. unfold escapeQuoteChar.
  destruct (N.eqb c (chr "'")) eqn:E1.
  - apply N.eqb_eq in E1. subst c. reflexivity.
  - cbn [flat_map]. rewrite app_nil_r. reflexivity.
Qed.

Lemma escapeQuote_one_line s :
  lacks LF s = true -> escapeQuote s = flat_map escapeQuoteChar s.
Proof.
  intros H. unfold escapeQuote. rewrite replaceAll_char.
  induction s as [|c s IH]; [reflexivity|].
  unfold lacks in H. simpl in H. apply andb_true_iff in H as [Hc H].
  cbn [flat_map]. rewrite (IH H). f_equal.
  unfold escapeQuoteChar. apply negb_true_iff in Hc. rewrite Hc. reflexivity.
Qed.

Lemma quoted_escapeQuoteChar c rest :
  calm c = true ->
  quotedFrom Host.Plain (escapeQuoteChar c ++ rest)
  = match quotedFrom Host.Plain rest with
    | Some v => Some (c :: v)
    | None => None
    end.
Proof.
  unfold calm, escapeQuoteChar. intros H.
  apply andb_true_iff in H as [H1 H2]. apply negb_true_iff in H1.
  destruct (N.eqb c (chr "'")) eqn:E1.
  - apply N.eqb_eq in E1. subst c. simpl.
    destruct (quotedFrom Host.Plain rest); reflexivity.
  - destruct (N.eqb c LF) eqn:E2.
    + apply N.eqb_eq in E2. subst c. simpl.
      destruct (quotedFrom Host.Plain rest); reflexivity.
    + rewrite orb_false_r in H2. apply negb_true_iff in H2.
      assert (E3 : N.eqb c 13 = false).
      { unfold isLineTerminator in H2.
        destruct (N.eqb c 13); [|reflexivity].
        rewrite orb_true_r in H2. discriminate. }
      cbn [app quotedFrom quotedStep]. unfold plainQuoted.
      rewrite H1, E1. change 10%N with LF. rewrite E2, E3. cbn [orb].
      destruct (quotedFrom Host.Plain rest); reflexivity.
Qed.

Lemma quoted_flat_map s :
  forallb calm s = true -> quoted (flat_map escapeQuoteChar s) = Some s.
Proof.
  unfold quoted. induction s as [|c s IH]; intros H; [reflexivity|].
  simpl in H. apply andb_true_iff in H as [Hc Hs].
  cbn [flat_map]. rewrite quoted_escapeQuoteChar by exact Hc.
  rewrite IH by exact Hs. reflexivity.
Qed.

Lemma quoted_escapeQuoteNewline s :
  forallb calm s = true -> quoted (escapeQuoteNewline s) = Some s.
Proof. rewrite escapeQuoteNewline_chars. apply quoted_flat_map. Qed.

Lemma quoted_raw_line_feed u r :
  forallb calm u = true -> lacks LF u = true ->
  quoted (escapeQuote (u ++ LF :: r)) = None.
Proof.
  unfold quoted, escapeQuote. rewrite replaceAll_char.
  induction u as [|c u IH]; intros C L; [reflexivity|].
  simpl in C. apply andb_true_iff in C as [Cc Cu].
  unfold lacks in L. simpl in L. apply andb_true_iff in L as [Lc Lu].
  apply negb_true_iff in Lc.
  change ((c :: u) ++ LF :: r) with (c :: u ++ LF :: r). cbn [flat_map].
  pose proof (quoted_escapeQuoteChar c
                (flat_map (fun c0 => if N.eqb c0 (chr "'") then js "\'"
                                     else [c0]) (u ++ LF :: r)) Cc) as Q.
  unfold escapeQuoteChar in Q. rewrite Lc in Q.
  eapply eq_trans; [exact Q|]. rewrite (IH Cu Lu). reflexivity.
Qed.

Lemma escapeQuote_line_feed s :
  forallb calm s = true -> lacks LF s = false ->
  quoted (escapeQuote s) = None.
Proof.
  intros C L.
  destruct (TagFacts.lacks_or_first LF s) as [H|(u & r & -> & H)].
  - congruence.
  - rewrite forallb_app in C. apply andb_true_iff in C as [Cu _].
    apply quoted_raw_line_feed; assumption.
Qed.

Lemma escapeQuoteNewline_truthy s :
  truthy s = true -> truthy (escapeQuoteNewline s) = true.
Proof.
  rewrite escapeQuoteNewline_chars. destruct s as [|c s]; [discriminate|].
  intros _. cbn [flat_map]. unfold escapeQuoteChar.
  destruct (N.eqb c (chr "'")); [reflexivity|].
  destruct (N.eqb c LF); reflexivity.
Qed.

Lemma evalCall_createLink url text :
  forallb calm url = true -> forallb calm text = true ->
  truthy text = true ->
  evalCall (createLink url (Some text)) = Some (Host.createLink url (Some text)).
Proof.
  intros Cu Ct Tt. unfold createLink, optionalArgument, evalCall, optionalValue.
  rewrite Tt, (escapeQuoteNewline_truthy text Tt).
  rewrite !quoted_escapeQuoteNewline by assumption. reflexivity.
Qed.

Lemma evalCall_insertImage url alt :
  forallb calm url = true -> forallb calm alt = true ->
  evalCall (insertImage url alt) = Some (Host.insertImage url alt).
Proof.
  intros Cu Ca. unfold insertImage, evalCall.
  rewrite !quoted_escapeQuoteNewline by assumption. reflexivity.
Qed.

(** The arguments of the insertion calls reach the page unchanged when
    they hold no backslash and no line terminator other than the line
    feed: the value of the string literal that [insertImage] and
    [createLink] write is the argument, and so is the one [insertCode]
    writes when the argument holds no line feed either.  With a line feed
    the literal of [insertCode] has no value, since only quotes are
    escaped there, and the script does not run. *)
Theorem quoted_arguments :
  (forall s, forallb calm s = true -> quoted (escapeQuoteNewline s) = Some s)
  /\ (forall s, forallb calm s = true -> lacks LF s = true ->
                quoted (escapeQuote s) = Some s)
  /\ (forall s, forallb calm s = true -> lacks LF s = false ->
                quoted (escapeQuote s) = None
                /\ evalCall (insertCode s) = None)
  /\ (forall url alt,
         forallb calm url = true -> forallb calm alt = true ->
         evalCall (insertImage url alt) = Some (Host.insertImage url alt))
  /\ (forall url text,
         forallb calm url = true -> forallb calm text = true ->
         truthy text = true ->
         evalCall (createLink url (Some text))
         = Some (Host.createLink url (Some text))).
Proof.
  split; [exact quoted_escapeQuoteNewline|]. split; [|split; [|split]].
  - intros s C L. rewrite (escapeQuote_one_line s L).
    apply quoted_flat_map, C.
  - intros s C L. pose proof (escapeQuote_line_feed s C L) as E.
    split; [exact E|]. unfold insertCode, evalCall. rewrite E. reflexivity.
  - exact evalCall_insertImage.
  - exact evalCall_createLink.
Qed.

(** A backslash is not escaped: a Windows path loses it on the way. *)
Example backslash_in_address :
  evalCall (insertImage (js "C:\new.png") (js "Image"))
  = Some (Host.insertImage (js "C:" ++ [LF] ++ js "ew.png") (js "Image")).
Proof. reflexivity. Qed.

(** The link dialog of the editor screen, from the two fields to the
    markup: with fields that hold no backslash and no line terminator
    other than the line feed, an address that is not blank and a text
    (or, without text, an address) other than the word [null], the page
    inserts the link to the trimmed address, labelled with the trimmed
    text, or with the address when the text is blank. *)
Theorem link_dialog linkUrl linkText :
  forallb calm linkUrl = true -> forallb calm linkText = true ->
  truthy (trim linkUrl) = true ->
  orElse (trim linkText) (trim linkUrl) <> js "null" ->
  let url := trim linkUrl in
  let text := orElse (trim linkText) url in
  Screen.confirmLink linkUrl linkText = Some (createLink url (Some text))
  /\ evalCall (createLink url (Some text))
     = Some (Host.InsertHTML (Host.linkHTML url text)).
Proof.
  intros Cu Ct Tu N. cbv zeta. split.
  - unfold Screen.confirmLink. rewrite Tu. reflexivity.
  - assert (Tt : truthy (orElse (trim linkText) (trim linkUrl)) = true)
      by (apply orElse_truthy, Tu).
    assert (Ctext : forallb calm (orElse (trim linkText) (trim linkUrl)) = true).
    { unfold orElse. destruct (truthy (trim linkText));
        apply forallb_trim; assumption. }
    rewrite evalCall_createLink;
      [ | apply forallb_trim; exact Cu | exact Ctext | exact Tt ].
    f_equal. apply createLink_inserts; [|exact Tt | exact N].
    rewrite trim_idempotent. exact Tu.
Qed.

Lemma link_dialog_witness :
  match Screen.confirmLink (js " https://example.org ") (js "") with
  | Some call => evalCall call
  | None => None
  end
  = Some (Host.InsertHTML
            (Host.linkHTML (js "https://example.org") (js "https://example.org"))).
Proof.
  pose proof (@link_dialog (js " https://example.org ") (js "")
                eq_refl eq_refl eq_refl) as H.
  cbv zeta in H. destruct H as [A B]; [discriminate|].
  rewrite A. exact B.
Defined.

(** The image dialog: the address goes to the page as typed; the page
    inserts the image, or nothing when the address is blank (the dialog
    only refuses the empty address). *)
Theorem image_dialog imageUrl :
  forallb calm imageUrl = true -> truthy imageUrl = true ->
  Screen.confirmImage imageUrl = Some (insertImage imageUrl (js "Image"))
  /\ evalCall (insertImage imageUrl (js "Image"))
     = Some (if truthy (trim imageUrl)
             then Host.InsertHTML (Host.imgHTML imageUrl (js "Image"))
             else Host.Rejected).
Proof.
  intros C T. split.
  - unfold Screen.confirmImage. rewrite T. reflexivity.
  - rewrite evalCall_insertImage by (exact C || reflexivity).
    unfold Host.insertImage. rewrite T.
    destruct (truthy (trim imageUrl)); reflexivity.
Qed.

Lemma image_dialog_witness :
  evalCall (insertImage (js "   ") (js "Image")) = Some Host.Rejected.
Proof.
  exact (proj2 (@image_dialog (js "   ") eq_refl eq_refl)).
Defined.

End InsertionFacts.

(** ** Tables, images and code blocks in the source views *)

Module MarkupFacts.

Import Codec.
Import RegexFacts PlaceholderFacts HostFacts ProjectorFacts ReplaceFacts GroupFacts CodecFacts ElementFacts EmphasisFacts LinkFacts PlainFacts TagFacts.

(** *** Patterns that ask for more than the subject holds *)

Lemma needs_other x a p :
  (forall c, a <> One (CChar c)) -> needs x (a :: p) = needs x p.
Proof.
  intros H. destruct a as [[c| | | |]| | | | | |]; try reflexivity.
  destruct (H c eq_refl).
Qed.

(** A pattern whose literal characters include [x] more often than the
    subject does cannot match. *)
Lemma exec_short x p :
  forall prev s pos cs,
    occurrences x s < needs x p -> exec p prev s pos cs = None.
Proof.
  induction p as [|a p IH]; intros prev s pos cs H; [simpl in H; lia|].
  destruct a as [k|k|g k|n|n| |].
  - destruct s as [|c s]; [reflexivity|]. rewrite exec_one.
    destruct (cmatch k c) eqn:M; [|reflexivity].
    apply IH. destruct k as [d| | | |];
      try (rewrite needs_other in H by discriminate;
           cbn [occurrences] in H; lia).
    cbn [cmatch] in M. apply N.eqb_eq in M. subst d.
    cbn [needs occurrences] in H. lia.
  - rewrite needs_other in H by discriminate.
    destruct s as [|c s]; simpl; [apply IH, H|].
    assert (T : occurrences x s < needs x p)
      by (cbn [occurrences] in H; lia).
    destruct (cmatch k c); rewrite ?(IH _ s) by exact T; apply IH, H.
  - rewrite needs_other in H by discriminate.
    revert prev pos H. induction s as [|c s IHs]; intros prev pos H.
    + rewrite exec_many_nil. apply IH, H.
    + rewrite exec_many_cons.
      assert (T : occurrences x s < needs x p)
        by (cbn [occurrences] in H; lia).
      rewrite (IHs _ _ T), (IH prev (c :: s)) by exact H.
      destruct (cmatch k c), g; reflexivity.
  - rewrite needs_other in H by discriminate. simpl. apply IH, H.
  - rewrite needs_other in H by discriminate. simpl. apply IH, H.
  - rewrite needs_other in H by discriminate. simpl.
    destruct (atBol prev); [apply IH, H | reflexivity].
  - rewrite needs_other in H by discriminate. simpl.
    destruct (atEol s); [apply IH, H | reflexivity].
Qed.

Lemma replaceAllFrom_short x p t s :
  forall prev,
    occurrences x s < needs x p -> replaceAllFrom p t 0 prev s = s.
Proof.
  induction s as [|c s IH]; intros prev H.
  - simpl. rewrite (@exec_short x) by exact H. reflexivity.
  - rewrite replaceAllFrom_fail by (eapply exec_short; exact H).
    rewrite IH; [reflexivity|]. cbn [occurrences] in H. lia.
Qed.

Lemma pass_short x p tpl s :
  occurrences x s < needs x p -> applyPass s (p, tpl) = s.
Proof. apply replaceAllFrom_short. Qed.

Lemma occurrences_app x a b :
  occurrences x (a ++ b) = occurrences x a + occurrences x b.
Proof.
  induction a as [|c a IH]; [reflexivity|].
  cbn [app occurrences]. rewrite IH. lia.
Qed.

Lemma occurrences_lacks x s : lacks x s = true -> occurrences x s = 0.
Proof.
  induction s as [|c s IH]; [reflexivity|].
  unfold lacks. simpl. intros H. apply andb_true_iff in H as [Hc H].
  apply negb_true_iff in Hc. rewrite Hc. apply IH, H.
Qed.

Lemma applyPass_reTag s : applyPass s (reTag, []) = stripTags s.
Proof. reflexivity. Qed.

(** *** Subjects whose tags all start alike *)

Lemma followed_app x ok a b :
  followed x ok a = true -> followed x ok b = true ->
  followed x ok (a ++ b) = true.
Proof.
  intros Ha Hb. induction a as [|c a IH]; [exact Hb|].
  cbn [followed] in Ha. apply andb_true_iff in Ha as [Hc Ha].
  cbn [app followed]. rewrite (IH Ha), andb_true_r.
  destruct (N.eqb c x); [|reflexivity].
  destruct a as [|d a]; [discriminate | exact Hc].
Qed.

Lemma followed_concat x ok a n :
  followed x ok a = true -> followed x ok (List.concat (repeat a n)) = true.
Proof.
  intros H. induction n as [|n IH]; [reflexivity|].
  cbn [repeat List.concat]. apply followed_app; assumption.
Qed.

Lemma followed_absent x ok y w s :
  followed x ok s = true -> ok y = false ->
  indexOf (x :: y :: w) s = None.
Proof.
  intros H Hy. induction s as [|c s IH]; [reflexivity|].
  cbn [followed] in H. apply andb_true_iff in H as [Hc H].
  cbn [indexOf startsWith]. rewrite (IH H).
  destruct (N.eqb c x); [|reflexivity].
  destruct s as [|d s]; [discriminate|].
  cbn [startsWith]. destruct (N.eqb d y) eqn:E; [|reflexivity].
  apply N.eqb_eq in E. subst d. rewrite Hy in Hc. discriminate.
Qed.

(** *** The table *)


Lemma cellsLoop_eq n :
  forall acc,
    Host.cellsLoop n acc = acc ++ List.concat (repeat Host.cellHTML n).
Proof.
  induction n as [|n IH]; intros acc; cbn [Host.cellsLoop repeat List.concat].
  - symmetry. apply app_nil_r.
  - rewrite IH, <- app_assoc. reflexivity.
Qed.

Lemma rowsLoop_eq r c :
  forall acc,
    Host.rowsLoop r c acc
    = acc ++ List.concat (repeat (Host.rowHTML c) r).
Proof.
  induction r as [|r IH]; intros acc;
    cbn [Host.rowsLoop repeat List.concat].
  - symmetry. apply app_nil_r.
  - rewrite IH, cellsLoop_eq. unfold Host.rowHTML.
    rewrite <- !app_assoc. reflexivity.
Qed.

(** The loops write the opening tag, the rows and the closing tag. *)
Lemma tableHTML_eq r c :
  Host.tableHTML r c
  = Host.tableOpen ++ List.concat (repeat (Host.rowHTML c) r)
    ++ js "</table>".
Proof.
  unfold Host.tableHTML. rewrite rowsLoop_eq, <- app_assoc. reflexivity.
Qed.

Lemma table_tags r c :
  followed (chr "<") Host.inTableTag (Host.tableHTML r c) = true.
Proof.
  rewrite tableHTML_eq.
  apply followed_app; [reflexivity|].
  apply followed_app; [|reflexivity].
  apply followed_concat. unfold Host.rowHTML.
  apply followed_app; [reflexivity|].
  apply followed_app; [|reflexivity].
  apply followed_concat. reflexivity.
Qed.

Lemma pass_table y p tpl r c :
  startsWith [chr "<"; y] (litPrefix p) = true ->
  Host.inTableTag y = false ->
  applyPass (Host.tableHTML r c) (p, tpl) = Host.tableHTML r c.
Proof.
  intros Hp Hy. apply (@pass_absent [chr "<"; y]); [exact Hp|].
  apply (@followed_absent _ Host.inTableTag); [apply table_tags | exact Hy].
Qed.

Lemma strip_tag_text u t prev rest :
  lacks (chr ">") u = true -> lacks (chr "<") t = true ->
  replaceAllFrom reTag [] 0 prev (chr "<" :: u ++ chr ">" :: t ++ rest)
  = t ++ replaceAllFrom reTag [] 0 (prevAfter (Some (chr ">")) t) rest.
Proof.
  intros Hu Ht. rewrite stripTags_tag by exact Hu.
  apply (@replaceAllFrom_lacking (chr "<")); [reflexivity | exact Ht].
Qed.

Lemma strip_cell prev rest :
  replaceAllFrom reTag [] 0 prev (Host.cellHTML ++ rest)
  = js "&nbsp;" ++ replaceAllFrom reTag [] 0 (Some (chr ">")) rest.
Proof.
  change (Host.cellHTML ++ rest)
    with (chr "<"
          :: (js "td style=" ++ [DQ]
              ++ js "border: 1px solid #e0e0e0; padding: 8px;" ++ [DQ])
          ++ chr ">" :: js "&nbsp;" ++ chr "<" :: js "/td" ++ chr ">" :: rest).
  rewrite strip_tag_text by reflexivity.
  rewrite stripTags_tag by reflexivity. reflexivity.
Qed.

Lemma blanks_add a b : Host.blanks (a + b) = Host.blanks a ++ Host.blanks b.
Proof. unfold Host.blanks. rewrite repeat_app, concat_app. reflexivity. Qed.

Lemma strip_cells n :
  forall rest,
    replaceAllFrom reTag [] 0 (Some (chr ">"))
                   (List.concat (repeat Host.cellHTML n) ++ rest)
    = Host.blanks n ++ replaceAllFrom reTag [] 0 (Some (chr ">")) rest.
Proof.
  induction n as [|n IH]; intros rest; [reflexivity|].
  cbn [repeat List.concat]. rewrite <- app_assoc, strip_cell, IH.
  rewrite app_assoc. reflexivity.
Qed.

Lemma strip_row c prev rest :
  replaceAllFrom reTag [] 0 prev (Host.rowHTML c ++ rest)
  = Host.blanks c ++ replaceAllFrom reTag [] 0 (Some (chr ">")) rest.
Proof.
  unfold Host.rowHTML. rewrite <- !app_assoc.
  change (js "<tr>" ++ List.concat (repeat Host.cellHTML c)
          ++ js "</tr>" ++ rest)
    with (chr "<" :: js "tr" ++ chr ">"
          :: List.concat (repeat Host.cellHTML c)
             ++ chr "<" :: js "/tr" ++ chr ">" :: rest).
  rewrite stripTags_tag by reflexivity.
  rewrite strip_cells. rewrite stripTags_tag by reflexivity. reflexivity.
Qed.

Lemma strip_rows r c :
  forall rest,
    replaceAllFrom reTag [] 0 (Some (chr ">"))
                   (List.concat (repeat (Host.rowHTML c) r) ++ rest)
    = Host.blanks (r * c)
      ++ replaceAllFrom reTag [] 0 (Some (chr ">")) rest.
Proof.
  induction r as [|r IH]; intros rest; [reflexivity|].
  cbn [repeat List.concat Nat.mul].
  rewrite <- app_assoc, strip_row, IH, blanks_add, app_assoc. reflexivity.
Qed.

(** Without its tags a table is the entities of its cells. *)
Lemma stripTags_table r c :
  stripTags (Host.tableHTML r c) = Host.blanks (r * c).
Proof.
  unfold stripTags, replaceAll. rewrite tableHTML_eq.
  change (Host.tableOpen ++ List.concat (repeat (Host.rowHTML c) r)
          ++ js "</table>")
    with (chr "<"
          :: (js "table style=" ++ [DQ]
              ++ js "width: 100%; border-collapse: collapse; margin: 12px 0; border: 1px solid #e0e0e0;"
              ++ [DQ])
          ++ chr ">" :: List.concat (repeat (Host.rowHTML c) r)
             ++ chr "<" :: js "/table" ++ chr ">" :: []).
  rewrite stripTags_tag by reflexivity.
  rewrite strip_rows. rewrite stripTags_tag by reflexivity.
  apply app_nil_r.
Qed.

Lemma blanks_to_spaces n :
  forall prev,
    replaceAllFrom (lit "&nbsp;") [Txt " "] 0 prev (Host.blanks n)
    = repeat (chr " ") n.
Proof.
  induction n as [|n IH]; intros prev; [reflexivity|].
  change (Host.blanks (S n))
    with (chr "&" :: js "nbsp;" ++ Host.blanks n).
  rewrite (@replaceAllFrom_match _ _ prev (chr "&") (js "nbsp;")
                                 (Host.blanks n) []).
  - rewrite IH. reflexivity.
  - change (lit "&nbsp;") with (litS (js "&nbsp;") ++ []).
    change (chr "&" :: js "nbsp;" ++ Host.blanks n)
      with (js "&nbsp;" ++ Host.blanks n).
    rewrite exec_litS_read. reflexivity.
Qed.

Lemma spaces_lack x n :
  N.eqb (chr " ") x = false -> lacks x (repeat (chr " ") n) = true.
Proof.
  intros H. induction n as [|n IH]; [reflexivity|].
  unfold lacks. cbn [repeat forallb]. rewrite H. exact IH.
Qed.

Lemma trim_spaces n : trim (repeat (chr " ") n) = [].
Proof.
  unfold trim.
  assert (E : trimStart (repeat (chr " ") n) = [])
    by (induction n as [|n IH]; [reflexivity | exact IH]).
  rewrite E. reflexivity.
Qed.

Lemma table_to_markdown r c :
  convertHTMLToMarkdown (Host.tableHTML r c) = [].
Proof.
  unfold convertHTMLToMarkdown. cbv zeta.
  rewrite stripPlaceholder_absent
    by (apply (@followed_absent _ Host.inTableTag);
        [apply table_tags | reflexivity]).
  rewrite toMarkdownSubstitutions_passes. unfold htmlToMarkdownPasses.
  do 3 (rewrite fold_left_cons, (@pass_table (chr "h")) by reflexivity).
  rewrite fold_left_cons, (@pass_table (chr "s")) by reflexivity.
  rewrite fold_left_cons, (@pass_table (chr "b")) by reflexivity.
  rewrite fold_left_cons, (@pass_table (chr "e")) by reflexivity.
  rewrite fold_left_cons, (@pass_table (chr "i")) by reflexivity.
  rewrite fold_left_cons, (@pass_table (chr "a")) by reflexivity.
  rewrite fold_left_cons, (@pass_table (chr "u")) by reflexivity.
  rewrite fold_left_cons, (@pass_table (chr "o")) by reflexivity.
  rewrite fold_left_cons, (@pass_table (chr "l")) by reflexivity.
  rewrite fold_left_cons, (@pass_table (chr "p")) by reflexivity.
  rewrite fold_left_cons, (@pass_table (chr "b")) by reflexivity.
  rewrite fold_left_cons.
  rewrite applyPass_reTag.
  rewrite stripTags_table. rewrite fold_left_cons.
  change (applyPass (Host.blanks (r * c)) (lit "&nbsp;", [Txt " "]))
    with (replaceAllFrom (lit "&nbsp;") [Txt " "] 0 None
                         (Host.blanks (r * c))).
  rewrite blanks_to_spaces.
  rewrite passes_markup_free;
    [ apply trim_spaces
    | repeat (constructor; [reflexivity|]); constructor
    | apply spaces_lack; reflexivity
    | apply spaces_lack; reflexivity ].
Qed.

Lemma blanks_length n : List.length (Host.blanks n) = 6 * n.
Proof.
  induction n as [|n IH]; [reflexivity|].
  change (Host.blanks (S n)) with (js "&nbsp;" ++ Host.blanks n).
  rewrite length_app, IH. simpl. lia.
Qed.

Lemma runsFrom_solid s :
  forallb (fun c => negb (isWhiteSpace c)) s = true ->
  Projector.runsFrom true s = 0
  /\ Projector.runsFrom false s = if truthy s then 1 else 0.
Proof.
  induction s as [|c s IH]; intros H; [split; reflexivity|].
  cbn [forallb] in H. apply andb_true_iff in H as [Hc H].
  apply negb_true_iff in Hc. destruct (IH H) as [E _].
  cbn [Projector.runsFrom truthy]. rewrite Hc, E. split; reflexivity.
Qed.

Lemma blanks_solid n :
  forallb (fun c => negb (isWhiteSpace c)) (Host.blanks n) = true.
Proof.
  induction n as [|n IH]; [reflexivity|].
  change (Host.blanks (S n)) with (js "&nbsp;" ++ Host.blanks n).
  rewrite forallb_app, IH. reflexivity.
Qed.

Lemma blanks_words n :
  Projector.words (Host.blanks n) = if Nat.eqb n 0 then 0 else 1.
Proof.
  rewrite words_runs. unfold Projector.runs.
  destruct (runsFrom_solid _ (blanks_solid n)) as [_ E]. rewrite E.
  destruct n; reflexivity.
Qed.

(** A table that [insertTable] builds, in the source views: without its
    tags it is one blank entity per cell, so the HTML view counts six
    characters for each cell and one word for a table with cells; the
    Markdown text of the table is empty, and so is the HTML of that
    text. *)
Theorem inserted_table rows cols :
  stripTags (Host.tableHTML rows cols) = Host.blanks (rows * cols)
  /\ Projector.countChars (Host.tableHTML rows cols) = 6 * (rows * cols)
  /\ Projector.countWords (Host.tableHTML rows cols)
     = (if Nat.eqb (rows * cols) 0 then 0 else 1)
  /\ convertHTMLToMarkdown (Host.tableHTML rows cols) = []
  /\ convertMarkdownToHTML (convertHTMLToMarkdown (Host.tableHTML rows cols))
     = [].
Proof.
  unfold Projector.countChars, Projector.countWords, Projector.chars.
  rewrite stripTags_table, table_to_markdown.
  repeat split; [apply blanks_length | apply blanks_words].
Qed.

(** *** The image *)

Lemma followed_lacks x ok s : lacks x s = true -> followed x ok s = true.
Proof.
  induction s as [|c s IH]; [reflexivity|].
  unfold lacks. simpl. intros H. apply andb_true_iff in H as [Hc H].
  apply negb_true_iff in Hc. rewrite Hc. apply IH, H.
Qed.

Lemma imgHTML_tag url alt :
  Host.imgHTML url alt
  = chr "<"
    :: (js "img src=" ++ [DQ] ++ url ++ [DQ] ++ js " alt=" ++ [DQ] ++ alt
        ++ [DQ] ++ js " style=" ++ [DQ]
        ++ js "max-width:100%; height:auto; border-radius:6px; margin:8px 0;"
        ++ [DQ] ++ js " /")
    ++ chr ">" :: [].
Proof.
  unfold Host.imgHTML.
  repeat (rewrite <- ?app_assoc; cbn [app js map list_ascii_of_string];
          f_equal).
Qed.

Lemma image_one_tag url alt :
  lacks (chr "<") url = true -> lacks (chr "<") alt = true ->
  occurrences (chr "<") (Host.imgHTML url alt) = 1.
Proof.
  intros Hu Ha. unfold Host.imgHTML.
  rewrite !occurrences_app.
  rewrite (@occurrences_lacks _ url), (@occurrences_lacks _ alt)
    by assumption.
  reflexivity.
Qed.

Lemma image_tags url alt :
  lacks (chr "<") url = true -> lacks (chr "<") alt = true ->
  followed (chr "<") (N.eqb (chr "i")) (Host.imgHTML url alt) = true.
Proof.
  intros Hu Ha. unfold Host.imgHTML.
  repeat (apply followed_app;
          [first [reflexivity | apply followed_lacks; assumption]|]).
  reflexivity.
Qed.

Lemma stripTags_image url alt :
  lacks (chr ">") url = true -> lacks (chr ">") alt = true ->
  stripTags (Host.imgHTML url alt) = [].
Proof.
  intros Hu Ha. unfold stripTags, replaceAll.
  rewrite imgHTML_tag, stripTags_tag; [reflexivity | lacking].
Qed.

Lemma image_to_markdown url alt :
  lacks (chr "<") url = true -> lacks (chr ">") url = true ->
  lacks (chr "<") alt = true -> lacks (chr ">") alt = true ->
  convertHTMLToMarkdown (Host.imgHTML url alt) = [].
Proof.
  intros Lu Gu La Ga.
  pose proof (image_one_tag _ _ Lu La) as One.
  pose proof (image_tags _ _ Lu La) as Tags.
  unfold convertHTMLToMarkdown. cbv zeta.
  rewrite stripPlaceholder_absent
    by (apply (@followed_absent _ (N.eqb (chr "i")));
        [exact Tags | reflexivity]).
  rewrite toMarkdownSubstitutions_passes. unfold htmlToMarkdownPasses.
  do 12 (rewrite fold_left_cons, (@pass_short (chr "<"))
          by (rewrite One; apply Nat.lt_succ_diag_r)).
  rewrite fold_left_cons, (@pass_absent (js "<b"))
    by (reflexivity
        || (apply (@followed_absent _ (N.eqb (chr "i")));
            [exact Tags | reflexivity])).
  rewrite fold_left_cons.
  rewrite applyPass_reTag.
  rewrite stripTags_image by assumption. reflexivity.
Qed.

(** An image that [insertImage] puts into the page, in the source views:
    when the address and the alternative text hold neither [<] nor [>],
    the markup is one tag, so the HTML view counts no word and no
    character for it, its Markdown text is empty and the HTML of that
    text is empty: the Markdown view shows nothing of the image. *)
Theorem inserted_image url alt html :
  Host.insertImage url alt = Host.InsertHTML html ->
  lacks (chr "<") url = true -> lacks (chr ">") url = true ->
  lacks (chr "<") alt = true -> lacks (chr ">") alt = true ->
  stripTags html = []
  /\ Projector.countWords html = 0
  /\ Projector.countChars html = 0
  /\ convertHTMLToMarkdown html = []
  /\ convertMarkdownToHTML (convertHTMLToMarkdown html) = [].
Proof.
  intros E Lu Gu La Ga. unfold Host.insertImage in E.
  destruct (negb (truthy url) || negb (truthy (trim url)));
    [discriminate|].
  injection E as <-.
  unfold Projector.countWords, Projector.countChars.
  rewrite stripTags_image, image_to_markdown by assumption.
  repeat split.
Qed.

Lemma inserted_image_witness :
  convertHTMLToMarkdown (Host.imgHTML (js "http://x/y.png") (js "alt")) = [].
Proof.
  exact (proj1 (proj2 (proj2 (proj2
           (@inserted_image (js "http://x/y.png") (js "alt") _
              eq_refl eq_refl eq_refl eq_refl eq_refl))))).
Defined.

(** *** The code block *)

Lemma codeHTML_tags language :
  Insertion.codeHTML language
  = chr "<" :: (js "pre class=" ++ [DQ] ++ js "code-block" ++ [DQ])
    ++ chr ">"
    :: chr "<" :: (js "code class=" ++ [DQ] ++ js "language-" ++ language
                   ++ [DQ])
    ++ chr ">"
    :: Insertion.codeText language
    ++ chr "<" :: js "/code" ++ chr ">"
    :: chr "<" :: js "/pre" ++ chr ">" :: [].
Proof.
  unfold Insertion.codeHTML, Insertion.codeText.
  repeat (rewrite <- ?app_assoc; cbn [app js map list_ascii_of_string];
          f_equal).
Qed.

Lemma indexOf_next w c s :
  startsWith w (c :: s) = false ->
  indexOf w (c :: s) = option_map S (indexOf w s).
Proof. intros H. cbn [indexOf]. rewrite H. reflexivity. Qed.

Ltac next_char := rewrite indexOf_next by reflexivity.

Ltac skip_text :=
  rewrite (@indexOf_skip _ _ _ (chr "<"))
    by (reflexivity || (unfold Insertion.codeText; lacking)).

Ltac absent_code :=
  rewrite codeHTML_tags;
  next_char; skip_text; next_char; next_char; skip_text; next_char;
  skip_text; next_char; skip_text; next_char; next_char; skip_text;
  next_char; reflexivity.

Lemma stripTags_code language :
  lacks (chr "<") language = true -> lacks (chr ">") language = true ->
  stripTags (Insertion.codeHTML language) = Insertion.codeText language.
Proof.
  intros L G. unfold stripTags, replaceAll.
  rewrite codeHTML_tags.
  rewrite stripTags_tag by reflexivity.
  rewrite strip_tag_text;
    [ | lacking | unfold Insertion.codeText; lacking ].
  rewrite stripTags_tag by reflexivity.
  rewrite stripTags_tag by reflexivity.
  apply app_nil_r.
Qed.

Lemma codeText_ends language :
  Insertion.codeText language
  = (chr "/"
     :: js "/ Your " ++ language ++ js " code here" ++ [LF]
        ++ js "function example() {" ++ [LF] ++ js "  return " ++ [DQ]
        ++ js "Hello World" ++ [DQ] ++ js ";" ++ [LF])
    ++ [chr "}"].
Proof.
  unfold Insertion.codeText.
  repeat (rewrite <- ?app_assoc; cbn [app js map list_ascii_of_string];
          f_equal).
Qed.

Lemma code_to_markdown language :
  lacks (chr "<") language = true -> lacks (chr ">") language = true ->
  lacks (chr "&") language = true ->
  convertHTMLToMarkdown (Insertion.codeHTML language)
  = Insertion.codeText language.
Proof.
  intros L G A.
  unfold convertHTMLToMarkdown. cbv zeta.
  rewrite stripPlaceholder_absent by absent_code.
  rewrite toMarkdownSubstitutions_passes. unfold htmlToMarkdownPasses.
  do 3 (rewrite fold_left_cons, (@pass_absent (js "<h"))
         by (reflexivity || absent_code)).
  rewrite fold_left_cons, (@pass_absent (js "<s"))
    by (reflexivity || absent_code).
  rewrite fold_left_cons, (@pass_absent (js "<b"))
    by (reflexivity || absent_code).
  rewrite fold_left_cons, (@pass_absent (js "<e"))
    by (reflexivity || absent_code).
  rewrite fold_left_cons, (@pass_absent (js "<i"))
    by (reflexivity || absent_code).
  rewrite fold_left_cons, (@pass_absent (js "<a"))
    by (reflexivity || absent_code).
  rewrite fold_left_cons, (@pass_absent (js "<u"))
    by (reflexivity || absent_code).
  rewrite fold_left_cons, (@pass_absent (js "<o"))
    by (reflexivity || absent_code).
  rewrite fold_left_cons, (@pass_absent (js "<l"))
    by (reflexivity || absent_code).
  rewrite fold_left_cons, (@pass_absent (js "<p>"))
    by (reflexivity || absent_code).
  rewrite fold_left_cons, (@pass_absent (js "<b"))
    by (reflexivity || absent_code).
  rewrite fold_left_cons.
  rewrite applyPass_reTag.
  rewrite stripTags_code by assumption.
  rewrite passes_markup_free;
    [ | repeat (constructor; [reflexivity|]); constructor
      | unfold Insertion.codeText; lacking
      | unfold Insertion.codeText; lacking ].
  rewrite codeText_ends. apply trim_wrapped; reflexivity.
Qed.

(** A pattern anchored at the start of a line and asking for [x] there
    finds nothing in a text no line of which starts with [x]. *)
Lemma replaceAllFrom_no_line_start x q t s :
  forall prev,
    noLineStart x prev s = true ->
    replaceAllFrom (Bol :: One (CChar x) :: q) t 0 prev s = s.
Proof.
  induction s as [|c s IH]; intros prev H.
  - simpl. destruct (atBol prev); reflexivity.
  - cbn [noLineStart] in H. apply andb_true_iff in H as [Hc H].
    rewrite replaceAllFrom_fail; [rewrite IH by exact H; reflexivity|].
    simpl. destruct (atBol prev); [|reflexivity].
    simpl in Hc. apply negb_true_iff in Hc. rewrite Hc. reflexivity.
Qed.

Lemma pass_no_line_start x p tpl s :
  firstn 2 p = [Bol; One (CChar x)] -> noLineStart x None s = true ->
  applyPass s (p, tpl) = s.
Proof.
  intros Hp H. destruct p as [|a [|b q]]; try discriminate.
  injection Hp as -> ->. apply replaceAllFrom_no_line_start, H.
Qed.

Lemma noLineStart_app x a :
  forall prev b,
    noLineStart x prev (a ++ b)
    = noLineStart x prev a && noLineStart x (prevAfter prev a) b.
Proof.
  induction a as [|c a IH]; intros prev b; [reflexivity|].
  cbn [app noLineStart]. rewrite IH, prevAfter_cons, andb_assoc.
  reflexivity.
Qed.

Lemma noLineStart_midline x a :
  forall prev,
    atBol prev = false -> oneLine a = true -> noLineStart x prev a = true.
Proof.
  induction a as [|c a IH]; intros prev B H; [reflexivity|].
  unfold oneLine in H. cbn [forallb] in H.
  apply andb_true_iff in H as [Hc H].
  cbn [noLineStart]. rewrite B. cbn [andb negb].
  apply IH; [|exact H]. simpl. apply negb_true_iff, Hc.
Qed.

Lemma noLineStart_other x prev c s :
  N.eqb c x = false ->
  noLineStart x prev (c :: s) = noLineStart x (Some c) s.
Proof.
  intros H. cbn [noLineStart]. rewrite H, andb_false_r. reflexivity.
Qed.

(** No line of the sample code starts with a character other than the
    four it starts its lines with. *)
Lemma code_line_starts x language :
  oneLine language = true ->
  N.eqb (chr "/") x = false -> N.eqb (chr " ") x = false ->
  N.eqb (chr "f") x = false -> N.eqb (chr "}") x = false ->
  noLineStart x None (Insertion.codeText language) = true.
Proof.
  intros L H1 H2 H3 H4. unfold Insertion.codeText.
  rewrite (@noLineStart_app x (js "// Your ")),
    (@noLineStart_app x language).
  rewrite (@noLineStart_midline x language) by (reflexivity || exact L).
  generalize (prevAfter (prevAfter None (js "// Your ")) language).
  intros prev. cbn. cbn in H1, H2, H3, H4.
  rewrite H1, H2, H3, H4, andb_false_r. reflexivity.
Qed.

Lemma flat_map_lacking (x : char) (w s : str) :
  lacks x s = true ->
  @flat_map char char (fun c : N => if N.eqb c x then w else [c]) s = s.
Proof.
  induction s as [|c s IH]; [reflexivity|].
  unfold lacks. cbn [forallb flat_map]. intros H.
  apply andb_true_iff in H as [Hc H]. apply negb_true_iff in Hc.
  rewrite Hc, (IH H). reflexivity.
Qed.

Lemma code_to_html language :
  plainText language = true ->
  convertMarkdownToHTML (Insertion.codeText language)
  = Insertion.codeBreaks language.
Proof.
  intros P. destruct (plainText_parts _ P) as (L & A & B & C & D).
  assert (T : lacks (chr "<") (Insertion.codeText language) = true)
    by (unfold Insertion.codeText; lacking).
  rewrite convertMarkdownToHTML_passes
    by (apply (@truthy_trim_head (chr "/")); reflexivity).
  unfold markdownToHtmlPasses.
  do 3 (rewrite fold_left_cons, (@pass_no_line_start (chr "#"))
         by (reflexivity || (apply code_line_starts; auto))).
  do 2 (rewrite fold_left_cons, (@pass_lacking (chr "*"))
         by (reflexivity || (unfold Insertion.codeText; lacking))).
  rewrite fold_left_cons, (@pass_lacking (chr "["))
    by (reflexivity || (unfold Insertion.codeText; lacking)).
  rewrite fold_left_cons, (@pass_no_line_start (chr "-"))
    by (reflexivity || (apply code_line_starts; auto)).
  rewrite fold_left_cons, (@pass_short (chr "<"))
    by (rewrite occurrences_lacks by exact T; apply Nat.lt_succ_diag_r).
  do 2 (rewrite fold_left_cons, (@pass_lacking (chr "<"))
         by (reflexivity || exact T)).
  cbn [fold_left]. unfold applyPass. cbn [fst snd].
  rewrite replaceAll_char. unfold Insertion.codeText.
  rewrite (flat_map_app _ (js "// Your ")), (flat_map_app _ language).
  rewrite (@flat_map_lacking LF (js "<br>") language)
    by (apply oneLine_lacks_LF, L).
  reflexivity.
Qed.

(** A code block that [insertCode] builds, in the source views: for a
    language name without markup characters the text projection and the
    Markdown text are the sample code alone, and the HTML of that text is
    the sample code with [<br>] between its lines: the [pre] and [code]
    elements and the class that names the language do not come back. *)
Theorem inserted_code language :
  plainText language = true -> lacks (chr ">") language = true ->
  stripTags (Insertion.codeHTML language) = Insertion.codeText language
  /\ convertHTMLToMarkdown (Insertion.codeHTML language)
     = Insertion.codeText language
  /\ convertMarkdownToHTML
       (convertHTMLToMarkdown (Insertion.codeHTML language))
     = Insertion.codeBreaks language.
Proof.
  intros P G. destruct (plainText_parts _ P) as (L & A & B & C & D).
  rewrite stripTags_code, code_to_markdown, code_to_html by assumption.
  repeat split.
Qed.

Lemma inserted_code_witness :
  convertMarkdownToHTML
    (convertHTMLToMarkdown (Insertion.codeHTML (js "javascript")))
  = Insertion.codeBreaks (js "javascript").
Proof.
  exact (proj2 (proj2 (@inserted_code (js "javascript") eq_refl eq_refl))).
Defined.

End MarkupFacts.

(** ** The document library *)

Module LibraryFacts.

Import Storage SaveFacts.

Lemma eqbStr_neq a b : a <> b -> eqbStr a b = false.
Proof.
  intros H. destruct (eqbStr a b) eqn:E; [|reflexivity].
  apply eqbStr_eq in E. contradiction.
Qed.

Lemma documentKey_apart i j :
  i <> j -> eqbStr (documentKey i) (documentKey j) = false.
Proof.
  intros H. apply eqbStr_neq. unfold documentKey. intros E.
  apply app_inv_head in E. contradiction.
Qed.

(** The key of the recent list is never a document key. *)
Lemma document_key_apart i :
  eqbStr (documentKey i) (js "recent_documents") = false.
Proof. reflexivity. Qed.

Lemma getItem_removeItem key st : getItem key (removeItem key st) = None.
Proof.
  unfold removeItem. induction st as [|[k v] st IH]; simpl; [reflexivity|].
  destruct (eqbStr k key) eqn:E; simpl; [exact IH|].
  rewrite E. exact IH.
Qed.

Lemma getItem_removeItem_other key key' st :
  eqbStr key' key = false ->
  getItem key (removeItem key' st) = getItem key st.
Proof. apply getItem_filter_other. Qed.

Lemma recent_setItem ids st :
  getRecentDocumentsList (setItem (js "recent_documents") (IdsJson ids) st)
  = ids.
Proof. unfold getRecentDocumentsList. rewrite getItem_setItem. reflexivity. Qed.

Lemma recent_setItem_document i v st :
  getRecentDocumentsList (setItem (documentKey i) v st)
  = getRecentDocumentsList st.
Proof.
  unfold getRecentDocumentsList.
  rewrite getItem_setItem_other by apply document_key_apart. reflexivity.
Qed.

Lemma recent_removeItem_document i st :
  getRecentDocumentsList (removeItem (documentKey i) st)
  = getRecentDocumentsList st.
Proof.
  unfold getRecentDocumentsList.
  rewrite getItem_removeItem_other by apply document_key_apart. reflexivity.
Qed.

Lemma getDocument_setItem i d st :
  getDocument i (setItem (documentKey i) (DocumentJson d) st) = Some d.
Proof. unfold getDocument. rewrite getItem_setItem. reflexivity. Qed.

Lemma getDocument_setItem_other i j v st :
  j <> i -> getDocument j (setItem (documentKey i) v st) = getDocument j st.
Proof.
  intros H. unfold getDocument.
  rewrite getItem_setItem_other; [reflexivity|].
  apply documentKey_apart. congruence.
Qed.

Lemma getDocument_setRecent j v st :
  getDocument j (setItem (js "recent_documents") v st) = getDocument j st.
Proof.
  unfold getDocument.
  rewrite getItem_setItem_other by apply recent_key_apart. reflexivity.
Qed.

Lemma recent_after_save tMod tCre d st :
  getRecentDocumentsList (snd (saveDocument tMod tCre d st))
  = firstn 10 (id d :: filter (fun j => negb (eqbStr j (id d)))
                              (getRecentDocumentsList st)).
Proof.
  unfold saveDocument, updateRecentDocuments; simpl snd.
  rewrite recent_setItem, recent_setItem_document. reflexivity.
Qed.

Lemma recent_after_delete i st :
  getRecentDocumentsList (snd (deleteDocument i st))
  = filter (fun j => negb (eqbStr j i)) (getRecentDocumentsList st).
Proof.
  unfold deleteDocument, removeFromRecentDocuments; simpl snd.
  rewrite recent_setItem, recent_removeItem_document. reflexivity.
Qed.

Lemma getDocument_after_save tMod tCre d st j :
  j <> id d ->
  getDocument j (snd (saveDocument tMod tCre d st)) = getDocument j st.
Proof.
  intros H. unfold saveDocument; simpl snd.
  rewrite getDocument_updateRecent. apply getDocument_setItem_other, H.
Qed.

Lemma getDocument_after_delete i st j :
  j <> i -> getDocument j (snd (deleteDocument i st)) = getDocument j st.
Proof.
  intros H. unfold deleteDocument, removeFromRecentDocuments; simpl snd.
  rewrite getDocument_setRecent. unfold getDocument.
  rewrite getItem_removeItem_other; [reflexivity|].
  apply documentKey_apart. congruence.
Qed.

Lemma getDocument_deleted i st :
  getDocument i (snd (deleteDocument i st)) = None.
Proof.
  unfold deleteDocument, removeFromRecentDocuments; simpl snd.
  rewrite getDocument_setRecent. unfold getDocument.
  rewrite getItem_removeItem. reflexivity.
Qed.

Lemma not_in_filter_neq i (l : list str) :
  ~ In i (filter (fun j => negb (eqbStr j i)) l).
Proof.
  intros H. apply filter_In in H as [_ H].
  rewrite eqbStr_refl in H. discriminate.
Qed.

Lemma NoDup_firstn (A : Type) n :
  forall l : list A, NoDup l -> NoDup (firstn n l).
Proof.
  induction n as [|n IH]; intros [|x l] H; simpl; try constructor.
  - inversion H; subst. intros I. apply Scenarios.firstn_In in I. contradiction.
  - inversion H; subst. apply IH. assumption.
Qed.

(** Deleting a document removes its record and its entry in the recent
    list, and nothing else. *)
Theorem deleteDocument_removes i st :
  let st' := snd (deleteDocument i st) in
  fst (deleteDocument i st) = true
  /\ getDocument i st' = None
  /\ documentExists i st' = false
  /\ getRecentDocumentsList st'
     = filter (fun j => negb (eqbStr j i)) (getRecentDocumentsList st)
  /\ ~ In i (getRecentDocumentsList st')
  /\ (forall j, j <> i -> getDocument j st' = getDocument j st).
Proof.
  cbv zeta. split; [reflexivity|].
  split; [apply getDocument_deleted|].
  split; [unfold documentExists; rewrite getDocument_deleted; reflexivity|].
  split; [apply recent_after_delete|].
  split; [rewrite recent_after_delete; apply not_in_filter_neq|].
  intros j H. apply getDocument_after_delete, H.
Qed.

Lemma tidy_nil : tidy [].
Proof.
  unfold tidy. simpl. split; [constructor|]. split; [lia|]. intros i [].
Qed.

Lemma exists_after_save tMod tCre d st j :
  (j = id d \/ documentExists j st = true) ->
  documentExists j (snd (saveDocument tMod tCre d st)) = true.
Proof.
  unfold documentExists. intros H.
  destruct (list_eq_dec N.eq_dec j (id d)) as [E|E].
  - subst j. unfold saveDocument; simpl snd.
    rewrite getDocument_updateRecent, getDocument_setItem. reflexivity.
  - rewrite getDocument_after_save by exact E.
    destruct H as [H|H]; [contradiction | exact H].
Qed.

Lemma tidy_save tMod tCre d st :
  tidy st -> tidy (snd (saveDocument tMod tCre d st)).
Proof.
  intros (N & L & X). unfold tidy. rewrite recent_after_save.
  split; [|split].
  - apply NoDup_firstn. constructor.
    + apply not_in_filter_neq.
    + apply NoDup_filter, N.
  - apply firstn_le_length.
  - intros j I. apply Scenarios.firstn_In in I. apply exists_after_save.
    destruct I as [I|I]; [left; congruence|].
    right. apply filter_In in I as [I _]. apply X, I.
Qed.

Lemma filter_length_le (A : Type) (f : A -> bool) l :
  List.length (filter f l) <= List.length l.
Proof.
  induction l as [|x l IH]; simpl; [lia|]. destruct (f x); simpl; lia.
Qed.

Lemma tidy_delete i st : tidy st -> tidy (snd (deleteDocument i st)).
Proof.
  intros (N & L & X). unfold tidy. rewrite recent_after_delete.
  split; [|split].
  - apply NoDup_filter, N.
  - pose proof (filter_length_le (fun j => negb (eqbStr j i))
                                 (getRecentDocumentsList st)). lia.
  - intros j I. apply filter_In in I as [I F].
    unfold documentExists. rewrite getDocument_after_delete.
    + apply X, I.
    + intros ->. rewrite eqbStr_refl in F. discriminate.
Qed.

Lemma tidy_handleSave tId tMod tCre s st :
  tidy st -> tidy (snd (Screen.handleSave tId tMod tCre s st)).
Proof.
  intros (N & L & X). unfold tidy, Screen.handleSave; simpl snd.
  rewrite recent_setItem_document.
  split; [exact N|]. split; [exact L|].
  intros j I. unfold documentExists.
  set (k := Screen.fieldOr (Screen.document s) id (Date.toString tId)).
  destruct (list_eq_dec N.eq_dec j k) as [E|E].
  - subst j. rewrite getDocument_setItem. reflexivity.
  - rewrite getDocument_setItem_other by exact E. apply X, I.
Qed.

Lemma tidy_perform op st : tidy st -> tidy (Library.perform op st).
Proof.
  destruct op; simpl.
  - apply tidy_save.
  - apply tidy_delete.
  - apply tidy_handleSave.
Qed.

Lemma performAll_tidy ops :
  forall st, tidy st -> tidy (Library.performAll ops st).
Proof.
  induction ops as [|op ops IH]; intros st H; simpl; [exact H|].
  apply IH, tidy_perform, H.
Qed.

(** Whatever the service and the screen do to the storage, in any order
    (saves through [saveDocument], saves from the editor screen,
    deletions): the recent list names each document at most once, holds
    at most ten ids, and every id in it is the id of a stored document.
    This holds from the empty storage on, and is kept from any storage
    where it holds. *)
Theorem library_stays_tidy :
  (forall ops, tidy (Library.performAll ops []))
  /\ (forall ops st, tidy st -> tidy (Library.performAll ops st)).
Proof.
  split.
  - intros ops. apply performAll_tidy, tidy_nil.
  - intros ops st. apply performAll_tidy.
Qed.

End LibraryFacts.

(** ** Listing the documents *)

Module ListingFacts.

Import Storage SaveFacts.

Section Listing.

Variable getTime : str -> option Z.

Lemma insert_perm cmp x l : Permutation (insert cmp x l) (x :: l).
Proof.
  induction l as [|y l IH]; simpl; [reflexivity|].
  destruct (cmp x y <=? 0)%Z; [reflexivity|].
  rewrite IH. apply perm_swap.
Qed.

Lemma sort_perm cmp l : Permutation (sort cmp l) l.
Proof.
  induction l as [|x l IH]; simpl; [reflexivity|].
  unfold sort in *. simpl. rewrite insert_perm. constructor. exact IH.
Qed.

Lemma newestFirst_order a b ta tb :
  stamp getTime a = Some ta -> stamp getTime b = Some tb ->
  newestFirst getTime a b = (tb - ta)%Z.
Proof. intros A B. unfold newestFirst. rewrite A, B. reflexivity. Qed.

Lemma notOlder_trans a b c :
  notOlder getTime a b -> notOlder getTime b c -> notOlder getTime a c.
Proof.
  intros (ta & tb & A & B & L) (tb' & tc & B' & C & L').
  exists ta, tc. rewrite B in B'. injection B' as <-.
  repeat split; try assumption. lia.
Qed.

Lemma insert_sorted x l :
  stamp getTime x <> None ->
  Forall (fun v => stamp getTime v <> None) l ->
  StronglySorted (notOlder getTime) l ->
  StronglySorted (notOlder getTime) (insert (newestFirst getTime) x l).
Proof.
  intros X D S. induction S as [|y l S IH F]; simpl.
  - repeat constructor.
  - inversion D as [|? ? Y D']; subst.
    destruct (stamp getTime x) as [tx|] eqn:EX; [|congruence].
    destruct (stamp getTime y) as [ty|] eqn:EY; [|congruence].
    rewrite (newestFirst_order _ _ EX EY).
    destruct (ty - tx <=? 0)%Z eqn:C.
    + apply Z.leb_le in C.
      assert (XY : notOlder getTime x y)
        by (exists tx, ty; repeat split; try assumption; lia).
      constructor; [constructor; assumption|].
      constructor; [exact XY|].
      eapply Forall_impl; [|exact F].
      intros z Z. eapply notOlder_trans; eassumption.
    + apply Z.leb_gt in C.
      constructor; [apply IH; assumption|].
      assert (YX : notOlder getTime y x)
        by (exists ty, tx; repeat split; try assumption; lia).
      eapply Permutation_Forall; [symmetry; apply insert_perm|].
      constructor; assumption.
Qed.

Lemma sort_sorted l :
  Forall (fun v => stamp getTime v <> None) l ->
  StronglySorted (notOlder getTime) (sort (newestFirst getTime) l).
Proof.
  induction 1 as [|x l X D IH]; [constructor|].
  unfold sort in *. simpl. apply insert_sorted; [exact X| |exact IH].
  eapply Permutation_Forall; [symmetry; apply (sort_perm _ l)|exact D].
Qed.

(** The values [getAllDocuments] reads, before the sort. *)
Lemma read_In st keys v :
  In v (flat_map (fun kv : str * option Value =>
                    match snd kv with Some v => [v] | None => [] end)
                 (multiGet keys st))
  <-> exists k, In k keys /\ getItem k st = Some v.
Proof.
  unfold multiGet. rewrite in_flat_map. split.
  - intros ([k o] & I & H). apply in_map_iff in I as (k' & E & I).
    injection E as <- <-. simpl in H.
    destruct (getItem k' st) as [w|] eqn:G; [|contradiction].
    destruct H as [<-|[]]. exists k'. split; assumption.
  - intros (k & I & G). exists (k, getItem k st). split.
    + apply in_map_iff. exists k. split; [reflexivity | exact I].
    + simpl. rewrite G. left. reflexivity.
Qed.

Lemma getItem_In k st v : getItem k st = Some v -> In k (getAllKeys st).
Proof.
  unfold getAllKeys. induction st as [|[k' v'] st IH]; simpl; [discriminate|].
  destruct (eqbStr k' k) eqn:E.
  - apply eqbStr_eq in E. auto.
  - auto.
Qed.

Lemma getAllDocuments_eq st :
  getAllDocuments getTime st
  = sort (newestFirst getTime)
      (flat_map (fun kv : str * option Value =>
                   match snd kv with Some v => [v] | None => [] end)
                (multiGet (filter (startsWith DOCUMENT_PREFIX)
                                  (getAllKeys st)) st)).
Proof.
  unfold getAllDocuments.
  destruct (filter (startsWith DOCUMENT_PREFIX) (getAllKeys st));
    reflexivity.
Qed.

Lemma getAllDocuments_In st v :
  In v (getAllDocuments getTime st)
  <-> exists k, startsWith DOCUMENT_PREFIX k = true /\ getItem k st = Some v.
Proof.
  rewrite getAllDocuments_eq. split.
  - intros H. apply (Permutation_in _ (sort_perm _ _)) in H.
    apply read_In in H as (k & I & G). apply filter_In in I as [_ P].
    exists k. split; assumption.
  - intros (k & P & G).
    apply (Permutation_in _ (Permutation_sym (sort_perm _ _))).
    apply read_In. exists k. split; [|exact G].
    apply filter_In. split; [eapply getItem_In; eassumption | exact P].
Qed.

(** [getAllDocuments] lists the values stored under the keys that start
    with the document prefix, and no other; when each of them is dated
    the list runs from the newest to the oldest, and [getRecentDocument]
    returns a newest one.  [getRecentDocument] returns nothing exactly
    when no document is stored. *)
Theorem documents_newest_first st :
  (forall v, In v (getAllDocuments getTime st)
             <-> exists k, startsWith DOCUMENT_PREFIX k = true
                           /\ getItem k st = Some v)
  /\ (forall d, getDocument (id d) st = Some d ->
                In (DocumentJson d) (getAllDocuments getTime st))
  /\ (getRecentDocument getTime st = None
      <-> forall k, startsWith DOCUMENT_PREFIX k = true -> getItem k st = None)
  /\ (allDated getTime st ->
      StronglySorted (notOlder getTime) (getAllDocuments getTime st)
      /\ forall v w, getRecentDocument getTime st = Some v ->
                     In w (getAllDocuments getTime st) ->
                     notOlder getTime v w).
Proof.
  split; [apply getAllDocuments_In|]. split; [|split].
  - intros d G. apply getAllDocuments_In. exists (documentKey (id d)).
    split; [apply RegexFacts.startsWith_app|].
    unfold getDocument in G.
    destruct (getItem (documentKey (id d)) st) as [[d'|]|];
      try discriminate. injection G as ->. reflexivity.
  - unfold getRecentDocument. split.
    + intros H k P. destruct (getItem k st) as [v|] eqn:G; [|reflexivity].
      assert (I : In v (getAllDocuments getTime st))
        by (apply getAllDocuments_In; exists k; split; assumption).
      destruct (getAllDocuments getTime st); [destruct I | discriminate].
    + intros H. destruct (getAllDocuments getTime st) as [|v l] eqn:E;
        [reflexivity|].
      assert (I : In v (getAllDocuments getTime st))
        by (rewrite E; left; reflexivity).
      apply getAllDocuments_In in I as (k & P & G).
      rewrite (H k P) in G. discriminate.
  - intros D.
    assert (S : StronglySorted (notOlder getTime)
                               (getAllDocuments getTime st)).
    { rewrite getAllDocuments_eq. apply sort_sorted.
      apply Forall_forall. intros v I.
      apply read_In in I as (k & I & G). apply filter_In in I as [_ P].
      eapply D; eassumption. }
    split; [exact S|].
    intros v w R I. unfold getRecentDocument in R.
    destruct (getAllDocuments getTime st) as [|v' l] eqn:E; [discriminate|].
    injection R as ->. inversion S as [|? ? S' F]; subst.
    destruct I as [<-|I].
    + assert (I : In v (getAllDocuments getTime st))
        by (rewrite E; left; reflexivity).
      apply getAllDocuments_In in I as (k & P & G).
      destruct (stamp getTime v) as [t|] eqn:T;
        [|exfalso; eapply D; eassumption].
      exists t, t. repeat split; try assumption. lia.
    + rewrite Forall_forall in F. apply F, I.
Qed.

End Listing.

End ListingFacts.

(** ** Saving and opening *)

Module OpenFacts.

Import Storage Screen SaveFacts LibraryFacts.

(** A save writes one record: through the service, the records of the
    other ids stay as they are; from the screen, also the recent list
    stays as it is (the screen's save does not enter the document
    there). *)
Theorem save_writes_one_record :
  (forall tMod tCre d st j,
      j <> id d ->
      getDocument j (snd (saveDocument tMod tCre d st)) = getDocument j st)
  /\ (forall tId tMod tCre s st,
         let st' := snd (handleSave tId tMod tCre s st) in
         getRecentDocumentsList st' = getRecentDocumentsList st
         /\ forall j d, document (fst (handleSave tId tMod tCre s st)) = Some d ->
                        j <> id d -> getDocument j st' = getDocument j st).
Proof.
  split.
  - intros. apply getDocument_after_save. assumption.
  - intros tId tMod tCre s st. cbv zeta. unfold handleSave; simpl.
    split; [apply recent_setItem_document|].
    intros j d E H. injection E as <-. simpl in H.
    apply getDocument_setItem_other, H.
Qed.

(** What [handleSave] stores, [loadDocument] opens: the record becomes the
    open document, its title the title, and its body is what the editor is
    asked to show; the same for a record stored through the service.  An
    id without a record changes nothing and calls nothing. *)
Theorem saved_document_opens :
  (forall tId tMod tCre s st scr,
      let (s1, st1) := handleSave tId tMod tCre s st in
      exists d,
        document s1 = Some d
        /\ Storage.title d = title s /\ Storage.content d = content s
        /\ documentExists (id d) st1 = true
        /\ loadDocument (id d) scr st1
           = ({| document := Some d;
                 content := content scr;
                 title := title s;
                 hasUnsavedChanges := hasUnsavedChanges scr;
                 wordCount := wordCount scr;
                 charCount := charCount scr |},
              Some (content s)))
  /\ (forall tMod tCre doc st scr,
         let (d, st1) := saveDocument tMod tCre doc st in
         loadDocument (id doc) scr st1
         = ({| document := Some d;
               content := content scr;
               title := Storage.title doc;
               hasUnsavedChanges := hasUnsavedChanges scr;
               wordCount := wordCount scr;
               charCount := charCount scr |},
            Some (Storage.content doc)))
  /\ (forall i scr st,
         getItem (documentKey i) st = None ->
         loadDocument i scr st = (scr, None)).
Proof.
  split; [|split].
  - intros tId tMod tCre s st scr. unfold handleSave.
    eexists. split; [reflexivity|]. simpl.
    split; [reflexivity|]. split; [reflexivity|].
    unfold documentExists, loadDocument.
    rewrite getDocument_setItem, getItem_setItem. split; reflexivity.
  - intros tMod tCre doc st scr. unfold saveDocument, loadDocument.
    unfold updateRecentDocuments.
    rewrite getItem_setItem_other by apply recent_key_apart.
    rewrite getItem_setItem. reflexivity.
  - intros i scr st H. unfold loadDocument. rewrite H. reflexivity.
Qed.

End OpenFacts.

(** ** The component over sequences of events *)

Module RunFacts.

Import Codec Controller ControllerFacts HostFacts.

Lemma feed_app eff1 eff2 scr :
  App.feed (eff1 ++ eff2) scr = App.feed eff2 (App.feed eff1 scr).
Proof.
  revert scr. induction eff1 as [|e eff1 IH]; intros scr; [reflexivity|].
  destruct e; simpl; apply IH.
Qed.

Lemma feed_inject s j scr : App.feed (inject s j) scr = scr.
Proof. unfold inject. destruct (webViewRef s); reflexivity. Qed.

Lemma feed_syncEffect s scr : App.feed (syncEffect s) scr = scr.
Proof.
  unfold syncEffect.
  destruct (ViewMode_eqb (viewMode s) wysiwyg && editorReady s
            && truthy (lastWysiwygContent s)); [apply feed_inject | reflexivity].
Qed.

Lemma step_eq s e :
  step s e
  = (commit (fst (handle s e)),
     snd (handle s e)
     ++ (if depsChanged s (commit (fst (handle s e)))
         then syncEffect (commit (fst (handle s e))) else [])).
Proof. unfold step. destruct (handle s e). reflexivity. Qed.

(** What a handler leaves in the screen's copy of the content. *)
Lemma handle_feed s e scr :
  isCall e = false -> Screen.content scr = content s ->
  Screen.content (App.feed (snd (handle s e)) scr) = content (fst (handle s e)).
Proof.
  intros C H. destruct e as [m|[|c text|]|t|t|h|]; try discriminate; simpl.
  - unfold handleViewModeChange.
    destruct (viewMode s), m; simpl; rewrite ?feed_inject; exact H.
  - destruct (truthy (content s)); [rewrite feed_inject|]; exact H.
  - reflexivity.
  - exact H.
  - reflexivity.
  - reflexivity.
Qed.

Lemma step_feed s e scr :
  isCall e = false -> Screen.content scr = content s ->
  Screen.content (App.feed (snd (step s e)) scr) = content (fst (step s e)).
Proof.
  intros C H. rewrite step_eq. cbn [fst snd]. rewrite feed_app.
  assert (F : forall x, App.feed (if depsChanged s (commit (fst (handle s e)))
                                  then syncEffect (commit (fst (handle s e)))
                                  else []) x = x).
  { intros x. destruct (depsChanged _ _); [apply feed_syncEffect | reflexivity]. }
  rewrite F. apply handle_feed; assumption.
Qed.

Lemma run_feed es :
  forall s scr,
    forallb (fun e => negb (isCall e)) es = true ->
    Screen.content scr = content s ->
    Screen.content (App.feed (snd (run s es)) scr) = content (fst (run s es)).
Proof.
  induction es as [|e es IH]; intros s scr C H; [exact H|].
  simpl in C. apply andb_true_iff in C as [Ce C]. apply negb_true_iff in Ce.
  rewrite run_cons. cbn [fst snd]. rewrite feed_app.
  apply IH; [exact C|]. apply step_feed; assumption.
Qed.

(** The save contract of the screen: as long as the content changes
    through the views only (typing, view presses, messages of the page)
    and not through [setContent] or [clearContent], the screen's copy is
    the component's canonical content after every event, and that is what
    [handleSave] stores. *)
Theorem screen_follows_editor es s scr tId tMod tCre st :
  forallb (fun e => negb (isCall e)) es = true ->
  Screen.content scr = content s ->
  let (s', eff) := run s es in
  let scr' := App.feed eff scr in
  Screen.content scr' = content s'
  /\ exists d,
       Screen.document (fst (Screen.handleSave tId tMod tCre scr' st)) = Some d
       /\ Storage.getDocument (Storage.id d)
            (snd (Screen.handleSave tId tMod tCre scr' st)) = Some d
       /\ Storage.content d = content s'.
Proof.
  intros C H. pose proof (run_feed es s scr C H) as R.
  destruct (run s es) as [s' eff]. cbn [fst snd] in R. cbv zeta.
  split; [exact R|].
  unfold Screen.handleSave. cbn [fst snd]. eexists.
  split; [reflexivity|]. split.
  - unfold Storage.getDocument. cbn [Storage.id].
    rewrite SaveFacts.getItem_setItem. reflexivity.
  - exact R.
Qed.

Lemma screen_follows_editor_witness :
  let es := [Receive editorReadyMsg; Press markdown;
             TypeMarkdown (js "# T"); Press wysiwyg] in
  Screen.content
    (App.feed (snd (run App.editorAtMount es)) Screen.init)
  = js "<h1>T</h1>".
Proof.
  intros es.
  pose proof (@screen_follows_editor es App.editorAtMount Screen.init
                0%Z 0%Z 0%Z [] eq_refl eq_refl) as H.
  destruct (run App.editorAtMount es) as [s' eff] eqn:E.
  cbn [fst snd]. destruct H as [H _]. rewrite H.
  apply (f_equal fst) in E. cbn [fst] in E. rewrite <- E. reflexivity.
Defined.

(** *** Invariants of the component over all event sequences *)

Lemma handle_ready s e :
  editorReady s = true -> editorReady (fst (handle s e)) = true.
Proof.
  intros H. destruct e as [m|[|c text|]|t|t|h|]; simpl; try exact H;
    try reflexivity.
  unfold handleViewModeChange. destruct (viewMode s), m; exact H.
Qed.

Lemma handle_backed s e :
  backedByCache s -> backedByCache (fst (handle s e)).
Proof.
  unfold backedByCache.
  intros H. destruct e as [m|[|c text|]|t|t|h|]; simpl; auto.
  unfold handleViewModeChange. destruct (viewMode s), m; exact H.
Qed.

Lemma step_invariants s e :
  (editorReady s = true -> editorReady (fst (step s e)) = true)
  /\ (backedByCache s -> backedByCache (fst (step s e))).
Proof.
  rewrite step_eq. cbn [fst]. split.
  - intros H. apply (handle_ready s e H).
  - intros H. apply (handle_backed e H).
Qed.

Lemma run_keeps es :
  forall s,
    (editorReady s = true -> editorReady (fst (run s es)) = true)
    /\ (backedByCache s -> backedByCache (fst (run s es))).
Proof.
  induction es as [|e es IH]; intros s; [split; auto|].
  rewrite run_cons. cbn [fst].
  destruct (step_invariants s e) as (A & C).
  destruct (IH (fst (step s e))) as (A' & C').
  split; auto.
Qed.

(** Over every sequence of events: the ready flag, once set, stays set
    (also while no WebView is mounted, so a page that loads later finds
    it set already); and the canonical content is always the HTML cache
    or the HTML form of the Markdown cache, from the mounted component
    on. *)
Theorem run_invariants :
  (forall es s, editorReady s = true -> editorReady (fst (run s es)) = true)
  /\ (forall es s, backedByCache s -> backedByCache (fst (run s es)))
  /\ (forall es initialContent mode,
         backedByCache (fst (run (mount initialContent mode) es))).
Proof.
  split; [|split].
  - intros es s. apply (run_keeps es s).
  - intros es s. apply (run_keeps es s).
  - intros es i m. apply (run_keeps es (mount i m)). left. reflexivity.
Qed.

End RunFacts.

(** ** Blank content, the focus and the page *)

Module PageFacts.

Import Codec Controller ControllerFacts HostFacts.

Lemma step_setContent s h :
  step s (CallSetContent h)
  = (commit (fst (setContent s h)),
     if editorReady s then inject s (SetContentJs (escapeTemplate h)) else []).
Proof.
  unfold step, handle. cbn [setContent fst snd].
  rewrite depsChanged_same by reflexivity. rewrite app_nil_r. reflexivity.
Qed.

Lemma setContent_blank placeholder innerText h p :
  trim h = [] -> truthy (trim (Host.innerHTML p)) = true ->
  Host.setContent placeholder innerText h p
  = (p, [contentChange (Host.innerHTML p) (innerText (Host.innerHTML p))]).
Proof.
  intros B T. unfold Host.setContent, Host.setPlaceholder, Host.updateContent.
  rewrite B, T. rewrite andb_false_r. reflexivity.
Qed.


Lemma exchange_setContent_blank placeholder innerText s p h :
  webViewRef s = true -> editorReady s = true ->
  forallb Host.mild h = true -> trim h = [] ->
  truthy (trim (Host.innerHTML p)) = true ->
  Host.exchange placeholder innerText s p (CallSetContent h)
  = (commit (fst (handleWebViewMessage (commit (fst (setContent s h)))
                    (contentChange (Host.innerHTML p)
                                   (innerText (Host.innerHTML p))))),
     p,
     [Inject (SetContentJs (escapeTemplate h));
      OnChange (stripPlaceholder (Host.innerHTML p))
               (innerText (Host.innerHTML p))]).
Proof.
  intros W R M B T. unfold Host.exchange.
  rewrite step_setContent, R. unfold inject. rewrite W.
  cbn [Host.deliver Host.evalScript].
  rewrite (cook_escapeTemplate h M).
  rewrite (setContent_blank placeholder innerText h p B T).
  cbn [app map run]. rewrite step_contentChange. reflexivity.
Qed.

(** [setContent] with a blank string cannot empty a page that shows a
    body: the page keeps its buffer and reports it, and the report makes
    the old body the canonical content again ([clearContent] is what
    empties the page). *)
Theorem blank_setContent_keeps_page placeholder innerText s p h :
  webViewRef s = true -> editorReady s = true ->
  forallb Host.mild h = true -> trim h = [] ->
  truthy (trim (Host.innerHTML p)) = true ->
  let '(s', p', eff) :=
    Host.exchange placeholder innerText s p (CallSetContent h) in
  p' = p
  /\ content s' = stripPlaceholder (Host.innerHTML p)
  /\ htmlContent s' = stripPlaceholder (Host.innerHTML p)
  /\ lastWysiwygContent s' = stripPlaceholder (Host.innerHTML p)
  /\ eff = [Inject (SetContentJs (escapeTemplate h));
            OnChange (stripPlaceholder (Host.innerHTML p))
                     (innerText (Host.innerHTML p))].
Proof.
  intros W R M B T.
  rewrite exchange_setContent_blank by assumption.
  repeat split.
Qed.

Lemma blank_setContent_keeps_page_witness :
  Host.innerHTML
    (snd (fst (Host.exchange Screen.screenPlaceholder stripTags readyTyped
                 {| Host.innerHTML := js "<p>x</p>";
                    Host.isContentSet := true |}
                 (CallSetContent []))))
  = js "<p>x</p>".
Proof.
  pose proof (@blank_setContent_keeps_page Screen.screenPlaceholder stripTags
                readyTyped
                {| Host.innerHTML := js "<p>x</p>";
                   Host.isContentSet := true |} []
                eq_refl eq_refl eq_refl eq_refl eq_refl) as H.
  destruct (Host.exchange Screen.screenPlaceholder stripTags readyTyped
              {| Host.innerHTML := js "<p>x</p>"; Host.isContentSet := true |}
              (CallSetContent [])) as [[s' p'] eff].
  cbn [fst snd]. destruct H as [H _]. rewrite H. reflexivity.
Defined.

(** The [focus] listener takes any buffer that holds the word
    [placeholder] for the placeholder element: the buffer is emptied, and
    the next report empties the canonical content and the caches of the
    component.  A buffer without the word is left alone. *)
Theorem focus_erases_placeholder_word innerText s p :
  (forall n,
      indexOf (js "placeholder") (Host.innerHTML p) = Some n ->
      let '(s', p', eff) := Host.visited innerText s p in
      p' = {| Host.innerHTML := []; Host.isContentSet := true |}
      /\ cleared s'
      /\ eff = [OnChange [] (innerText [])])
  /\ (indexOf (js "placeholder") (Host.innerHTML p) = None ->
      Host.focus p = p
      /\ let '(s', p', eff) := Host.visited innerText s p in
         p' = p /\ content s' = stripPlaceholder (Host.innerHTML p)).
Proof.
  split.
  - intros n H. unfold Host.visited, Host.focus, Host.blur, Host.updateContent.
    rewrite H. cbn [Host.innerHTML map run]. rewrite step_contentChange.
    cbn [app]. repeat split.
  - intros H. unfold Host.visited, Host.focus, Host.blur, Host.updateContent.
    rewrite H. split; [reflexivity|].
    cbn [map run]. rewrite step_contentChange. cbn [app]. split; reflexivity.
Qed.

Example a_sentence_with_the_word :
  let p := {| Host.innerHTML := js "<p>Use a placeholder image here</p>";
              Host.isContentSet := true |} in
  indexOf (js "placeholder") (Host.innerHTML p) = Some 9
  /\ Host.focus p = {| Host.innerHTML := []; Host.isContentSet := true |}.
Proof. split; reflexivity. Qed.

End PageFacts.

(** ** The screen, the component and the page together *)

Module AppFacts.

Import Codec Controller ControllerFacts HostFacts RunFacts PageFacts.

Section Browser.

Variable innerText : str -> str.

Lemma screenPlaceholder_stripped :
  stripPlaceholder (marker Screen.screenPlaceholder) = [].
Proof. reflexivity. Qed.

Lemma exchange_clearContent s p :
  webViewRef s = true ->
  Host.exchange Screen.screenPlaceholder innerText s p CallClearContent
  = (commit (fst (handleWebViewMessage
                    (commit (fst (clearContent s)))
                    (contentChange (marker Screen.screenPlaceholder)
                       (innerText (marker Screen.screenPlaceholder))))),
     {| Host.innerHTML := marker Screen.screenPlaceholder;
        Host.isContentSet := false |},
     [Inject ClearContentJs;
      OnChange [] (innerText (marker Screen.screenPlaceholder))]).
Proof.
  intros W. unfold Host.exchange. rewrite step_clearContent.
  unfold inject. rewrite W. cbn [Host.deliver Host.evalScript].
  rewrite clearContent_page. cbn [app map run]. rewrite step_contentChange.
  rewrite screenPlaceholder_stripped. reflexivity.
Qed.

Lemma exchange_clearContent_detached s p :
  webViewRef s = false ->
  Host.exchange Screen.screenPlaceholder innerText s p CallClearContent
  = (commit (fst (clearContent s)), p, []).
Proof.
  intros W. unfold Host.exchange. rewrite step_clearContent.
  unfold inject. rewrite W. reflexivity.
Qed.

(** [New Document] with the page loaded: the editor is cleared and the
    page shows the placeholder, whose report then reaches
    [handleContentChange]: the screen's counts are those of the rendered
    placeholder and the empty document is marked as changed.  In a view
    without WebView nothing reports: the counts are 0, but the screen
    keeps the previous body as its content.  A refused confirmation
    changes nothing. *)
Theorem new_document a confirm :
  (Screen.hasUnsavedChanges (App.screen a) = true -> confirm = true) ->
  let a' := App.newDocument innerText confirm a in
  Screen.document (App.screen a') = None
  /\ Screen.title (App.screen a') = js "Untitled Document"
  /\ cleared (App.editor a')
  /\ (webViewRef (App.editor a) = true -> editorReady (App.editor a) = true ->
      Screen.content (App.screen a') = []
      /\ Screen.hasUnsavedChanges (App.screen a') = true
      /\ Screen.wordCount (App.screen a')
         = Projector.words (innerText (marker Screen.screenPlaceholder))
      /\ Screen.charCount (App.screen a')
         = List.length (innerText (marker Screen.screenPlaceholder))
      /\ Host.innerHTML (App.page a') = marker Screen.screenPlaceholder)
  /\ (webViewRef (App.editor a) = false ->
      Screen.content (App.screen a') = Screen.content (App.screen a)
      /\ Screen.hasUnsavedChanges (App.screen a') = false
      /\ Screen.wordCount (App.screen a') = 0
      /\ Screen.charCount (App.screen a') = 0
      /\ App.page a' = App.page a).
Proof.
  intros C. cbv zeta. unfold App.newDocument, Screen.handleNewDocument.
  destruct (webViewRef (App.editor a)) eqn:W.
  - destruct (Screen.hasUnsavedChanges (App.screen a)) eqn:U.
    + rewrite (C eq_refl). unfold App.editorEvent. cbn [App.editor App.page].
      rewrite exchange_clearContent by exact W.
      cbn. repeat split; discriminate.
    + unfold App.editorEvent. cbn [App.editor App.page].
      rewrite exchange_clearContent by exact W.
      cbn. repeat split; discriminate.
  - destruct (Screen.hasUnsavedChanges (App.screen a)) eqn:U.
    + rewrite (C eq_refl). unfold App.editorEvent. cbn [App.editor App.page].
      rewrite exchange_clearContent_detached by exact W.
      cbn. repeat split; discriminate.
    + unfold App.editorEvent. cbn [App.editor App.page].
      rewrite exchange_clearContent_detached by exact W.
      cbn. repeat split; discriminate.
Qed.






(** Opening a stored document whose body is empty while the page shows
    a body: the record becomes the open document, but the page keeps what
    it shows and reports it, so the component and the screen hold the old
    body again; a save then stores the old body in the opened record. *)
Theorem open_empty_document i st d a tId tMod tCre st' :
  Storage.getItem (Storage.documentKey i) st = Some (Storage.DocumentJson d) ->
  Storage.content d = [] -> truthy (Storage.id d) = true ->
  webViewRef (App.editor a) = true -> editorReady (App.editor a) = true ->
  truthy (trim (Host.innerHTML (App.page a))) = true ->
  let a' := App.openDocument innerText i st a in
  let old := stripPlaceholder (Host.innerHTML (App.page a)) in
  Screen.document (App.screen a') = Some d
  /\ App.page a' = App.page a
  /\ content (App.editor a') = old
  /\ Screen.content (App.screen a') = old
  /\ exists d',
       Storage.getDocument (Storage.id d)
         (snd (Screen.handleSave tId tMod tCre (App.screen a') st')) = Some d'
       /\ Storage.id d' = Storage.id d
       /\ Storage.content d' = old.
Proof.
  intros G E I W R T. cbv zeta.
  unfold App.openDocument, Screen.loadDocument. rewrite G, E.
  unfold App.editorEvent. cbn [App.screen App.editor App.page].
  rewrite exchange_setContent_blank by (reflexivity || assumption).
  cbn [App.screen App.editor App.page App.feed Screen.handleContentChange
       Screen.document Screen.content handleWebViewMessage commit fst snd
       content].
  split; [reflexivity|]. split; [reflexivity|]. split; [reflexivity|].
  split; [reflexivity|].
  unfold Screen.handleSave, Screen.fieldOr.
  cbn [Screen.document Screen.content Screen.title snd
       Screen.handleContentChange].
  rewrite (@SaveFacts.orElse_keeps (Storage.id d) _ I).
  eexists. split.
  - unfold Storage.getDocument. rewrite SaveFacts.getItem_setItem.
    reflexivity.
  - split; reflexivity.
Qed.

End Browser.

(** *** The theorems on a concrete library *)

Lemma new_document_witness :
  Screen.hasUnsavedChanges
    (App.screen
       (App.newDocument stripTags true
          {| App.screen := Screen.handleContentChange Screen.init
                             (js "<p>x</p>") (js "x");
             App.editor := readyTyped;
             App.page := {| Host.innerHTML := js "<p>x</p>";
                            Host.isContentSet := true |} |}))
  = true.
Proof.
  pose proof (@new_document stripTags
                {| App.screen := Screen.handleContentChange Screen.init
                                   (js "<p>x</p>") (js "x");
                   App.editor := readyTyped;
                   App.page := {| Host.innerHTML := js "<p>x</p>";
                                  Host.isContentSet := true |} |}
                true (fun _ => eq_refl)) as (_ & _ & _ & H & _).
  exact (proj1 (proj2 (H eq_refl eq_refl))).
Defined.


Lemma open_empty_document_witness :
  let d := Storage.createNewDocument 0 0 0 in
  let st := snd (Storage.saveDocument 0 0 d []) in
  let a := {| App.screen := Screen.handleContentChange Screen.init
                              (js "<p>x</p>") (js "x");
              App.editor := readyTyped;
              App.page := {| Host.innerHTML := js "<p>x</p>";
                             Host.isContentSet := true |} |} in
  Screen.content (App.screen (App.openDocument stripTags (Storage.id d) st a))
  = js "<p>x</p>".
Proof.
  intros d st a.
  pose proof (@open_empty_document stripTags (Storage.id d) st
                (fst (Storage.saveDocument 0 0 d [])) a 0%Z 0%Z 0%Z []
                eq_refl eq_refl eq_refl eq_refl eq_refl eq_refl)
    as (_ & _ & _ & H & _).
  exact H.
Defined.

End AppFacts.
